(** * reel-cli: film storage, configuration and file-name helpers

    A shallow embedding of the TypeScript sources of reel-cli
    (src/utils/file-helpers.ts, src/lib/storage-service.ts,
    src/lib/config-manager.ts, src/lib/film-service.ts,
    src/lib/tmdb-client.ts, src/types and the helpers of the list, export
    and configure commands), followed by the properties the specification
    states about them and by further properties of the code.

    Conventions.
    - A JavaScript string is the list of its UTF-16 code units, so that
      [length], [substring] and the regular expressions (which run without
      the [u] flag) count exactly what the program counts.
    - Film identifiers are integers ([Z]); the other numeric fields of a
      film are rationals, standing for finite doubles.  File sizes and
      their sums are integers, which doubles hold and add exactly below
      2^53; their quotient is rounded as the division of doubles rounds
      it.
    - The file system is a finite map from resolved paths to nodes, threaded
      through the calls that write; an operation fails for what is or is
      not at a path (a file in the way, a missing parent), not for
      permissions, links or a full disk.  A thrown exception is a value of
      [exn] and leaves the file system as it was at the throw.
    - What Node.js and its surroundings provide (the JSON functions, number
      formatting, the clock, the environment, the network) is a record
      [Platform] that every function takes.
    - [async] functions are run to completion one after the other; the two
      image downloads, which touch different files, are run in turn. *)

From Stdlib Require Import ZArith NArith QArith Lia List Ascii String.
From Stdlib Require Import Decimal DecimalZ SpecFloat.
From stdpp Require Import base option list gmap.

Set Warnings "-register-all".

Close Scope Q_scope.
Close Scope string_scope.
Local Open Scope N_scope.
Local Open Scope list_scope.

(** ** JavaScript strings *)

Module JsString.

Definition code_unit := N.
Definition jsstring := list code_unit.

(** An ASCII literal as a JavaScript string. *)
Definition js (s : String.string) : jsstring :=
  List.map N_of_ascii (list_ascii_of_string s).
Arguments js : simpl never.

Definition hyphen : code_unit := 45.
Definition slash : code_unit := 47.

Definition is_hyphen (c : code_unit) : bool := c =? hyphen.

(** The character class of the first replacement in file-helpers.ts:
    less-than, greater-than, colon, double quote, slash, backslash, bar,
    question mark and asterisk. *)
Definition is_invalid_char (c : code_unit) : bool :=
  (c =? 60) || (c =? 62) || (c =? 58) || (c =? 34) || (c =? 47)
  || (c =? 92) || (c =? 124) || (c =? 63) || (c =? 42).

(** The class [\s] of ECMAScript (WhiteSpace and LineTerminator), which is
    also the set [String.prototype.trim] strips: TAB, LF, VT, FF, CR, SP,
    NBSP, U+1680, U+2000..U+200A, U+2028, U+2029, U+202F, U+205F, U+3000
    and U+FEFF. *)
Definition is_whitespace (c : code_unit) : bool :=
  ((9 <=? c) && (c <=? 13)) || (c =? 32) || (c =? 160) || (c =? 5760)
  || ((8192 <=? c) && (c <=? 8202)) || (c =? 8232) || (c =? 8233)
  || (c =? 8239) || (c =? 8287) || (c =? 12288) || (c =? 65279).

(** [s.replace(/[C]/g, r)]: every code unit of class [p] becomes [r]. *)
Definition replace_each (p : code_unit -> bool) (r : code_unit)
    (s : jsstring) : jsstring :=
  List.map (fun c => if p c then r else c) s.

(** [s.replace(/[C]+/g, r)]: every maximal run of class [p] becomes one
    [r].  [in_run] tells that the previous code unit belonged to a run
    already replaced. *)
Fixpoint replace_runs_from (p : code_unit -> bool) (r : code_unit)
    (in_run : bool) (s : jsstring) : jsstring :=
  match s with
  | [] => []
  | c :: rest =>
      if p c then
        if in_run then replace_runs_from p r true rest
        else r :: replace_runs_from p r true rest
      else c :: replace_runs_from p r false rest
  end.

Definition replace_runs (p : code_unit -> bool) (r : code_unit)
    (s : jsstring) : jsstring :=
  replace_runs_from p r false s.

Fixpoint drop_while (p : code_unit -> bool) (s : jsstring) : jsstring :=
  match s with
  | [] => []
  | c :: rest => if p c then drop_while p rest else s
  end.

Definition drop_while_end (p : code_unit -> bool) (s : jsstring) : jsstring :=
  rev (drop_while p (rev s)).

(** [s.replace(/^-+|-+$/g, '')]: the leading and the trailing run of
    hyphens are removed. *)
Definition strip_hyphens (s : jsstring) : jsstring :=
  drop_while_end is_hyphen (drop_while is_hyphen s).

(** [s.trim()]. *)
Definition trim (s : jsstring) : jsstring :=
  drop_while_end is_whitespace (drop_while is_whitespace s).

(** [s.substring(0, n)]. *)
Definition substring0 (n : nat) (s : jsstring) : jsstring := take n s.

(** [s.split(sep)] for a one-code-unit separator; never the empty list. *)
Fixpoint split_on (sep : code_unit) (s : jsstring) : list jsstring :=
  match s with
  | [] => [[]]
  | c :: rest =>
      if c =? sep then [] :: split_on sep rest
      else match split_on sep rest with
           | [] => [[c]]
           | w :: ws => (c :: w) :: ws
           end
  end.

(** [parts.join(sep)]. *)
Fixpoint join_with (sep : jsstring) (parts : list jsstring) : jsstring :=
  match parts with
  | [] => []
  | [w] => w
  | w :: ws => w ++ sep ++ join_with sep ws
  end.

(** Decimal digits of an unsigned decimal numeral. *)
Fixpoint digits_of_uint (d : Decimal.uint) : jsstring :=
  match d with
  | Nil => []
  | D0 d => 48 :: digits_of_uint d
  | D1 d => 49 :: digits_of_uint d
  | D2 d => 50 :: digits_of_uint d
  | D3 d => 51 :: digits_of_uint d
  | D4 d => 52 :: digits_of_uint d
  | D5 d => 53 :: digits_of_uint d
  | D6 d => 54 :: digits_of_uint d
  | D7 d => 55 :: digits_of_uint d
  | D8 d => 56 :: digits_of_uint d
  | D9 d => 57 :: digits_of_uint d
  end.

(** [`${n}`] for an integer-valued number [n]: the decimal numeral, with a
    leading minus sign below zero (Number::toString, radix 10, for integers
    of magnitude below 10^21). *)
Definition Number_toString (n : Z) : jsstring :=
  match Z.to_int n with
  | Decimal.Pos d => digits_of_uint d
  | Decimal.Neg d => hyphen :: digits_of_uint d
  end.

End JsString.
Export JsString.

(** ** JavaScript values, exceptions and the result of a call *)

Module Js.

(** A runtime value: what [JSON.parse] returns, what a configuration object
    holds, what a property access yields.  An object is the finite map of
    its own properties; the order of insertion is not kept, nothing the
    program does with an object here depends on it. *)
Inductive JSValue :=
  | JUndefined
  | JNull
  | JBool (b : bool)
  | JNum (n : Q)
  | JStr (s : jsstring)
  | JArr (items : list JSValue)
  | JObj (props : gmap jsstring JSValue).

Abbreviation object := (gmap jsstring JSValue).

(** ToBoolean. *)
Definition truthy (v : JSValue) : bool :=
  match v with
  | JUndefined | JNull => false
  | JBool b => b
  | JNum n => negb (Qeq_bool n 0)
  | JStr s => negb (bool_decide (s = []))
  | JArr _ | JObj _ => true
  end.

(** [a || b]. *)
Definition or_else (a b : JSValue) : JSValue := if truthy a then a else b.

(** [o[k]], [undefined] for a missing key. *)
Definition obj_get (o : object) (k : jsstring) : JSValue :=
  default JUndefined (o !! k).

(** [o[k] = v]. *)
Definition obj_set (o : object) (k : jsstring) (v : JSValue) : object :=
  <[k := v]> o.

(** An object literal. *)
Definition obj (props : list (jsstring * JSValue)) : object :=
  list_to_map props.

Definition index_keys {A} (f : A -> JSValue) (l : list A) : object :=
  list_to_map (imap (fun i x => (Number_toString (Z.of_nat i), f x)) l).

(** The own enumerable properties an object spread copies: those of an
    object, the indices of an array or of a string, nothing otherwise. *)
Definition own_props (v : JSValue) : object :=
  match v with
  | JObj props => props
  | JArr items => index_keys (fun x => x) items
  | JStr s => index_keys (fun c => JStr [c]) s
  | _ => ∅
  end.

(** [{ ...target, ...source }] onto an already built [target]: the
    properties of [source] win. *)
Definition spread (target : object) (source : JSValue) : object :=
  own_props source ∪ target.

(** [list.includes(v)] for a list of string literals (SameValueZero). *)
Definition includes (l : list jsstring) (v : JSValue) : bool :=
  match v with
  | JStr s => bool_decide (s ∈ l)
  | _ => false
  end.

(** [v === lit] for a string literal. *)
Definition is_str (lit : jsstring) (v : JSValue) : bool :=
  match v with
  | JStr s => bool_decide (s = lit)
  | _ => false
  end.

(** The exceptions of src/types/errors.ts; [NodeError] for what the
    platform throws (an errno from [fs], a SyntaxError from [JSON.parse],
    a TypeError), its message abbreviated to the error's code; and
    [Uncaught] for an error event that no listener takes: no [catch] sees
    it, and the handler of src/index.ts ends the process. *)
Inductive exn :=
  | NodeError (code : jsstring)
  | ConfigurationError (message : jsstring)
  | APIError (message : jsstring) (statusCode : Z) (endpoint : jsstring)
  | FileSystemError (message : jsstring) (path : jsstring)
      (operation : jsstring)
  | Uncaught (message : jsstring).

(** [error instanceof Error ? error.message : 'Unknown error']: every
    exception of the model is an [Error]. *)
Definition message_of (e : exn) : jsstring :=
  match e with
  | NodeError code => code
  | ConfigurationError m => m
  | APIError m _ _ => m
  | FileSystemError m _ _ => m
  | Uncaught m => m
  end.

(** What a [catch] block that throws [wrap error] lets out. *)
Definition caught (wrap : exn -> exn) (e : exn) : exn :=
  match e with
  | Uncaught _ => e
  | _ => wrap e
  end.

Inductive result (A : Type) :=
  | Ok (a : A)
  | Throw (e : exn).
Arguments Ok {A} a.
Arguments Throw {A} e.

Definition is_ok {A} (r : result A) : bool :=
  match r with Ok _ => true | Throw _ => false end.

Definition bind_result {A B} (r : result A) (k : A -> result B) : result B :=
  match r with
  | Ok a => k a
  | Throw e => Throw e
  end.

(** [try { body } catch (error) { throw wrap(error) }] without state. *)
Definition rethrow {A} (wrap : exn -> exn) (r : result A) : result A :=
  match r with
  | Ok a => Ok a
  | Throw e => Throw (caught wrap e)
  end.

(** [v.k]: reading a property of [null] or [undefined] throws a TypeError;
    the keys the program reads this way ([user], [app], [lastUpdated],
    [apiKey]) are properties of objects only. *)
Definition get_prop (v : JSValue) (k : jsstring) : result JSValue :=
  match v with
  | JUndefined | JNull => Throw (NodeError (js "TypeError"))
  | JObj props => Ok (obj_get props k)
  | _ => Ok JUndefined
  end.

(** *** Doubles

    [a / b] on numbers is the division of IEEE-754 doubles: the quotient
    rounded to the nearest double, ties to even. *)
Definition double_of_Z (z : Z) : spec_float := binary_normalize 53 1024 z 0 false.

(** The value of a finite double; an infinity or NaN, which the quotient of
    an integer by a positive integer never is, has none. *)
Definition Q_of_double (x : spec_float) : Q :=
  match x with
  | S754_finite s m e =>
      let n := if s then Zneg m else Zpos m in
      Qred match e with
           | Zneg k => Qmake n (2 ^ k)%positive
           | _ => inject_Z (n * 2 ^ e)
           end
  | _ => 0%Q
  end.

Definition double_div (a b : Z) : Q :=
  Q_of_double (SFdiv 53 1024 (double_of_Z a) (double_of_Z b)).

End Js.
Export Js.

Notation "'let?' x ':=' r 'in' k" := (bind_result r (fun x => k))
  (at level 10, x name, r at level 100, k at level 200).

(** ** The file system *)

Module Fs.

(** A resolved absolute path: its segments below the root. *)
Definition path := list jsstring.

Inductive node :=
  | File (content : jsstring)
  | Dir.

Abbreviation FS := (gmap (list jsstring) node).

(** The root is a directory; everything else is what the map holds. *)
Definition lookup_node (fs : FS) (p : path) : option node :=
  match p with
  | [] => Some Dir
  | _ => fs !! p
  end.

Definition is_dir (fs : FS) (p : path) : bool :=
  match lookup_node fs p with
  | Some Dir => true
  | _ => false
  end.

(** [path.dirname]. *)
Definition dirname (p : path) : path := removelast p.

(** [path.join(dir, name)] for a directory entry or a literal file name,
    which is one segment. *)
Definition child (dir : path) (name : jsstring) : path := dir ++ [name].

Definition dot : jsstring := js ".".
Definition dotdot : jsstring := js "..".

(** One step of path normalisation: empty and [.] segments vanish, [..]
    climbs, any other segment descends. *)
Definition push_segment (p : path) (seg : jsstring) : path :=
  if bool_decide (seg = []) || bool_decide (seg = dot) then p
  else if bool_decide (seg = dotdot) then removelast p
  else p ++ [seg].

(** [path.join(dir, s)] for an arbitrary string [s], on a resolved [dir]. *)
Definition path_join (dir : path) (s : jsstring) : path :=
  fold_left push_segment (split_on slash s) dir.

Definition is_absolute (s : jsstring) : bool :=
  match s with
  | c :: _ => c =? slash
  | [] => false
  end.

(** [path.resolve(s)] in a process whose working directory is [cwd]. *)
Definition path_resolve (cwd : path) (s : jsstring) : path :=
  if is_absolute s then path_join [] s else path_join cwd s.

(** [path.resolve(a, b)]. *)
Definition path_resolve2 (cwd : path) (a b : jsstring) : path :=
  if is_absolute b then path_join [] b else path_join (path_resolve cwd a) b.

(** The absolute path as text, for error reports. *)
Definition path_to_string (p : path) : jsstring :=
  slash :: join_with [slash] p.

(** [fs.existsSync]. *)
Definition existsSync (p : path) (fs : FS) : bool :=
  bool_decide (is_Some (lookup_node fs p)).

(** *** Paths as text

    [fs] takes a path as text, and the kernel follows the text segment by
    segment, from the root or from the working directory.  A segment, [.]
    and [..] included, is followed only out of a directory: [a/../b] leads
    to [b] only where [a] is a directory, while [path.resolve] and
    [path.join] do away with [a/..] without looking. *)
Fixpoint follow (fs : FS) (here : path) (segments : list jsstring) : option path :=
  match segments with
  | [] => Some here
  | seg :: rest =>
      if is_dir fs here then follow fs (push_segment here seg) rest else None
  end.

(** The path the kernel reaches by the text [s]: none for the empty text
    and where the text leads through what is no directory.  Whether
    anything is at the path reached is for the caller to see. *)
Definition reach (cwd : path) (s : jsstring) (fs : FS) : option path :=
  match s with
  | [] => None
  | _ => follow fs (if is_absolute s then [] else cwd) (split_on slash s)
  end.

(** The last segment of a text that is not empty, which is what [rmdir]
    judges; none for a text of slashes only. *)
Definition final_segment (s : jsstring) : option jsstring :=
  last (List.filter (fun seg => negb (bool_decide (seg = []))) (split_on slash s)).

(** One step of [normalizeString] in Node's [path]: empty and [.] segments
    vanish, [..] takes the last segment kept unless that is [..] itself or
    there is none, in which case it is kept in a relative text and dropped
    in an absolute one. *)
Definition normal_segment (absolute : bool) (kept : list jsstring)
    (seg : jsstring) : list jsstring :=
  if bool_decide (seg = []) || bool_decide (seg = dot) then kept
  else if bool_decide (seg = dotdot) then
    match last kept with
    | Some l =>
        if bool_decide (l = dotdot)
        then (if absolute then kept else kept ++ [dotdot])
        else removelast kept
    | None => if absolute then kept else kept ++ [dotdot]
    end
  else kept ++ [seg].

Definition ends_with_slash (s : jsstring) : bool :=
  match last s with
  | Some c => c =? slash
  | None => false
  end.

(** [path.normalize(s)], as text. *)
Definition path_normalize (s : jsstring) : jsstring :=
  match s with
  | [] => dot
  | _ =>
      let absolute := is_absolute s in
      let trailing := ends_with_slash s in
      match fold_left (normal_segment absolute) (split_on slash s) [] with
      | [] => if absolute then [slash] else if trailing then dot ++ [slash] else dot
      | kept =>
          (if absolute then [slash] else [])
          ++ join_with [slash] kept
          ++ (if trailing then [slash] else [])
      end
  end.

(** [path.join(a, b)] for two strings, as text: the arguments that are not
    empty, joined by a slash and normalised. *)
Definition path_join_text (a b : jsstring) : jsstring :=
  match a, b with
  | [], [] => dot
  | [], _ => path_normalize b
  | _, [] => path_normalize a
  | _, _ => path_normalize (a ++ slash :: b)
  end.

(** [fs.statSync(p).isDirectory()], [false] where [statSync] would throw. *)
Definition isDirectory (p : path) (fs : FS) : bool := is_dir fs p.

(** [fs.mkdirSync(p, { recursive: true })], walking down from the root:
    a missing segment is created, a file in the way is an error. *)
Fixpoint mkdirs (fs : FS) (done : path) (todo : list jsstring) : result FS :=
  match todo with
  | [] => Ok fs
  | x :: rest =>
      let p := done ++ [x] in
      match fs !! p with
      | Some (File _) =>
          Throw (NodeError (js match rest with [] => "EEXIST" | _ => "ENOTDIR" end))
      | Some Dir => mkdirs fs p rest
      | None => mkdirs (<[p := Dir]> fs) p rest
      end
  end.

Definition mkdirSync_recursive (p : path) (fs : FS) : result FS :=
  mkdirs fs [] p.

(** [fs.writeFileSync(p, data)]: the parent must be a directory and [p]
    must not be one; the file is created or replaced. *)
Definition writeFileSync (p : path) (data : jsstring) (fs : FS) : result FS :=
  match p with
  | [] => Throw (NodeError (js "EISDIR"))
  | _ =>
      if negb (is_dir fs (dirname p)) then Throw (NodeError (js "ENOENT"))
      else match fs !! p with
           | Some Dir => Throw (NodeError (js "EISDIR"))
           | _ => Ok (<[p := File data]> fs)
           end
  end.

(** [fs.readFileSync(p, 'utf8')]. *)
Definition readFileSync (p : path) (fs : FS) : result jsstring :=
  match lookup_node fs p with
  | Some (File content) => Ok content
  | Some Dir => Throw (NodeError (js "EISDIR"))
  | None => Throw (NodeError (js "ENOENT"))
  end.

(** [q = dir ++ [x]] gives [x]. *)
Fixpoint child_name (dir q : path) : option jsstring :=
  match dir, q with
  | [], [x] => Some x
  | a :: dir', b :: q' => if bool_decide (a = b) then child_name dir' q' else None
  | _, _ => None
  end.

(** The names directly below [dir], each once. *)
Definition entries (dir : path) (fs : FS) : list jsstring :=
  omap (child_name dir) (map_to_list fs).*1.

(** [fs.readdirSync(p)]. *)
Definition readdirSync (p : path) (fs : FS) : result (list jsstring) :=
  match lookup_node fs p with
  | Some Dir => Ok (entries p fs)
  | Some (File _) => Throw (NodeError (js "ENOTDIR"))
  | None => Throw (NodeError (js "ENOENT"))
  end.

(** The answer to one [https.get]. *)
Inductive http_response :=
  | Response (statusCode : Z) (body : jsstring)
  | RequestError (message : jsstring).

(** [fs.unlinkSync(p)]: a file is removed; a directory is refused, and so
    is a path that holds nothing. *)
Definition unlinkSync (p : path) (fs : FS) : result FS :=
  match lookup_node fs p with
  | Some (File _) => Ok (delete p fs)
  | Some Dir => Throw (NodeError (js "EISDIR"))
  | None => Throw (NodeError (js "ENOENT"))
  end.

(** [p] is [dir] or lies below it. *)
Definition within (dir p : path) : bool := bool_decide (dir `prefix_of` p).

(** [fs.rmSync(s, { recursive: true, force: true })] for a text [s] by
    which the kernel reaches the directory [p]; [final] is the last segment
    of [s].  [rmdir] is tried first.  It refuses a text of slashes (the
    root, EBUSY) and a text that ends in [.] (EINVAL), and then nothing is
    removed.  For a text that ends in [..] it answers ENOTEMPTY whatever
    the directory holds: the content is removed and the error comes again.
    Any other directory goes with everything below it. *)
Definition rmSync_recursive_force (p : path) (final : option jsstring) (fs : FS)
    : result unit * FS :=
  match final with
  | None => (Throw (NodeError (js "EBUSY")), fs)
  | Some seg =>
      if bool_decide (seg = dot) then (Throw (NodeError (js "EINVAL")), fs)
      else if bool_decide (seg = dotdot) then
        (Throw (NodeError (js "ENOTEMPTY")),
         filter (fun entry => negb (within p entry.1)
                              || bool_decide (entry.1 = p)) fs)
      else (Ok tt, filter (fun entry => negb (within p entry.1)) fs)
  end.

(** [fs.copyFileSync(src, dest)]: the content of the file [src] is written
    to [dest] as by [writeFileSync].  A directory as source fails; that the
    call has opened the destination by then, and removes a file it finds
    there, is left out. *)
Definition copyFileSync (src dest : path) (fs : FS) : result FS :=
  match lookup_node fs src with
  | Some (File content) => writeFileSync dest content fs
  | Some Dir => Throw (NodeError (js "EISDIR"))
  | None => Throw (NodeError (js "ENOENT"))
  end.

End Fs.
Export Fs.

(** ** The platform

    What the program takes from Node.js and its surroundings and does not
    define itself. *)

Record Platform := {
  cwd : path;                               (* process.cwd(), resolved *)
  homedir : path;                           (* os.homedir(), resolved *)
  env_TMDB_API_KEY : option jsstring;       (* process.env.TMDB_API_KEY *)
  now_iso : jsstring;                       (* new Date().toISOString() *)
  current_year : Z;                         (* new Date().getFullYear() *)
  JSON_parse : jsstring -> option JSValue;  (* None: SyntaxError *)
  JSON_stringify : JSValue -> jsstring;     (* JSON.stringify(v, null, 2) *)
  number_toString : Q -> jsstring;          (* template rendering of a number *)
  number_toLocaleString : Q -> jsstring;    (* n.toLocaleString() *)
  stat_size : node -> Z;                    (* fs.statSync(p).size *)
  https_get : jsstring -> http_response     (* the answer to a request *)
}.

(** ** Calls that change the file system

    A call takes the file system and gives its outcome together with the
    file system it leaves; an exception keeps what was written before it. *)

Module Call.

Definition M (A : Type) : Type := FS -> result A * FS.

Definition ret {A} (a : A) : M A := fun fs => (Ok a, fs).

Definition throw {A} (e : exn) : M A := fun fs => (Throw e, fs).

Definition bind {A B} (m : M A) (k : A -> M B) : M B :=
  fun fs =>
    match m fs with
    | (Ok a, fs') => k a fs'
    | (Throw e, fs') => (Throw e, fs')
    end.

(** A call that only reads. *)
Definition read {A} (f : FS -> result A) : M A := fun fs => (f fs, fs).

(** A call that replaces the file system when it succeeds. *)
Definition update (f : FS -> result FS) : M unit :=
  fun fs =>
    match f fs with
    | Ok fs' => (Ok tt, fs')
    | Throw e => (Throw e, fs)
    end.

(** [try { body } catch (error) { throw wrap(error) }]. *)
Definition try_rethrow {A} (wrap : exn -> exn) (body : M A) : M A :=
  fun fs =>
    match body fs with
    | (Ok a, fs') => (Ok a, fs')
    | (Throw e, fs') => (Throw (caught wrap e), fs')
    end.

(** A promise awaited through [Promise.allSettled]: it runs, and whether it
    was fulfilled or rejected is dropped. *)
Definition settled {A} (m : M A) : M unit :=
  fun fs =>
    match m fs with
    | (Throw (Uncaught message), fs') => (Throw (Uncaught message), fs')
    | (_, fs') => (Ok tt, fs')
    end.

End Call.
Export Call.

Notation "'let*' x ':=' m 'in' k" := (bind m (fun x => k))
  (at level 10, x name, m at level 100, k at level 200).
Notation "m ';;' k" := (bind m (fun _ => k))
  (at level 100, k at level 200, right associativity).

(** ** src/types *)

Module Types.

Record Genre := { genre_id : Z; genre_name : jsstring }.

Record ProductionCompany := {
  company_id : Z;
  company_name : jsstring;
  logoPath : option jsstring;
  originCountry : jsstring
}.

Record ProductionCountry := { iso31661 : jsstring; country_name : jsstring }.

Record SpokenLanguage := {
  englishName : jsstring;
  iso6391 : jsstring;
  language_name : jsstring
}.

(** [interface Film]; an optional field that is absent or [undefined] is
    [None]. *)
Record Film := {
  id : Z;
  title : jsstring;
  originalTitle : jsstring;
  overview : jsstring;
  releaseDate : jsstring;
  posterPath : option jsstring;
  backdropPath : option jsstring;
  genres : list Genre;
  runtime : Q;
  voteAverage : Q;
  voteCount : Q;
  popularity : Q;
  status : jsstring;
  tagline : jsstring;
  budget : Q;
  revenue : Q;
  productionCompanies : list ProductionCompany;
  productionCountries : list ProductionCountry;
  spokenLanguages : list SpokenLanguage;
  adult : bool;
  video : bool;
  originalLanguage : jsstring;
  imdbId : option jsstring;
  homepage : option jsstring
}.

(** The number a year is: an integer, or NaN, which is what [parseInt]
    makes of an option that is no numeral. *)
Inductive number :=
  | Integer (n : Z)
  | NaN.

(** [interface SearchParams]. *)
Record SearchParams := {
  query : jsstring;
  page : option Z;
  includeAdult : option bool;
  year : option number;
  primaryReleaseYear : option Z
}.

(** [interface ConfigFile]; the two parts are objects as they are at run
    time, whatever the persisted file put in them. *)
Record ConfigFile := {
  user : object;
  app : object;
  lastUpdated : JSValue
}.

Definition DEFAULT_CONFIG : object :=
  obj
  [ (js "tmdbApiKey", JStr []);
    (js "defaultOutputDir", JStr (js "./films"));
    (js "imageQuality", JStr (js "medium"));
    (js "language", JStr (js "en-US"));
    (js "includeAdult", JBool false);
    (js "downloadImages", JBool true);
    (js "maxImageSize", JStr (js "w500")) ].

Definition DEFAULT_APP_CONFIG : object :=
  obj
  [ (js "version", JStr (js "1.0.0"));
    (js "configDir", JStr (js "~/.reel-cli"));
    (js "outputDir", JStr (js "./films"));
    (js "tempDir", JStr (js "~/.reel-cli/temp"));
    (js "logLevel", JStr (js "info")) ].

(** [type ImageQuality] and [type ImageSize]. *)
Definition ImageQuality : list jsstring := [js "low"; js "medium"; js "high"].
Definition ImageSize : list jsstring :=
  [js "w92"; js "w154"; js "w185"; js "w342"; js "w500"; js "w780"; js "original"].

(** The object a film is at run time, as [JSON.stringify] sees it:
    optional fields are left out when they are undefined. *)
Definition optional (k : jsstring) (o : option jsstring)
    : list (jsstring * JSValue) :=
  match o with
  | Some s => [(k, JStr s)]
  | None => []
  end.

Definition js_of_genre (g : Genre) : JSValue :=
  JObj (obj [ (js "id", JNum (inject_Z (genre_id g)));
              (js "name", JStr (genre_name g)) ]).

Definition js_of_company (c : ProductionCompany) : JSValue :=
  JObj (obj ([ (js "id", JNum (inject_Z (company_id c)));
               (js "name", JStr (company_name c)) ]
             ++ optional (js "logoPath") (logoPath c)
             ++ [ (js "originCountry", JStr (originCountry c)) ])).

Definition js_of_country (c : ProductionCountry) : JSValue :=
  JObj (obj [ (js "iso31661", JStr (iso31661 c));
              (js "name", JStr (country_name c)) ]).

Definition js_of_language (l : SpokenLanguage) : JSValue :=
  JObj (obj [ (js "englishName", JStr (englishName l));
              (js "iso6391", JStr (iso6391 l));
              (js "name", JStr (language_name l)) ]).

Definition js_of_film (f : Film) : JSValue :=
  JObj (obj
       ([ (js "id", JNum (inject_Z (id f)));
          (js "title", JStr (title f));
          (js "originalTitle", JStr (originalTitle f));
          (js "overview", JStr (overview f));
          (js "releaseDate", JStr (releaseDate f)) ]
        ++ optional (js "posterPath") (posterPath f)
        ++ optional (js "backdropPath") (backdropPath f)
        ++ [ (js "genres", JArr (List.map js_of_genre (genres f)));
             (js "runtime", JNum (runtime f));
             (js "voteAverage", JNum (voteAverage f));
             (js "voteCount", JNum (voteCount f));
             (js "popularity", JNum (popularity f));
             (js "status", JStr (status f));
             (js "tagline", JStr (tagline f));
             (js "budget", JNum (budget f));
             (js "revenue", JNum (revenue f));
             (js "productionCompanies", JArr (List.map js_of_company (productionCompanies f)));
             (js "productionCountries", JArr (List.map js_of_country (productionCountries f)));
             (js "spokenLanguages", JArr (List.map js_of_language (spokenLanguages f)));
             (js "adult", JBool (adult f));
             (js "video", JBool (video f));
             (js "originalLanguage", JStr (originalLanguage f)) ]
        ++ optional (js "imdbId") (imdbId f)
        ++ optional (js "homepage") (homepage f))).

(** [if (s)] on an optional string. *)
Definition present (o : option jsstring) : option jsstring :=
  match o with
  | Some (c :: s) => Some (c :: s)
  | _ => None
  end.

End Types.

(** ** src/utils/file-helpers.ts *)

Module FileHelpers.

Definition ensureDirectoryExists (dirPath : path) : M unit :=
  try_rethrow
    (fun e => FileSystemError (js "Failed to create directory: " ++ message_of e)
                (path_to_string dirPath) (js "create"))
    (fun fs =>
       if negb (existsSync dirPath fs) then update (mkdirSync_recursive dirPath) fs
       else ret tt fs).

(** The chain of four [replace] calls and [substring(0, 255)]: invalid
    characters to hyphens, whitespace runs to one hyphen, hyphen runs to one
    hyphen, leading and trailing hyphens removed, then the cut. *)
Definition sanitizeFilename (filename : jsstring) : jsstring :=
  substring0 255
    (strip_hyphens
       (replace_runs is_hyphen hyphen
          (replace_runs is_whitespace hyphen
             (replace_each is_invalid_char hyphen filename)))).

(** [`${filmId}-${sanitizedTitle}`] *)
Definition createFilmDirectoryName (filmId : Z) (filmTitle : jsstring)
    : jsstring :=
  let sanitizedTitle := sanitizeFilename filmTitle in
  Number_toString filmId ++ hyphen :: sanitizedTitle.

(** [JSON.stringify(undefined)] is [undefined], which [fs.writeFileSync]
    refuses as data with a TypeError, after the directory was made. *)
Definition writeJsonFile (pf : Platform) (filePath : path) (data : JSValue)
    : M unit :=
  try_rethrow
    (fun e => FileSystemError (js "Failed to write JSON file: " ++ message_of e)
                (path_to_string filePath) (js "write"))
    (ensureDirectoryExists (dirname filePath) ;;
     match data with
     | JUndefined => read (fun _ => Throw (NodeError (js "TypeError")))
     | _ => update (writeFileSync filePath (JSON_stringify pf data))
     end).

Definition writeTextFile (filePath : path) (content : jsstring) : M unit :=
  try_rethrow
    (fun e => FileSystemError (js "Failed to write text file: " ++ message_of e)
                (path_to_string filePath) (js "write"))
    (ensureDirectoryExists (dirname filePath) ;;
     update (writeFileSync filePath content)).

Definition fileExists (filePath : path) (fs : FS) : bool :=
  existsSync filePath fs.

Definition directoryExists (dirPath : path) (fs : FS) : bool :=
  existsSync dirPath fs && isDirectory dirPath fs.

Definition getFileSize (pf : Platform) (filePath : path) (fs : FS) : result Z :=
  rethrow
    (fun e => FileSystemError (js "Failed to get file size: " ++ message_of e)
                (path_to_string filePath) (js "stat"))
    (match lookup_node fs filePath with
     | Some n => Ok (stat_size pf n)
     | None => Throw (NodeError (js "ENOENT"))
     end).

Definition getDirectoryContents (dirPath : path) (fs : FS)
    : result (list jsstring) :=
  rethrow
    (fun e => FileSystemError (js "Failed to read directory: " ++ message_of e)
                (path_to_string dirPath) (js "readdir"))
    (if negb (directoryExists dirPath fs) then Ok []
     else readdirSync dirPath fs).

(** The probe file is written and removed again; whatever fails inside
    is answered with [false], and what was done before stays done. *)
Definition isWritable (dirPath : path) (fs : FS) : bool * FS :=
  let testFile := child dirPath (js ".write-test") in
  match writeFileSync testFile (js "test") fs with
  | Ok written =>
      match unlinkSync testFile written with
      | Ok removed => (true, removed)
      | Throw _ => (false, written)
      end
  | Throw _ => (false, fs)
  end.

Definition removeFile (filePath : path) : M unit :=
  try_rethrow
    (fun e => FileSystemError (js "Failed to remove file: " ++ message_of e)
                (path_to_string filePath) (js "remove"))
    (fun fs =>
       if fileExists filePath fs then update (unlinkSync filePath) fs
       else ret tt fs).

(** [dirPath] is the text as the caller gives it, handed to
    [directoryExists] and to [fs.rmSync] as it is. *)
Definition removeDirectory (pf : Platform) (dirPath : jsstring) : M unit :=
  try_rethrow
    (fun e => FileSystemError (js "Failed to remove directory: " ++ message_of e)
                dirPath (js "remove"))
    (fun fs =>
       match reach (cwd pf) dirPath fs with
       | Some p =>
           if directoryExists p fs
           then rmSync_recursive_force p (final_segment dirPath) fs
           else ret tt fs
       | None => ret tt fs
       end).

(** The error reports the destination, whichever side failed. *)
Definition copyFile (sourcePath destPath : path) : M unit :=
  try_rethrow
    (fun e => FileSystemError (js "Failed to copy file: " ++ message_of e)
                (path_to_string destPath) (js "copy"))
    (ensureDirectoryExists (dirname destPath) ;;
     update (copyFileSync sourcePath destPath)).

End FileHelpers.

(** ** src/lib/config-manager.ts *)

Module ConfigManager.
Import Types.

Section WithPlatform.
Context (pf : Platform).

Definition configDir : path := child (homedir pf) (js ".reel-cli").
Definition configPath : path := child configDir (js "config.json").
Definition credentialsPath : path := child configDir (js "credentials.json").

Definition createDefaultConfig : ConfigFile :=
  {| user := spread ∅ (JObj DEFAULT_CONFIG);
     app := spread ∅ (JObj DEFAULT_APP_CONFIG);
     lastUpdated := JStr (now_iso pf) |}.

(** [if (!list.includes(o[k])) o[k] = dflt]. *)
Definition enforce (allowed : list jsstring) (k dflt : jsstring) (o : object)
    : object :=
  if negb (includes allowed (obj_get o k)) then obj_set o k (JStr dflt) else o.

Definition validateAndMergeConfig (config : JSValue) : result ConfigFile :=
  let? config_user := get_prop config (js "user") in
  let? config_app := get_prop config (js "app") in
  let? config_lastUpdated := get_prop config (js "lastUpdated") in
  let user0 := spread (spread ∅ (JObj DEFAULT_CONFIG)) config_user in
  let app0 := spread (spread ∅ (JObj DEFAULT_APP_CONFIG)) config_app in
  let user1 :=
    if negb (truthy (obj_get user0 (js "tmdbApiKey")))
    then obj_set user0 (js "tmdbApiKey") (JStr [])
    else user0 in
  let user2 := enforce ImageQuality (js "imageQuality") (js "medium") user1 in
  let user3 := enforce ImageSize (js "maxImageSize") (js "w500") user2 in
  Ok {| user := user3;
        app := app0;
        lastUpdated := or_else config_lastUpdated (JStr (now_iso pf)) |}.

Definition parse (text : jsstring) : result JSValue :=
  match JSON_parse pf text with
  | Some v => Ok v
  | None => Throw (NodeError (js "SyntaxError"))
  end.

Definition loadConfig (fs : FS) : result ConfigFile :=
  rethrow
    (fun e =>
       match e with
       | ConfigurationError _ => e
       | _ => ConfigurationError (js "Failed to load configuration: " ++ message_of e)
       end)
    (if negb (existsSync configPath fs) then Ok createDefaultConfig
     else
       let? configData := readFileSync configPath fs in
       let? config := parse configData in
       validateAndMergeConfig config).

(** Every exception inside is caught and answered with [null]. *)
Definition loadCredentials (fs : FS) : JSValue :=
  match
    (if negb (existsSync credentialsPath fs) then Ok JNull
     else
       let? credentialsData := readFileSync credentialsPath fs in
       let? credentials := parse credentialsData in
       let? apiKey := get_prop credentials (js "apiKey") in
       Ok (or_else apiKey JNull))
  with
  | Ok v => v
  | Throw _ => JNull
  end.

(** [process.env.TMDB_API_KEY]. *)
Definition env_value : JSValue :=
  match env_TMDB_API_KEY pf with
  | Some s => JStr s
  | None => JUndefined
  end.

Definition getApiKey (fs : FS) : JSValue :=
  let credentialsKey := loadCredentials fs in
  if truthy credentialsKey then credentialsKey
  else or_else env_value JNull.

(** [!!apiKey && apiKey.trim().length > 0]: a key that is truthy and no
    string has no [trim] to call. *)
Definition isConfigured (fs : FS) : result bool :=
  let apiKey := getApiKey fs in
  if truthy apiKey then
    match apiKey with
    | JStr s => Ok (0 <? length (trim s))%nat
    | _ => Throw (NodeError (js "TypeError"))
    end
  else Ok false.

(** The directory is created when nothing is at its path. *)
Definition getConfigDirectory : M path :=
  (fun fs =>
     if negb (existsSync configDir fs) then
       try_rethrow
         (fun e => ConfigurationError
                     (js "Failed to create config directory: " ++ message_of e))
         (update (mkdirSync_recursive configDir)) fs
     else ret tt fs) ;;
  ret configDir.

(** The configuration object as [JSON.stringify] sees it. *)
Definition js_of_config (config : ConfigFile) : JSValue :=
  JObj (obj [ (js "user", JObj (user config));
              (js "app", JObj (app config));
              (js "lastUpdated", lastUpdated config) ]).

(** [if (!fs.existsSync(configDir)) fs.mkdirSync(configDir, ...)]. *)
Definition ensureConfigDir : M unit :=
  fun fs =>
    if negb (existsSync configDir fs) then update (mkdirSync_recursive configDir) fs
    else ret tt fs.

(** The time stamp is set on the object before it is written. *)
Definition saveConfig (config : ConfigFile) : M unit :=
  try_rethrow
    (fun e => ConfigurationError
                (js "Failed to save configuration: " ++ message_of e))
    (ensureConfigDir ;;
     let stamped :=
       {| user := user config;
          app := app config;
          lastUpdated := JStr (now_iso pf) |} in
     update (writeFileSync configPath (JSON_stringify pf (js_of_config stamped)))).

Definition saveCredentials (apiKey : jsstring) : M unit :=
  try_rethrow
    (fun e => ConfigurationError
                (js "Failed to save credentials: " ++ message_of e))
    (ensureConfigDir ;;
     let credentials :=
       JObj (obj [ (js "apiKey", JStr apiKey);
                   (js "encrypted", JBool false);
                   (js "lastUsed", JStr (now_iso pf)) ]) in
     update (writeFileSync credentialsPath (JSON_stringify pf credentials))).

(** [config.user = { ...config.user, ...updates }], then [saveConfig]. *)
Definition updateUserConfig (updates : object) : M unit :=
  let* config := read loadConfig in
  saveConfig
    {| user := spread (spread ∅ (JObj (user config))) (JObj updates);
       app := app config;
       lastUpdated := lastUpdated config |}.

End WithPlatform.
End ConfigManager.

(** ** src/lib/film-service.ts *)

Module FilmService.
Import Types.

(** [params.year && (...)]: the range is tested for a year that is truthy,
    which 0 and NaN are not. *)
Definition validateSearchParams (pf : Platform) (params : SearchParams)
    : result unit :=
  if bool_decide (query params = [])
     || (length (trim (query params)) =? 0)%nat
  then Throw (APIError (js "Search query is required") 400 (js "validation"))
  else if (length (trim (query params)) <? 2)%nat
  then Throw (APIError (js "Search query must be at least 2 characters") 400
                (js "validation"))
  else
    match year params with
    | Some (Integer y) =>
        if negb (y =? 0)%Z && ((y <? 1888)%Z || (current_year pf + 1 <? y)%Z)
        then Throw (APIError (js "Invalid year specified") 400 (js "validation"))
        else Ok tt
    | Some NaN => Ok tt
    | None => Ok tt
    end.

(** [{ poster, backdrop }], each [undefined] when the film has no such
    path.  [baseUrl] is the text of [config.baseUrl], which
    [getConfiguration] always provides; a configuration that does not load
    gives the empty object. *)
Definition getFilmImages (pf : Platform) (baseUrl : jsstring) (film : Film)
    (fs : FS) : option jsstring * option jsstring :=
  match ConfigManager.loadConfig pf fs with
  | Ok userConfig =>
      let quality := obj_get (user userConfig) (js "imageQuality") in
      let sizes :=
        if is_str (js "low") quality then (js "w185", js "w300")
        else if is_str (js "medium") quality then (js "w500", js "w780")
        else if is_str (js "high") quality then (js "w780", js "w1280")
        else (js "w500", js "w780") in
      (match present (posterPath film) with
       | Some p => Some (baseUrl ++ sizes.1 ++ p)
       | None => None
       end,
       match present (backdropPath film) with
       | Some p => Some (baseUrl ++ sizes.2 ++ p)
       | None => None
       end)
  | Throw _ => (None, None)
  end.

End FilmService.

(** ** src/lib/storage-service.ts *)

Module StorageService.
Import Types.

(** [{ totalFilms, totalSize, averageSize }]. *)
Record StorageStats := {
  totalFilms : Z;
  totalSize : Z;
  averageSize : Q
}.

Section WithPlatform.
Context (pf : Platform).

(** [outputDir?: string] as a value. *)
Definition arg (outputDir : option jsstring) : JSValue :=
  match outputDir with
  | Some s => JStr s
  | None => JUndefined
  end.

(** [outputDir || config.user.defaultOutputDir]. *)
Definition baseOutputDir (outputDir : option jsstring) (config : ConfigFile)
    : JSValue :=
  or_else (arg outputDir) (obj_get (user config) (js "defaultOutputDir")).

(** [outputDir || 'unknown']. *)
Definition reported (outputDir : option jsstring) : jsstring :=
  match outputDir with
  | Some (c :: s) => c :: s
  | _ => js "unknown"
  end.

(** The directory the kernel reaches for a value handed to [fs] as it is:
    none for a value that is not a string, and none where the text leads
    nowhere. *)
Definition fs_path (v : JSValue) (fs : FS) : option path :=
  match v with
  | JStr s => reach (cwd pf) s fs
  | _ => None
  end.

(** The directory a value names as first argument of [path.join] or
    [path.resolve]: a TypeError for a value that is not a string. *)
Definition path_arg (v : JSValue) : result path :=
  match v with
  | JStr s => Ok (path_resolve (cwd pf) s)
  | _ => Throw (NodeError (js "TypeError"))
  end.

Definition buildImageUrl (imagePath size : jsstring) (fs : FS) : result jsstring :=
  let? config := ConfigManager.loadConfig pf fs in
  let baseUrl := js "https://image.tmdb.org/t/p/" in
  let quality := obj_get (user config) (js "imageQuality") in
  let w500 := bool_decide (size = js "w500") in
  let finalSize :=
    if is_str (js "low") quality then (if w500 then js "w185" else js "w300")
    else if is_str (js "medium") quality then (if w500 then js "w500" else js "w780")
    else if is_str (js "high") quality then (if w500 then js "w780" else js "w1280")
    else size in
  Ok (baseUrl ++ finalSize ++ imagePath).

(** The promise of one download.  [fs.createWriteStream] opens the file,
    which creates or empties it.  A status other than 200 and a failed
    request reject the promise; a response with status 200 is taken to
    arrive whole, and fulfils it.  When the file cannot be opened the
    stream's error event comes before the response, when nothing listens to
    it yet. *)
Definition downloadImage (url : jsstring) (filePath : path)
    (imageType : jsstring) : M unit :=
  fun fs =>
    match writeFileSync filePath [] fs with
    | Throw e => (Throw (Uncaught (message_of e)), fs)
    | Ok opened =>
        match https_get pf url with
        | Response statusCode body =>
            if (statusCode =? 200)%Z then (Ok tt, <[filePath := File body]> opened)
            else (Throw (NodeError (js "Failed to download " ++ imageType
                                    ++ js ": HTTP " ++ Number_toString statusCode)),
                  opened)
        | RequestError m => (Throw (NodeError m), opened)
        end
    end.

Definition downloadOne (imagePath : option jsstring) (size : jsstring)
    (filmDir : path) (fileName imageType : jsstring) : M unit :=
  match present imagePath with
  | Some p =>
      let* url := read (buildImageUrl p size) in
      match url with
      | [] => ret tt
      | _ => settled (downloadImage url (child filmDir fileName) imageType)
      end
  | None => ret tt
  end.

Definition downloadFilmImages (film : Film) (filmDir : path) : M unit :=
  downloadOne (posterPath film) (js "w500") filmDir (js "poster.jpg") (js "poster") ;;
  downloadOne (backdropPath film) (js "w780") filmDir (js "backdrop.jpg") (js "backdrop").

Definition newline : jsstring := [10].
Definition quote : jsstring := [34].

Definition bullets {A} (f : A -> jsstring) (l : list A) : jsstring :=
  join_with newline (List.map (fun x => js "- " ++ f x) l).

(** [lines.splice(i, 0, a, b)]. *)
Definition splice2 (i : nat) (a b : jsstring) (lines : list jsstring)
    : list jsstring :=
  take i lines ++ a :: b :: drop i lines.

Definition generateMetadataText (film : Film) : jsstring :=
  let n := number_toString pf in
  let lines :=
    [ js "Film: " ++ title film;
      js "Original Title: " ++ originalTitle film;
      js "Release Date: " ++ releaseDate film;
      js "Runtime: " ++ n (runtime film) ++ js " minutes";
      js "Rating: " ++ n (voteAverage film) ++ js "/10 (" ++ n (voteCount film)
        ++ js " votes)";
      js "Popularity: " ++ n (popularity film);
      js "Status: " ++ status film;
      [];
      js "Overview:";
      overview film;
      [];
      js "Genres:";
      bullets genre_name (genres film);
      [];
      js "Production Companies:";
      bullets (fun c => company_name c ++ js " (" ++ originCountry c ++ js ")")
        (productionCompanies film);
      [];
      js "Production Countries:";
      bullets country_name (productionCountries film);
      [];
      js "Spoken Languages:";
      bullets (fun l => language_name l ++ js " (" ++ englishName l ++ js ")")
        (spokenLanguages film);
      [] ] in
  let lines :=
    match tagline film with
    | [] => lines
    | t => splice2 8 (js "Tagline: " ++ quote ++ t ++ quote) [] lines
    end in
  let lines :=
    if negb (Qle_bool (budget film) 0)
    then lines ++ [js "Budget: $" ++ number_toLocaleString pf (budget film)]
    else lines in
  let lines :=
    if negb (Qle_bool (revenue film) 0)
    then lines ++ [js "Revenue: $" ++ number_toLocaleString pf (revenue film)]
    else lines in
  let lines :=
    match present (imdbId film) with
    | Some i => lines ++ [js "IMDB: https://www.imdb.com/title/" ++ i]
    | None => lines
    end in
  let lines :=
    match present (homepage film) with
    | Some h => lines ++ [js "Homepage: " ++ h]
    | None => lines
    end in
  let lines := lines ++ [ []; js "Data retrieved on: " ++ now_iso pf ] in
  join_with newline lines.

(** [path.resolve(baseOutputDir, filmDirName)]. *)
Definition resolveFilmDir (base : JSValue) (filmDirName : jsstring) : result path :=
  match base with
  | JStr s => Ok (path_resolve2 (cwd pf) s filmDirName)
  | _ => Throw (NodeError (js "TypeError"))
  end.

Definition saveFilm (film : Film) (outputDir : option jsstring) : M path :=
  try_rethrow
    (fun e => FileSystemError (js "Failed to save film data: " ++ message_of e)
                (reported outputDir) (js "save"))
    (let* config := read (ConfigManager.loadConfig pf) in
     let base := baseOutputDir outputDir config in
     let filmDirName := FileHelpers.createFilmDirectoryName (id film) (title film) in
     let* filmDir := read (fun _ => resolveFilmDir base filmDirName) in
     FileHelpers.ensureDirectoryExists filmDir ;;
     FileHelpers.writeJsonFile pf (child filmDir (js "data.json")) (js_of_film film) ;;
     FileHelpers.writeTextFile (child filmDir (js "metadata.txt"))
       (generateMetadataText film) ;;
     (if truthy (obj_get (user config) (js "downloadImages"))
      then downloadFilmImages film filmDir
      else ret tt) ;;
     ret filmDir).

(** The test of the filter in [listSavedFilms]. *)
Definition isSavedFilm (base : path) (fs : FS) (item : jsstring) : bool :=
  let itemPath := child base item in
  FileHelpers.directoryExists itemPath fs
  && FileHelpers.fileExists (child itemPath (js "data.json")) fs.

(** [baseOutputDir] goes to [directoryExists] and [getDirectoryContents] as
    the text it is.  [path.join(baseOutputDir, item)] is that text with the
    item, normalised: it leads through directories only that the text
    itself leads through, so where the text reaches [base] the kernel
    reaches [child base item] by it. *)
Definition listSavedFilms (outputDir : option jsstring) (fs : FS)
    : result (list jsstring) :=
  rethrow
    (fun e => FileSystemError (js "Failed to list saved films: " ++ message_of e)
                (reported outputDir) (js "list"))
    (let? config := ConfigManager.loadConfig pf fs in
     match fs_path (baseOutputDir outputDir config) fs with
     | None => Ok []
     | Some base =>
         if negb (FileHelpers.directoryExists base fs) then Ok []
         else
           let? contents := FileHelpers.getDirectoryContents base fs in
           Ok (List.filter (isSavedFilm base fs) contents)
     end).

(** The answer is the parsed document, or [null] when there is none. *)
Definition getSavedFilm (filmDirName : jsstring) (outputDir : option jsstring)
    (fs : FS) : result JSValue :=
  rethrow
    (fun e => FileSystemError (js "Failed to get saved film: " ++ message_of e)
                filmDirName (js "read"))
    (let? config := ConfigManager.loadConfig pf fs in
     let? base := path_arg (baseOutputDir outputDir config) in
     let filmDir := path_join base filmDirName in
     let dataPath := child filmDir (js "data.json") in
     if negb (FileHelpers.fileExists dataPath fs) then Ok JNull
     else
       let? data := readFileSync dataPath fs in
       ConfigManager.parse pf data).

(** [path.join(baseOutputDir, filmDirName)], as text: a TypeError for a
    base that is not a string. *)
Definition join_arg (v : JSValue) (filmDirName : jsstring) : result jsstring :=
  match v with
  | JStr s => Ok (path_join_text s filmDirName)
  | _ => Throw (NodeError (js "TypeError"))
  end.

(** The joined text goes to [directoryExists] and to [removeDirectory] as
    it is. *)
Definition deleteFilm (filmDirName : jsstring) (outputDir : option jsstring)
    : M unit :=
  try_rethrow
    (fun e => FileSystemError (js "Failed to delete film: " ++ message_of e)
                filmDirName (js "delete"))
    (let* config := read (ConfigManager.loadConfig pf) in
     let* filmDir :=
       read (fun _ => join_arg (baseOutputDir outputDir config) filmDirName) in
     fun fs =>
       match reach (cwd pf) filmDir fs with
       | Some p =>
           if FileHelpers.directoryExists p fs
           then FileHelpers.removeDirectory pf filmDir fs
           else ret tt fs
       | None => ret tt fs
       end).

(** The inner loop of [getStorageStats]: the sizes of the entries of one
    directory. *)
Fixpoint sumFiles (fullPath : path) (fs : FS) (contents : list jsstring)
    (total : Z) : result Z :=
  match contents with
  | [] => Ok total
  | file :: rest =>
      let filePath := child fullPath file in
      if FileHelpers.fileExists filePath fs then
        let? size := FileHelpers.getFileSize pf filePath fs in
        sumFiles fullPath fs rest (total + size)%Z
      else sumFiles fullPath fs rest total
  end.

(** The outer loop. *)
Fixpoint sumDirs (base : path) (fs : FS) (filmDirs : list jsstring)
    (total : Z) : result Z :=
  match filmDirs with
  | [] => Ok total
  | filmDir :: rest =>
      let fullPath := child base filmDir in
      let? contents := FileHelpers.getDirectoryContents fullPath fs in
      let? total' := sumFiles fullPath fs contents total in
      sumDirs base fs rest total'
  end.

Definition noFilms : StorageStats :=
  {| totalFilms := 0; totalSize := 0; averageSize := 0%Q |}.

Definition getStorageStats (outputDir : option jsstring) (fs : FS)
    : result StorageStats :=
  rethrow
    (fun e => FileSystemError (js "Failed to get storage stats: " ++ message_of e)
                (reported outputDir) (js "stats"))
    (let? config := ConfigManager.loadConfig pf fs in
     match fs_path (baseOutputDir outputDir config) fs with
     | None => Ok noFilms
     | Some base =>
         if negb (FileHelpers.directoryExists base fs) then Ok noFilms
         else
           let? filmDirs := listSavedFilms outputDir fs in
           let? total := sumDirs base fs filmDirs 0 in
           let count := Z.of_nat (length filmDirs) in
           Ok {| totalFilms := count;
                 totalSize := total;
                 averageSize :=
                   if (0 <? count)%Z then double_div total count
                   else 0%Q |}
     end).

End WithPlatform.
End StorageService.

(** ** src/commands/list.ts: helpers of the list, export and configure
    commands *)

Module ListCommand.

(** [parts.slice(0, -1).join('-')] when the name has a hyphen. *)
Definition extractFilmName (filmDir : jsstring) : jsstring :=
  let parts := split_on hyphen filmDir in
  if (1 <? length parts)%nat then join_with [hyphen] (removelast parts)
  else filmDir.

End ListCommand.

Module ExportCommand.

(** [parts.slice(1).join('-')] when the name has a hyphen. *)
Definition extractFilmName (filmDir : jsstring) : jsstring :=
  let parts := split_on hyphen filmDir in
  if (1 <? length parts)%nat then join_with [hyphen] (tail parts)
  else filmDir.

(** The chain of [FileHelpers.sanitizeFilename], cut at 100. *)
Definition sanitizeFileName (fileName : jsstring) : jsstring :=
  substring0 100
    (strip_hyphens
       (replace_runs is_hyphen hyphen
          (replace_runs is_whitespace hyphen
             (replace_each is_invalid_char hyphen fileName)))).

End ExportCommand.

Module ConfigureCommand.

Definition validateApiKey (apiKey : jsstring) : result unit :=
  if bool_decide (apiKey = []) || (length (trim apiKey) =? 0)%nat
  then Throw (ConfigurationError (js "API key is required"))
  else if (length apiKey <? 10)%nat
  then Throw (ConfigurationError (js "API key seems too short"))
  else Ok tt.

Definition validateOutputDir (outputDir : jsstring) : result unit :=
  if bool_decide (outputDir = []) || (length (trim outputDir) =? 0)%nat
  then Throw (ConfigurationError (js "Output directory is required"))
  else Ok tt.

Definition validateImageQuality (imageQuality : jsstring) : result unit :=
  let validQualities := [js "low"; js "medium"; js "high"] in
  if negb (includes validQualities (JStr imageQuality))
  then Throw (ConfigurationError
                (js "Invalid image quality. Must be one of: "
                 ++ join_with (js ", ") validQualities))
  else Ok tt.

(** The statements of [execute] from the three validations to the two
    saves; [new ConfigManager()] runs [getConfigDirectory].  Before them
    [execute] asks for the values the options left out; after them it
    reports what was saved and tries the connection. *)
Definition execute_save (pf : Platform)
    (apiKey outputDir imageQuality : jsstring) : M unit :=
  read (fun _ => validateApiKey apiKey) ;;
  read (fun _ => validateOutputDir outputDir) ;;
  read (fun _ => validateImageQuality imageQuality) ;;
  ConfigManager.getConfigDirectory pf ;;
  ConfigManager.saveCredentials pf apiKey ;;
  ConfigManager.updateUserConfig pf
    (obj [ (js "tmdbApiKey", JStr apiKey);
           (js "defaultOutputDir", JStr outputDir);
           (js "imageQuality", JStr imageQuality) ]).

End ConfigureCommand.

(** ** src/lib/tmdb-client.ts *)

Module TMDBClient.

(** What awaiting a promise of the client library gives: the value it was
    fulfilled with, or the message of the error it was rejected with. *)
Inductive answer :=
  | Fulfilled (value : JSValue)
  | Rejected (message : jsstring).

Definition awaited (a : answer) : result JSValue :=
  match a with
  | Fulfilled value => Ok value
  | Rejected message => Throw (NodeError message)
  end.

Fixpoint map_items (f : JSValue -> result JSValue) (items : list JSValue)
    : result (list JSValue) :=
  match items with
  | [] => Ok []
  | item :: rest =>
      let? mapped := f item in
      let? others := map_items f rest in
      Ok (mapped :: others)
  end.

(** [v.map(f)]: an array has [map], and calling it on any other value is a
    TypeError. *)
Definition array_map (f : JSValue -> result JSValue) (v : JSValue)
    : result JSValue :=
  match v with
  | JArr items =>
      let? mapped := map_items f items in
      Ok (JArr mapped)
  | _ => Throw (NodeError (js "TypeError"))
  end.

(** The four callbacks of [getMovieDetails]. *)
Definition genre_of (genre : JSValue) : result JSValue :=
  let? id := get_prop genre (js "id") in
  let? name := get_prop genre (js "name") in
  Ok (JObj (obj [ (js "id", id); (js "name", name) ])).

Definition company_of (company : JSValue) : result JSValue :=
  let? id := get_prop company (js "id") in
  let? name := get_prop company (js "name") in
  let? logo_path := get_prop company (js "logo_path") in
  let? origin_country := get_prop company (js "origin_country") in
  Ok (JObj (obj [ (js "id", id);
                  (js "name", name);
                  (js "logoPath", logo_path);
                  (js "originCountry", origin_country) ])).

Definition country_of (country : JSValue) : result JSValue :=
  let? iso_3166_1 := get_prop country (js "iso_3166_1") in
  let? name := get_prop country (js "name") in
  Ok (JObj (obj [ (js "iso31661", iso_3166_1); (js "name", name) ])).

Definition language_of (lang : JSValue) : result JSValue :=
  let? english_name := get_prop lang (js "english_name") in
  let? iso_639_1 := get_prop lang (js "iso_639_1") in
  let? name := get_prop lang (js "name") in
  Ok (JObj (obj [ (js "englishName", english_name);
                  (js "iso6391", iso_639_1);
                  (js "name", name) ])).

(** [`movie/${params.id}`]. *)
Definition endpoint (id : Z) : jsstring := js "movie/" ++ Number_toString id.

(** [movieInfo] is what the request for the film with [params.id = id] was
    answered with.  The properties of the result are computed in the order
    of the object literal. *)
Definition getMovieDetails (movieInfo : answer) (id : Z) : result JSValue :=
  rethrow
    (fun e =>
       match e with
       | APIError _ _ _ => e
       | _ => APIError (js "Failed to get movie details: " ++ message_of e) 500
                (endpoint id)
       end)
    (let? movie := awaited movieInfo in
     let? movie_id := get_prop movie (js "id") in
     if negb (truthy movie_id)
     then Throw (APIError (js "Movie not found") 404 (endpoint id))
     else
       let? title := get_prop movie (js "title") in
       let? original_title := get_prop movie (js "original_title") in
       let? overview := get_prop movie (js "overview") in
       let? release_date := get_prop movie (js "release_date") in
       let? poster_path := get_prop movie (js "poster_path") in
       let? backdrop_path := get_prop movie (js "backdrop_path") in
       let? genres := get_prop movie (js "genres") in
       let? genres := array_map genre_of (or_else genres (JArr [])) in
       let? runtime := get_prop movie (js "runtime") in
       let? vote_average := get_prop movie (js "vote_average") in
       let? vote_count := get_prop movie (js "vote_count") in
       let? popularity := get_prop movie (js "popularity") in
       let? status := get_prop movie (js "status") in
       let? tagline := get_prop movie (js "tagline") in
       let? budget := get_prop movie (js "budget") in
       let? revenue := get_prop movie (js "revenue") in
       let? companies := get_prop movie (js "production_companies") in
       let? companies := array_map company_of (or_else companies (JArr [])) in
       let? countries := get_prop movie (js "production_countries") in
       let? countries := array_map country_of (or_else countries (JArr [])) in
       let? languages := get_prop movie (js "spoken_languages") in
       let? languages := array_map language_of (or_else languages (JArr [])) in
       let? adult := get_prop movie (js "adult") in
       let? video := get_prop movie (js "video") in
       let? original_language := get_prop movie (js "original_language") in
       let? imdb_id := get_prop movie (js "imdb_id") in
       let? homepage := get_prop movie (js "homepage") in
       Ok (JObj (obj
         [ (js "id", movie_id);
           (js "title", or_else title (JStr (js "Unknown Title")));
           (js "originalTitle",
            or_else (or_else original_title title) (JStr (js "Unknown Title")));
           (js "overview", or_else overview (JStr (js "No overview available")));
           (js "releaseDate", or_else release_date (JStr (js "Unknown Date")));
           (js "posterPath", or_else poster_path JUndefined);
           (js "backdropPath", or_else backdrop_path JUndefined);
           (js "genres", genres);
           (js "runtime", or_else runtime (JNum 0));
           (js "voteAverage", or_else vote_average (JNum 0));
           (js "voteCount", or_else vote_count (JNum 0));
           (js "popularity", or_else popularity (JNum 0));
           (js "status", or_else status (JStr (js "Unknown")));
           (js "tagline", or_else tagline (JStr []));
           (js "budget", or_else budget (JNum 0));
           (js "revenue", or_else revenue (JNum 0));
           (js "productionCompanies", companies);
           (js "productionCountries", countries);
           (js "spokenLanguages", languages);
           (js "adult", or_else adult (JBool false));
           (js "video", or_else video (JBool false));
           (js "originalLanguage", or_else original_language (JStr (js "en")));
           (js "imdbId", imdb_id);
           (js "homepage", homepage) ]))).

End TMDBClient.

(** ** Predicates of the statements *)

Module Predicates.
Import FileHelpers.

(** No two neighbours are both of class [p]. *)
Fixpoint no_double (p : code_unit -> bool) (s : jsstring) : Prop :=
  match s with
  | [] => True
  | c :: rest =>
      match rest with
      | [] => True
      | d :: _ => (p c && p d = false) /\ no_double p rest
      end
  end.

Definition starts_with (p : code_unit -> bool) (s : jsstring) : bool :=
  match s with
  | c :: _ => p c
  | [] => false
  end.

Definition ends_with (p : code_unit -> bool) (s : jsstring) : bool :=
  starts_with p (rev s).


(** A decimal digit. *)
Definition is_digit (c : code_unit) : Prop := 48 <= c <= 57.

(** A code unit that may appear in the name of a film directory. *)
Definition safe_char (c : code_unit) : Prop :=
  is_invalid_char c = false /\ is_whitespace c = false.

(** The string before the trimming and the cut. *)
Definition collapsed (s : jsstring) : jsstring :=
  replace_runs is_hyphen hyphen
    (replace_runs is_whitespace hyphen
       (replace_each is_invalid_char hyphen s)).

(** The input on which a second pass differs: 254 letters, a hyphen and
    one more letter.  The cut keeps the hyphen as last code unit, and the
    second pass trims it. *)
Definition long_name : jsstring := repeat 97 254 ++ [hyphen; 98].

(** What creating directories does to a file system: a path keeps what it
    held, or held nothing and now is a directory. *)
Definition grows (fs fs' : FS) : Prop :=
  forall p : path,
    fs' !! p = fs !! p \/ (fs !! p = None /\ fs' !! p = Some Dir).

(** What a save does to a file system: outside the files [written] a path
    keeps what it held, or held nothing and now is a directory. *)
Definition writes_within (written : list path) (fs fs' : FS) : Prop :=
  forall p : path,
    p ∉ written ->
    fs' !! p = fs !! p \/ (fs !! p = None /\ fs' !! p = Some Dir).

(** Two file systems in which a download into [filmDir] goes the same way:
    they hold the same configuration file, [filmDir] is a directory in both
    or in neither, and the same names below it are directories. *)
Definition alike (pf : Platform) (filmDir : path) (fs fs' : FS) : Prop :=
  fs !! ConfigManager.configPath pf = fs' !! ConfigManager.configPath pf
  /\ is_dir fs filmDir = is_dir fs' filmDir
  /\ forall x : jsstring,
       fs !! child filmDir x = Some Dir <-> fs' !! child filmDir x = Some Dir.

(** The same platform with other answers from the network. *)
Definition with_network (pf : Platform) (net : jsstring -> http_response)
    : Platform :=
  {| cwd := cwd pf;
     homedir := homedir pf;
     env_TMDB_API_KEY := env_TMDB_API_KEY pf;
     now_iso := now_iso pf;
     current_year := current_year pf;
     JSON_parse := JSON_parse pf;
     JSON_stringify := JSON_stringify pf;
     number_toString := number_toString pf;
     number_toLocaleString := number_toLocaleString pf;
     stat_size := stat_size pf;
     https_get := net |}.

(** A code unit that leaves no trace in a sanitized name. *)
Definition junk (c : code_unit) : bool :=
  is_invalid_char c || is_whitespace c || is_hyphen c.

(** A name the sanitizer has nothing to do on. *)
Definition clean_name (s : jsstring) : Prop :=
  Forall safe_char s
  /\ no_double is_hyphen s
  /\ starts_with is_hyphen s = false
  /\ ends_with is_hyphen s = false
  /\ (length s <= 255)%nat.

(** Nothing is left at [dir] or below it. *)
Definition cleared (dir : path) (fs : FS) : Prop :=
  forall p : path, within dir p = true -> fs !! p = None.

(** Outside [dir] every path holds what it held. *)
Definition same_outside (dir : path) (fs fs' : FS) : Prop :=
  forall p : path, within dir p = false -> fs' !! p = fs !! p.

(** The file system is a tree: what holds an entry is a directory. *)
Definition tree (fs : FS) : Prop :=
  forall (p : path) (x : jsstring),
    is_Some (fs !! child p x) -> is_dir fs p = true.

(** A name that is one segment of a path below a directory: not empty, no
    slash in it, and neither [.] nor [..]. *)
Definition plain_name (name : jsstring) : Prop :=
  name <> [] /\ name <> dot /\ name <> dotdot
  /\ Forall (fun c => c <> slash) name.


(** A configuration as [loadConfig] returns it: every default key is
    there, the key is a non-empty value or the empty string, and the two
    enumerations hold. *)
Definition settled_config (config : Types.ConfigFile) : Prop :=
  (forall k : jsstring,
      is_Some (Types.DEFAULT_CONFIG !! k) -> is_Some (Types.user config !! k))
  /\ (forall k : jsstring,
        is_Some (Types.DEFAULT_APP_CONFIG !! k) -> is_Some (Types.app config !! k))
  /\ (truthy (obj_get (Types.user config) (js "tmdbApiKey")) = true
      \/ Types.user config !! js "tmdbApiKey" = Some (JStr []))
  /\ includes Types.ImageQuality (obj_get (Types.user config) (js "imageQuality"))
     = true
  /\ includes Types.ImageSize (obj_get (Types.user config) (js "maxImageSize"))
     = true.

(** A call that leaves a tree a tree, whatever its outcome. *)
Definition keeps_tree {A} (m : M A) : Prop :=
  forall (fs : FS) (r : result A) (fs' : FS),
    tree fs -> m fs = (r, fs') -> tree fs'.

(** The names of the files a save writes into the film directory. *)
Definition film_files : list jsstring :=
  [js "data.json"; js "metadata.txt"; js "poster.jpg"; js "backdrop.jpg"].

(** The three repairs of [validateAndMergeConfig] on the merged user
    settings, key by key. *)
Definition repaired (u : object) : object :=
  ConfigManager.enforce Types.ImageSize (js "maxImageSize") (js "w500")
    (ConfigManager.enforce Types.ImageQuality (js "imageQuality") (js "medium")
       (if negb (truthy (obj_get u (js "tmdbApiKey")))
        then obj_set u (js "tmdbApiKey") (JStr [])
        else u)).

(** A callback that throws nothing but a TypeError. *)
Definition type_errors (f : JSValue -> result JSValue) : Prop :=
  forall (x : JSValue) (e : exn), f x = Throw e -> e = NodeError (js "TypeError").

(** [movie[k] || []]: a list of the answer of the film database, or the
    empty list where the answer has none. *)
Definition lists_of (movie : JSValue) (k : jsstring) : JSValue :=
  match get_prop movie k with
  | Ok v => or_else v (JArr [])
  | Throw _ => JArr []
  end.

(** What [path.normalize] keeps of a text: names and [..]. *)
Definition kept_segment (seg : jsstring) : Prop :=
  seg <> [] /\ seg <> dot /\ Forall (fun c => c <> slash) seg.

End Predicates.
Export Predicates.

(** ** A concrete platform and file system

    One film, one home directory, and a platform whose JSON functions know
    the two documents that occur; used to run the model on examples. *)

Module Demo.
Import Types.

Definition quoted (s : String.string) : jsstring := [34] ++ js s ++ [34].

Definition member (k : String.string) (v : jsstring) : jsstring :=
  quoted k ++ js ": " ++ v.

Definition document (members : list jsstring) : jsstring :=
  js "{ " ++ join_with (js ", ") members ++ js " }".

Definition matrix : Film :=
  {| id := 603;
     title := js "The Matrix";
     originalTitle := js "The Matrix";
     overview := js "A hacker learns what the world is.";
     releaseDate := js "1999-03-31";
     posterPath := Some (js "/poster603.jpg");
     backdropPath := Some (js "/backdrop603.jpg");
     genres := [ {| genre_id := 28; genre_name := js "Action" |} ];
     runtime := 136;
     voteAverage := 41 # 5;
     voteCount := 26000;
     popularity := 85;
     status := js "Released";
     tagline := js "Believe the unbelievable.";
     budget := 63000000;
     revenue := 463517383;
     productionCompanies := [];
     productionCountries := [];
     spokenLanguages := [];
     adult := false;
     video := false;
     originalLanguage := js "en";
     imdbId := Some (js "tt0133093");
     homepage := None |}.

(** The text of data.json for [matrix]. *)
Definition matrix_json : jsstring :=
  document
    [ member "id" (js "603");
      member "title" (quoted "The Matrix");
      member "originalTitle" (quoted "The Matrix");
      member "overview" (quoted "A hacker learns what the world is.");
      member "releaseDate" (quoted "1999-03-31");
      member "posterPath" (quoted "/poster603.jpg");
      member "backdropPath" (quoted "/backdrop603.jpg");
      member "genres"
        (js "[ " ++ document [ member "id" (js "28"); member "name" (quoted "Action") ]
         ++ js " ]");
      member "runtime" (js "136");
      member "voteAverage" (js "8.2");
      member "voteCount" (js "26000");
      member "popularity" (js "85");
      member "status" (quoted "Released");
      member "tagline" (quoted "Believe the unbelievable.");
      member "budget" (js "63000000");
      member "revenue" (js "463517383");
      member "productionCompanies" (js "[]");
      member "productionCountries" (js "[]");
      member "spokenLanguages" (js "[]");
      member "adult" (js "false");
      member "video" (js "false");
      member "originalLanguage" (quoted "en");
      member "imdbId" (quoted "tt0133093") ].

(** A configuration file of an older version: an unknown quality, no
    image size, images on, and films kept in /srv/films. *)
Definition stale_config_json : jsstring :=
  document
    [ member "user"
        (document [ member "imageQuality" (quoted "ultra");
                    member "defaultOutputDir" (quoted "/srv/films") ]) ].

Definition stale_config : JSValue :=
  JObj (obj [ (js "user",
               JObj (obj [ (js "imageQuality", JStr (js "ultra"));
                           (js "defaultOutputDir", JStr (js "/srv/films")) ])) ]).

Definition credentials_json : jsstring :=
  document [ member "apiKey" (quoted "k-123"); member "encrypted" (js "false") ].

Definition credentials : JSValue :=
  JObj (obj [ (js "apiKey", JStr (js "k-123")); (js "encrypted", JBool false) ]).

Definition parse_known (text : jsstring) : option JSValue :=
  if bool_decide (text = matrix_json) then Some (js_of_film matrix)
  else if bool_decide (text = stale_config_json) then Some stale_config
  else if bool_decide (text = credentials_json) then Some credentials
  else None.

(** A search with a query and, where given, a year that is an integer. *)
Definition search (q : jsstring) (y : option Z) : SearchParams :=
  {| query := q; page := None; includeAdult := None;
     year := option_map Integer y; primaryReleaseYear := None |}.

Definition home : path := [js "home"; js "ada"].

(** Every request is answered with status 404. *)
Definition offline (url : jsstring) : http_response := Response 404 [].

(** Every request is answered with an image. *)
Definition online (url : jsstring) : http_response := Response 200 (js "JFIF").

Definition platform (net : jsstring -> http_response) : Platform :=
  {| cwd := home;
     homedir := home;
     env_TMDB_API_KEY := Some (js "xyz");
     now_iso := js "2025-01-01T00:00:00.000Z";
     current_year := 2025;
     JSON_parse := parse_known;
     JSON_stringify := fun _ => matrix_json;
     number_toString := fun n => Number_toString (Qnum n / Z.pos (Qden n));
     number_toLocaleString := fun n => Number_toString (Qnum n / Z.pos (Qden n));
     stat_size := fun n =>
       match n with
       | File content => Z.of_nat (length content)
       | Dir => 4096%Z
       end;
     https_get := net |}.

Definition dirs (l : list path) : FS := list_to_map (List.map (fun p => (p, Dir)) l).

(** A fresh account: the home directory and nothing else. *)
Definition fresh : FS := dirs [ [js "home"]; home ].

(** The account after the configuration directory was created and the
    stale configuration file was left there. *)
Definition configured : FS :=
  <[ child (child home (js ".reel-cli")) (js "config.json") := File stale_config_json ]>
    (dirs [ [js "home"]; home; child home (js ".reel-cli"); [js "srv"] ]).

Definition matrix_dir : path :=
  child (child home (js "films")) (js "603-The-Matrix").

(** A film directory in which metadata.txt is a directory. *)
Definition blocked : FS :=
  fresh ∪ dirs [ child home (js "films");
                 child (child home (js "films")) (js "603-The-Matrix");
                 child (child (child home (js "films")) (js "603-The-Matrix"))
                   (js "metadata.txt") ].

(** A collection: one saved film, a directory that is none, and a stray
    file. *)
Definition library : FS :=
  let films := child home (js "films") in
  let film := child films (js "603-The-Matrix") in
  <[ child film (js "data.json") := File matrix_json ]>
    (<[ child films (js "readme.txt") := File (js "my films") ]>
       (dirs [ [js "home"]; home; films; film; child films (js "drafts") ])).

(** An account whose configuration file is not JSON, and which holds no
    film directory. *)
Definition corrupt : FS :=
  <[ child (child home (js ".reel-cli")) (js "config.json") := File (js "{") ]>
    (dirs [ [js "home"]; home; child home (js ".reel-cli") ]).

(** A film without images, the text of its data.json, and the platform
    whose JSON functions know the two. *)
Definition silent : Film :=
  {| id := 11;
     title := js "Silent";
     originalTitle := js "Silent";
     overview := js "Nothing is said.";
     releaseDate := js "1927-01-10";
     posterPath := None;
     backdropPath := None;
     genres := [];
     runtime := 80;
     voteAverage := 7;
     voteCount := 12;
     popularity := 1;
     status := js "Released";
     tagline := [];
     budget := 0;
     revenue := 0;
     productionCompanies := [];
     productionCountries := [];
     spokenLanguages := [];
     adult := false;
     video := false;
     originalLanguage := js "en";
     imdbId := None;
     homepage := None |}.

Definition silent_json : jsstring :=
  document
    [ member "id" (js "11");
      member "title" (quoted "Silent");
      member "originalTitle" (quoted "Silent");
      member "overview" (quoted "Nothing is said.");
      member "releaseDate" (quoted "1927-01-10");
      member "genres" (js "[]");
      member "runtime" (js "80");
      member "voteAverage" (js "7");
      member "voteCount" (js "12");
      member "popularity" (js "1");
      member "status" (quoted "Released");
      member "tagline" (quoted "");
      member "budget" (js "0");
      member "revenue" (js "0");
      member "productionCompanies" (js "[]");
      member "productionCountries" (js "[]");
      member "spokenLanguages" (js "[]");
      member "adult" (js "false");
      member "video" (js "false");
      member "originalLanguage" (quoted "en") ].

Definition silent_platform : Platform :=
  {| cwd := home;
     homedir := home;
     env_TMDB_API_KEY := None;
     now_iso := js "2025-01-01T00:00:00.000Z";
     current_year := 2025;
     JSON_parse := fun text =>
       if bool_decide (text = silent_json) then Some (js_of_film silent) else None;
     JSON_stringify := fun _ => silent_json;
     number_toString := fun n => Number_toString (Qnum n / Z.pos (Qden n));
     number_toLocaleString := fun n => Number_toString (Qnum n / Z.pos (Qden n));
     stat_size := fun n =>
       match n with
       | File content => Z.of_nat (length content)
       | Dir => 4096%Z
       end;
     https_get := online |}.

(** *** A platform that writes

    Its JSON functions also know the credentials and the configuration
    that the examples save. *)

Definition stamp : jsstring := js "2025-01-01T00:00:00.000Z".

Definition new_key : jsstring := js "0123456789abcdef".

Definition new_credentials : JSValue :=
  JObj (obj [ (js "apiKey", JStr new_key);
              (js "encrypted", JBool false);
              (js "lastUsed", JStr stamp) ]).

Definition new_credentials_json : jsstring :=
  document [ member "apiKey" (quoted "0123456789abcdef");
             member "encrypted" (js "false");
             member "lastUsed" (quoted "2025-01-01T00:00:00.000Z") ].

(** Credentials whose key is a number. *)
Definition odd_credentials : JSValue := JObj (obj [ (js "apiKey", JNum 12345) ]).

Definition odd_credentials_json : jsstring :=
  document [ member "apiKey" (js "12345") ].

(** The settings the examples change, and the configuration that results
    from changing them in the default one. *)
Definition new_settings : object :=
  obj [ (js "tmdbApiKey", JStr new_key);
        (js "defaultOutputDir", JStr (js "/srv/films"));
        (js "imageQuality", JStr (js "high")) ].

Definition new_config : JSValue :=
  JObj (obj [ (js "user", JObj (new_settings ∪ (DEFAULT_CONFIG ∪ ∅)));
              (js "app", JObj (DEFAULT_APP_CONFIG ∪ ∅));
              (js "lastUpdated", JStr stamp) ]).

Definition new_config_json : jsstring :=
  document
    [ member "user"
        (document [ member "tmdbApiKey" (quoted "0123456789abcdef");
                    member "defaultOutputDir" (quoted "/srv/films");
                    member "imageQuality" (quoted "high");
                    member "language" (quoted "en-US");
                    member "includeAdult" (js "false");
                    member "downloadImages" (js "true");
                    member "maxImageSize" (quoted "w500") ]);
      member "app"
        (document [ member "version" (quoted "1.0.0");
                    member "configDir" (quoted "~/.reel-cli");
                    member "outputDir" (quoted "./films");
                    member "tempDir" (quoted "~/.reel-cli/temp");
                    member "logLevel" (quoted "info") ]);
      member "lastUpdated" (quoted "2025-01-01T00:00:00.000Z") ].

(** A change to a quality that does not exist, and the configuration that
    results from it. *)
Definition odd_settings : object := obj [ (js "imageQuality", JStr (js "ultra")) ].

Definition odd_config : JSValue :=
  JObj (obj [ (js "user", JObj (odd_settings ∪ (DEFAULT_CONFIG ∪ ∅)));
              (js "app", JObj (DEFAULT_APP_CONFIG ∪ ∅));
              (js "lastUpdated", JStr stamp) ]).

Definition odd_config_json : jsstring :=
  document
    [ member "user"
        (document [ member "tmdbApiKey" (quoted "");
                    member "defaultOutputDir" (quoted "./films");
                    member "imageQuality" (quoted "ultra");
                    member "language" (quoted "en-US");
                    member "includeAdult" (js "false");
                    member "downloadImages" (js "true");
                    member "maxImageSize" (quoted "w500") ]);
      member "app"
        (document [ member "version" (quoted "1.0.0");
                    member "configDir" (quoted "~/.reel-cli");
                    member "outputDir" (quoted "./films");
                    member "tempDir" (quoted "~/.reel-cli/temp");
                    member "logLevel" (quoted "info") ]);
      member "lastUpdated" (quoted "2025-01-01T00:00:00.000Z") ].

Definition stringify_known (v : JSValue) : jsstring :=
  match v with
  | JObj props =>
      if bool_decide (is_Some (props !! js "apiKey")) then new_credentials_json
      else
        match props !! js "user" with
        | Some (JObj settings) =>
            if is_str (js "ultra") (obj_get settings (js "imageQuality"))
            then odd_config_json
            else new_config_json
        | _ => matrix_json
        end
  | _ => matrix_json
  end.

Definition parse_written (text : jsstring) : option JSValue :=
  if bool_decide (text = new_credentials_json) then Some new_credentials
  else if bool_decide (text = new_config_json) then Some new_config
  else if bool_decide (text = odd_config_json) then Some odd_config
  else if bool_decide (text = odd_credentials_json) then Some odd_credentials
  else parse_known text.

Definition writer : Platform :=
  {| cwd := home;
     homedir := home;
     env_TMDB_API_KEY := Some (js "xyz");
     now_iso := stamp;
     current_year := 2025;
     JSON_parse := parse_written;
     JSON_stringify := stringify_known;
     number_toString := fun n => Number_toString (Qnum n / Z.pos (Qden n));
     number_toLocaleString := fun n => Number_toString (Qnum n / Z.pos (Qden n));
     stat_size := fun n =>
       match n with
       | File content => Z.of_nat (length content)
       | Dir => 4096%Z
       end;
     https_get := offline |}.

(** What the client library answers for the film of the examples, and an
    answer without an id. *)
Definition tmdb_matrix : JSValue :=
  JObj (obj [ (js "id", JNum 603);
              (js "title", JStr (js "The Matrix"));
              (js "genres",
               JArr [ JObj (obj [ (js "id", JNum 28);
                                  (js "name", JStr (js "Action")) ]) ]) ]).

Definition tmdb_nothing : JSValue := JObj (obj [ (js "status_code", JNum 34) ]).

(** The configuration of [new_config] as a record, and the account that
    holds it. *)
Definition new_config_file : ConfigFile :=
  {| user := new_settings ∪ (DEFAULT_CONFIG ∪ ∅);
     app := DEFAULT_APP_CONFIG ∪ ∅;
     lastUpdated := JStr stamp |}.

Definition reconfigured : FS :=
  <[ child (child home (js ".reel-cli")) (js "config.json") := File new_config_json ]>
    (dirs [ [js "home"]; home; child home (js ".reel-cli"); [js "srv"] ]).

(** An account in which a regular file has the name of the configuration
    directory. *)
Definition squatted : FS :=
  <[ child home (js ".reel-cli") := File (js "not a directory") ]> fresh.

(** An account whose credentials file holds a number as key. *)
Definition odd : FS :=
  <[ child (child home (js ".reel-cli")) (js "credentials.json")
     := File odd_credentials_json ]>
    (dirs [ [js "home"]; home; child home (js ".reel-cli") ]).

End Demo.

(** * Properties *)

(** ** Strings *)

Module JsStringFacts.

Lemma is_hyphen_eq c : is_hyphen c = true -> c = hyphen.
Proof. unfold is_hyphen. apply N.eqb_eq. Qed.

Lemma hyphen_not_invalid : is_invalid_char hyphen = false.
Proof. reflexivity. Qed.

Lemma hyphen_not_whitespace : is_whitespace hyphen = false.
Proof. reflexivity. Qed.

(** Replacements leave a string without the class alone. *)
Lemma replace_each_id p r s :
  Forall (fun c => p c = false) s -> replace_each p r s = s.
Proof.
  unfold replace_each. induction 1 as [|c s Hc _ IH]; simpl; [done|].
  rewrite Hc. f_equal. exact IH.
Qed.

Lemma replace_runs_from_id p r b s :
  Forall (fun c => p c = false) s -> replace_runs_from p r b s = s.
Proof.
  intros H. revert b. induction H as [|c s Hc _ IH]; intros b; simpl; [done|].
  by rewrite Hc, IH.
Qed.

(** What a replacement puts in satisfies whatever its replacement and the
    untouched code units satisfy. *)
Lemma replace_each_Forall (P : code_unit -> Prop) p r s :
  P r -> (forall c, p c = false -> P c) -> Forall P (replace_each p r s).
Proof.
  intros Hr Hp. induction s as [|c s IH]; simpl; [constructor|].
  constructor; [|exact IH]. destruct (p c) eqn:E; auto.
Qed.

Lemma replace_runs_from_Forall (P : code_unit -> Prop) p r b s :
  P r -> (forall c, p c = false -> P c) -> Forall P (replace_runs_from p r b s).
Proof.
  intros Hr Hp. revert b. induction s as [|c s IH]; intros b; simpl; [constructor|].
  destruct (p c) eqn:E; [destruct b|]; auto.
Qed.

Lemma replace_runs_from_preserves (P : code_unit -> Prop) p r b s :
  P r -> Forall P s -> Forall P (replace_runs_from p r b s).
Proof.
  intros Hr H. revert b. induction H as [|c s Hc _ IH]; intros b; simpl; [constructor|].
  destruct (p c); [destruct b|]; auto.
Qed.

Lemma replace_runs_from_no_double p r b s :
  p r = true ->
  no_double p (replace_runs_from p r b s)
  /\ (b = true -> starts_with p (replace_runs_from p r b s) = false).
Proof.
  intros Hr. revert b. induction s as [|c s IH]; intros b; simpl; [done|].
  destruct (p c) eqn:E.
  - destruct b.
    + apply IH.
    + destruct (IH true) as [H1 H2]. split; [|done].
      simpl. destruct (replace_runs_from p r true s) as [|d t] eqn:Et; [done|].
      split; [|exact H1]. specialize (H2 eq_refl). simpl in H2. rewrite H2.
      apply andb_false_r.
  - destruct (IH false) as [H1 _]. split; [|simpl; by intros _].
    simpl. destruct (replace_runs_from p r false s) as [|d t] eqn:Et; [done|].
    split; [by rewrite E|exact H1].
Qed.

Lemma replace_runs_no_double p r s :
  p r = true -> no_double p (replace_runs p r s).
Proof. intros Hr. apply (replace_runs_from_no_double p r false s Hr). Qed.

(** Collapsing runs of hyphens leaves a string without double hyphens
    alone. *)
Lemma replace_hyphen_runs_from_id b s :
  no_double is_hyphen s ->
  (b = true -> starts_with is_hyphen s = false) ->
  replace_runs_from is_hyphen hyphen b s = s.
Proof.
  revert b. induction s as [|c s IH]; intros b Hd Hb; simpl; [done|].
  destruct (is_hyphen c) eqn:E.
  - destruct b; [by specialize (Hb eq_refl); simpl in Hb; congruence|].
    rewrite (is_hyphen_eq c E). f_equal. apply IH.
    + simpl in Hd. destruct s; [done|]. apply Hd.
    + intros _. simpl in Hd. destruct s as [|d t]; [done|].
      destruct Hd as [Hd _]. rewrite E in Hd. simpl in *. done.
  - f_equal. apply IH; [|done].
    simpl in Hd. destruct s; [done|]. apply Hd.
Qed.

Lemma replace_hyphen_runs_id s :
  no_double is_hyphen s -> replace_runs is_hyphen hyphen s = s.
Proof. intros H. by apply replace_hyphen_runs_from_id. Qed.

(** [drop_while] keeps a suffix, [drop_while_end] a prefix. *)
Lemma drop_while_suffix p s : exists n, drop_while p s = drop n s.
Proof.
  induction s as [|c s [n IH]]; simpl; [by exists 0%nat|].
  destruct (p c); [by exists (S n)|by exists 0%nat].
Qed.

Lemma drop_while_end_prefix p s : exists n, drop_while_end p s = take n s.
Proof.
  unfold drop_while_end. destruct (drop_while_suffix p (rev s)) as [n ->].
  exists (length s - n)%nat. rewrite skipn_rev, rev_involutive. done.
Qed.

Lemma drop_while_starts p s : starts_with p (drop_while p s) = false.
Proof.
  induction s as [|c s IH]; simpl; [done|].
  destruct (p c) eqn:E; [done|]. simpl. done.
Qed.

Lemma drop_while_id p s : starts_with p s = false -> drop_while p s = s.
Proof. destruct s as [|c s]; simpl; [done|]. by intros ->. Qed.

Lemma starts_with_take p n s :
  starts_with p s = false -> starts_with p (take n s) = false.
Proof. destruct s, n; simpl; auto. Qed.

Lemma no_double_tail p c s : no_double p (c :: s) -> no_double p s.
Proof. simpl. destruct s; [done|]. tauto. Qed.

Lemma no_double_drop p n s : no_double p s -> no_double p (drop n s).
Proof.
  revert s. induction n as [|n IH]; intros s H; [by rewrite drop_0|].
  destruct s as [|c s]; [done|]. simpl. apply IH. by eapply no_double_tail.
Qed.

Lemma no_double_take p n s : no_double p s -> no_double p (take n s).
Proof.
  revert s. induction n as [|n IH]; intros s H; [done|].
  destruct s as [|c s]; [done|]. simpl.
  specialize (IH s (no_double_tail _ _ _ H)).
  destruct n as [|n]; [by destruct s|].
  destruct s as [|d t]; [done|]. simpl in *. tauto.
Qed.

(** The last code unit decides whether [drop_while_end] changes a string. *)
Lemma drop_while_end_snoc p s c :
  drop_while_end p (s ++ [c]) = if p c then drop_while_end p s else s ++ [c].
Proof.
  unfold drop_while_end. rewrite rev_app_distr. simpl.
  destruct (p c); [done|]. simpl. by rewrite rev_involutive.
Qed.

Lemma drop_while_end_length p s : (length (drop_while_end p s) <= length s)%nat.
Proof.
  destruct (drop_while_end_prefix p s) as [n ->]. rewrite length_take. lia.
Qed.

Lemma drop_while_end_fixed p s :
  drop_while_end p s = s <-> ends_with p s = false.
Proof.
  unfold ends_with. destruct s as [|c s _] using rev_ind; [done|].
  rewrite drop_while_end_snoc, rev_app_distr. simpl.
  destruct (p c) eqn:E; [|done]. split; [|done].
  intros H. apply (f_equal length) in H. rewrite length_app in H. simpl in H.
  pose proof (drop_while_end_length p s). lia.
Qed.

(** [split_on] and [join_with] are inverse to each other. *)
Lemma split_on_nonempty sep s : split_on sep s <> [].
Proof. destruct s as [|c s]; simpl; [done|]. destruct (c =? sep); [done|]. by destruct (split_on sep s). Qed.

Lemma join_split sep s : join_with [sep] (split_on sep s) = s.
Proof.
  induction s as [|c s IH]; [done|]. simpl.
  destruct (c =? sep) eqn:E.
  - apply N.eqb_eq in E. subst c.
    pose proof (split_on_nonempty sep s).
    destruct (split_on sep s) as [|w ws]; [done|]. simpl in *. by rewrite IH.
  - pose proof (split_on_nonempty sep s).
    destruct (split_on sep s) as [|w ws]; [done|].
    destruct ws; simpl in *; by rewrite <- IH.
Qed.

Lemma split_on_app sep s t :
  Forall (fun c => c <> sep) s ->
  split_on sep (s ++ sep :: t) = s :: split_on sep t.
Proof.
  induction 1 as [|c s Hc _ IH]; simpl.
  - by rewrite N.eqb_refl.
  - apply N.eqb_neq in Hc. by rewrite Hc, IH.
Qed.

Lemma split_on_plain sep s :
  Forall (fun c => c <> sep) s -> split_on sep s = [s].
Proof.
  induction 1 as [|c s Hc _ IH]; simpl; [done|].
  apply N.eqb_neq in Hc. by rewrite Hc, IH.
Qed.

(** Decimal numerals. *)
Lemma digits_of_uint_digits d : Forall is_digit (digits_of_uint d).
Proof. induction d; simpl; constructor; auto; unfold is_digit; lia. Qed.

Lemma digits_of_uint_inj d d' : digits_of_uint d = digits_of_uint d' -> d = d'.
Proof.
  revert d'. induction d; intros d' H; destruct d'; simpl in H;
    try discriminate; try done;
    injection H as H; f_equal; auto.
Qed.

Lemma Number_toString_inj n m : Number_toString n = Number_toString m -> n = m.
Proof.
  unfold Number_toString. intros H. apply DecimalZ.to_int_inj.
  destruct (Z.to_int n) as [d|d], (Z.to_int m) as [d'|d'].
  - f_equal. by apply digits_of_uint_inj.
  - pose proof (digits_of_uint_digits d) as Hd. rewrite H in Hd.
    inversion Hd as [|? ? Hh _]. unfold is_digit, hyphen in Hh. lia.
  - pose proof (digits_of_uint_digits d') as Hd. rewrite <- H in Hd.
    inversion Hd as [|? ? Hh _]. unfold is_digit, hyphen in Hh. lia.
  - injection H as H. f_equal. by apply digits_of_uint_inj.
Qed.

Lemma Number_toString_chars n :
  Forall (fun c => is_digit c \/ c = hyphen) (Number_toString n).
Proof.
  unfold Number_toString. destruct (Z.to_int n) as [d|d].
  - eapply Forall_impl; [apply digits_of_uint_digits|]. auto.
  - constructor; [by right|]. eapply Forall_impl; [apply digits_of_uint_digits|]. auto.
Qed.

Lemma Number_toString_nonneg n :
  (0 <= n)%Z -> Forall is_digit (Number_toString n).
Proof.
  intros H. unfold Number_toString.
  destruct n as [|p|p]; try lia; simpl; try apply digits_of_uint_digits.
  repeat constructor; unfold is_digit; lia.
Qed.

Lemma Number_toString_nonempty n : Number_toString n <> [].
Proof.
  unfold Number_toString. destruct n as [|p|p]; simpl; try done.
  pose proof (DecimalPos.Unsigned.to_uint_nonnil p) as H.
  destruct (Pos.to_uint p); simpl; done.
Qed.

End JsStringFacts.

(** ** File and directory names *)

Module FileHelpersFacts.
Import JsStringFacts FileHelpers.

Lemma sanitizeFilename_unfold s :
  sanitizeFilename s = take 255 (strip_hyphens (collapsed s)).
Proof. reflexivity. Qed.

Lemma collapsed_safe s : Forall safe_char (collapsed s).
Proof.
  unfold collapsed, replace_runs.
  apply replace_runs_from_preserves; [done|].
  apply Forall_and; split.
  - apply replace_runs_from_preserves; [done|].
    apply replace_each_Forall; [done|auto].
  - apply replace_runs_from_Forall; [done|auto].
Qed.

Lemma collapsed_no_double s : no_double is_hyphen (collapsed s).
Proof. apply replace_runs_no_double. reflexivity. Qed.

Lemma strip_hyphens_segment s :
  exists n m, strip_hyphens s = take n (drop m s).
Proof.
  unfold strip_hyphens.
  destruct (drop_while_suffix is_hyphen s) as [m Hm].
  destruct (drop_while_end_prefix is_hyphen (drop_while is_hyphen s)) as [n Hn].
  exists n, m. by rewrite Hn, Hm.
Qed.

Lemma strip_hyphens_starts s : starts_with is_hyphen (strip_hyphens s) = false.
Proof.
  unfold strip_hyphens.
  destruct (drop_while_end_prefix is_hyphen (drop_while is_hyphen s)) as [n ->].
  apply starts_with_take, drop_while_starts.
Qed.

Lemma sanitizeFilename_safe s : Forall safe_char (sanitizeFilename s).
Proof.
  rewrite sanitizeFilename_unfold.
  destruct (strip_hyphens_segment (collapsed s)) as (n & m & ->).
  apply Forall_take, Forall_take, Forall_drop, collapsed_safe.
Qed.

Lemma sanitizeFilename_no_double s : no_double is_hyphen (sanitizeFilename s).
Proof.
  rewrite sanitizeFilename_unfold.
  destruct (strip_hyphens_segment (collapsed s)) as (n & m & ->).
  apply no_double_take, no_double_take, no_double_drop, collapsed_no_double.
Qed.

Lemma sanitizeFilename_starts s :
  starts_with is_hyphen (sanitizeFilename s) = false.
Proof.
  rewrite sanitizeFilename_unfold. apply starts_with_take, strip_hyphens_starts.
Qed.

Lemma sanitizeFilename_length s : (length (sanitizeFilename s) <= 255)%nat.
Proof. rewrite sanitizeFilename_unfold, length_take. lia. Qed.

(** On its own output the function only trims a trailing hyphen. *)
Lemma sanitizeFilename_again s :
  sanitizeFilename (sanitizeFilename s)
  = drop_while_end is_hyphen (sanitizeFilename s).
Proof.
  set (t := sanitizeFilename s).
  pose proof (sanitizeFilename_safe s) as Hsafe. fold t in Hsafe.
  rewrite sanitizeFilename_unfold. unfold collapsed.
  rewrite replace_each_id
    by (eapply Forall_impl; [exact Hsafe|]; by intros c [? ?]).
  unfold replace_runs at 2. rewrite replace_runs_from_id
    by (eapply Forall_impl; [exact Hsafe|]; by intros c [? ?]).
  rewrite replace_hyphen_runs_id by apply sanitizeFilename_no_double.
  unfold strip_hyphens. rewrite drop_while_id by apply sanitizeFilename_starts.
  apply take_ge.
  pose proof (drop_while_end_length is_hyphen t).
  pose proof (sanitizeFilename_length s). fold t in H0. lia.
Qed.

Lemma digit_safe c : is_digit c -> safe_char c.
Proof.
  unfold is_digit, safe_char, is_invalid_char, is_whitespace. intros [H1 H2].
  repeat match goal with
         | |- context [?a =? ?b] =>
             let E := fresh in destruct (N.eqb_spec a b) as [E|E]; [lia|clear E]
         | |- context [?a <=? ?b] =>
             let E := fresh in destruct (N.leb_spec a b) as [E|E]; try lia
         end; simpl; done.
Qed.

Lemma digit_not_hyphen c : is_digit c -> c <> hyphen.
Proof. unfold is_digit, hyphen. lia. Qed.

End FileHelpersFacts.

Module NameTheorems.
Import JsStringFacts FileHelpersFacts FileHelpers.

Example createFilmDirectoryName_matrix :
  createFilmDirectoryName 603 (js "The Matrix") = js "603-The-Matrix".
Proof. reflexivity. Qed.

Example sanitizeFilename_messy :
  sanitizeFilename (js "  What?  A: b/c -- d  ") = js "What-A-b-c-d".
Proof. reflexivity. Qed.

Example extractFilmName_export :
  ExportCommand.extractFilmName (js "603-The-Matrix") = js "The-Matrix".
Proof. reflexivity. Qed.

(** The list command's helper drops the last segment, not the id. *)
Example extractFilmName_list :
  ListCommand.extractFilmName (js "603-The-Matrix") = js "603-The".
Proof. reflexivity. Qed.

(** Below zero the minus sign is the first hyphen of the name. *)
Example extractFilmName_negative_id :
  ExportCommand.extractFilmName (createFilmDirectoryName (-1) (js "A")) = js "1-A".
Proof. reflexivity. Qed.

(** C3. Two films with the same title and different ids never get the same
    directory name, and a directory name holds none of the characters
    less-than, greater-than, colon, double quote, slash, backslash, bar,
    question mark, asterisk, and no whitespace. *)
Theorem createFilmDirectoryName_collision_free_and_safe :
  (forall (id1 id2 : Z) (title : jsstring),
      id1 <> id2 ->
      createFilmDirectoryName id1 title <> createFilmDirectoryName id2 title)
  /\ (forall (id : Z) (title : jsstring),
        Forall (fun c => is_invalid_char c = false /\ is_whitespace c = false)
          (createFilmDirectoryName id title)).
Proof.
  split.
  - intros id1 id2 title Hne Heq. apply Hne.
    unfold createFilmDirectoryName in Heq.
    apply app_inv_tail in Heq. by apply Number_toString_inj.
  - intros id title. unfold createFilmDirectoryName.
    apply Forall_app; split.
    + eapply Forall_impl; [apply Number_toString_chars|].
      intros c [Hd| ->]; [by apply digit_safe|done].
    + constructor; [done|]. apply sanitizeFilename_safe.
Qed.

Lemma createFilmDirectoryName_collision_free_and_safe_witness :
  createFilmDirectoryName 603 (js "The Matrix")
  <> createFilmDirectoryName 604 (js "The Matrix")
  /\ Forall (fun c => is_invalid_char c = false /\ is_whitespace c = false)
       (createFilmDirectoryName 603 (js "What? The: Matrix")).
Proof.
  split.
  - apply (proj1 createFilmDirectoryName_collision_free_and_safe). lia.
  - apply (proj2 createFilmDirectoryName_collision_free_and_safe).
Defined.

(** C9 as stated fails: on [long_name] the first pass ends with a hyphen
    and the second pass removes it. *)
Lemma sanitizeFilename_not_idempotent :
  sanitizeFilename long_name = repeat 97 254 ++ [hyphen]
  /\ sanitizeFilename (sanitizeFilename long_name) = repeat 97 254
  /\ sanitizeFilename (sanitizeFilename long_name) <> sanitizeFilename long_name.
Proof.
  split; [|split]; [by vm_compute..|].
  intros H. apply (f_equal length) in H. vm_compute in H. discriminate.
Qed.

(** C9, amended. A second pass of sanitizeFilename returns the result of
    the first exactly when that result does not end with a hyphen. *)
Theorem sanitizeFilename_idempotent_iff (s : jsstring) :
  sanitizeFilename (sanitizeFilename s) = sanitizeFilename s
  <-> ends_with is_hyphen (sanitizeFilename s) = false.
Proof. rewrite sanitizeFilename_again. apply drop_while_end_fixed. Qed.

Lemma sanitizeFilename_idempotent_iff_witness :
  sanitizeFilename (sanitizeFilename (js "The Matrix: Reloaded"))
  = sanitizeFilename (js "The Matrix: Reloaded").
Proof.
  apply (proj2 (sanitizeFilename_idempotent_iff (js "The Matrix: Reloaded"))).
  reflexivity.
Defined.

(** C10 as stated fails: below zero the minus sign of the id is the first
    hyphen of the directory name, and what the export command's
    extractFilmName cuts off is the empty text before it. *)
Lemma extractFilmName_keeps_negative_id :
  createFilmDirectoryName (-1) (js "A") = js "-1-A"
  /\ ExportCommand.extractFilmName (createFilmDirectoryName (-1) (js "A")) = js "1-A"
  /\ sanitizeFilename (js "A") = js "A".
Proof. split; [|split]; reflexivity. Qed.

(** C10, amended. The export command's extractFilmName gives back the
    sanitized title from the directory name of a film exactly when the
    film id is not negative. *)
Theorem extractFilmName_createFilmDirectoryName (id : Z) (title : jsstring) :
  ExportCommand.extractFilmName (createFilmDirectoryName id title)
  = sanitizeFilename title
  <-> (0 <= id)%Z.
Proof.
  split.
  - intros H. destruct id as [|p|p]; [lia|lia|]. exfalso. revert H.
    unfold ExportCommand.extractFilmName, createFilmDirectoryName, Number_toString.
    cbn [Z.to_int]. cbn [app].
    set (rest := digits_of_uint (Pos.to_uint p) ++ hyphen :: sanitizeFilename title).
    change (split_on hyphen (hyphen :: rest)) with ([] :: split_on hyphen rest).
    pose proof (split_on_nonempty hyphen rest) as Hne.
    pose proof (join_split hyphen rest) as Hjoin.
    destruct (split_on hyphen rest) as [|w ws]; [done|].
    change (join_with [hyphen] (w :: ws) = sanitizeFilename title -> False).
    rewrite Hjoin. intros H. apply (f_equal length) in H.
    unfold rest in H. rewrite length_app in H. cbn [length] in H. lia.
  - intros Hid. unfold ExportCommand.extractFilmName, createFilmDirectoryName.
    rewrite split_on_app.
    + pose proof (split_on_nonempty hyphen (sanitizeFilename title)) as Hne.
      destruct (split_on hyphen (sanitizeFilename title)) as [|w ws] eqn:E; [done|].
      change (join_with [hyphen] (w :: ws) = sanitizeFilename title).
      rewrite <- E. apply join_split.
    + eapply Forall_impl; [by apply Number_toString_nonneg|].
      intros c. apply digit_not_hyphen.
Qed.

Lemma extractFilmName_createFilmDirectoryName_witness :
  ExportCommand.extractFilmName (createFilmDirectoryName 603 (js "The Matrix"))
  = sanitizeFilename (js "The Matrix").
Proof. apply (proj2 (extractFilmName_createFilmDirectoryName 603 (js "The Matrix"))). lia. Defined.

End NameTheorems.

(** ** The file system *)

Module FsFacts.
Import FileHelpers.

Lemma child_name_spec dir q x : child_name dir q = Some x <-> q = dir ++ [x].
Proof.
  revert q. induction dir as [|a dir IH]; intros q.
  - destruct q as [|b [|c q]]; cbn; split; intros H; try done; congruence.
  - destruct q as [|b q]; cbn; [split; intros; done|].
    case_bool_decide as E.
    + subst b. rewrite IH. split; [by intros ->|]. intros H. by injection H.
    + split; intros H; [done|]. injection H as H1 H2. by subst.
Qed.

Lemma NoDup_omap_inj {A B} (f : A -> option B) (l : list A) :
  (forall x y z, f x = Some z -> f y = Some z -> x = y) ->
  NoDup l -> NoDup (omap f l).
Proof.
  intros Hinj. induction 1 as [|x l Hx Hl IH]; cbn; [constructor|].
  destruct (f x) as [z|] eqn:E; [|done].
  constructor; [|done].
  rewrite list_elem_of_omap. intros (y & Hy & Ey).
  by rewrite (Hinj x y z E Ey) in Hx.
Qed.

Lemma entries_spec (dir : path) (fs : FS) (x : jsstring) :
  x ∈ entries dir fs <-> is_Some (fs !! child dir x).
Proof.
  unfold entries, child. rewrite list_elem_of_omap. split.
  - intros (q & Hq & E). apply child_name_spec in E as ->.
    apply list_elem_of_fmap in Hq as ([q v] & -> & Hqv).
    apply elem_of_map_to_list in Hqv. cbn. eauto.
  - intros [v Hv]. exists (dir ++ [x]). split; [|by apply child_name_spec].
    apply list_elem_of_fmap. exists (dir ++ [x], v). split; [done|].
    by apply elem_of_map_to_list.
Qed.

Lemma entries_NoDup (dir : path) (fs : FS) : NoDup (entries dir fs).
Proof.
  unfold entries. apply NoDup_omap_inj; [|apply NoDup_fst_map_to_list].
  intros q q' x H H'. apply child_name_spec in H, H'. congruence.
Qed.

Lemma lookup_node_child (fs : FS) (p : path) (x : jsstring) :
  lookup_node fs (child p x) = fs !! child p x.
Proof. unfold child. by destruct p. Qed.

Lemma existsSync_child (fs : FS) (p : path) (x : jsstring) :
  existsSync (child p x) fs = bool_decide (is_Some (fs !! child p x)).
Proof. unfold existsSync. by rewrite lookup_node_child. Qed.

Lemma directoryExists_is_dir (p : path) (fs : FS) : directoryExists p fs = is_dir fs p.
Proof.
  unfold directoryExists, existsSync, isDirectory, is_dir.
  destruct (lookup_node fs p) as [[]|]; cbn; try done.
  all: by rewrite bool_decide_eq_true_2 by eauto.
Qed.

Lemma is_dir_child (fs : FS) (p : path) (x : jsstring) :
  is_dir fs (child p x) = true <-> fs !! child p x = Some Dir.
Proof.
  unfold is_dir. rewrite lookup_node_child.
  destruct (fs !! child p x) as [[]|]; split; intros; done.
Qed.

(** [getDirectoryContents] never throws. *)
Lemma getDirectoryContents_ok (p : path) (fs : FS) :
  getDirectoryContents p fs = Ok (if is_dir fs p then entries p fs else []).
Proof.
  unfold getDirectoryContents. rewrite directoryExists_is_dir.
  destruct (is_dir fs p) eqn:E; cbn [negb]; [|done].
  unfold readdirSync. unfold is_dir in E.
  destruct (lookup_node fs p) as [[]|]; done.
Qed.

Lemma grows_refl (fs : FS) : grows fs fs.
Proof. intros p. by left. Qed.

Lemma grows_trans (fs1 fs2 fs3 : FS) :
  grows fs1 fs2 -> grows fs2 fs3 -> grows fs1 fs3.
Proof.
  intros H12 H23 p. destruct (H12 p) as [E|[E1 E2]], (H23 p) as [E'|[E1' E2']].
  - left. congruence.
  - right. split; congruence.
  - right. split; congruence.
  - congruence.
Qed.

Lemma grows_insert_dir (fs : FS) (p : path) :
  fs !! p = None -> grows fs (<[p := Dir]> fs).
Proof.
  intros H q. destruct (decide (p = q)) as [<-|Hne].
  - right. by rewrite lookup_insert_eq.
  - left. by rewrite lookup_insert_ne.
Qed.

Lemma mkdirs_grows (fs : FS) (done todo : path) (fs' : FS) :
  mkdirs fs done todo = Ok fs' -> grows fs fs'.
Proof.
  revert fs done. induction todo as [|x todo IH]; intros fs done H; cbn in H.
  - injection H as <-. apply grows_refl.
  - destruct (fs !! (done ++ [x])) as [[]|] eqn:E; [done|by eapply IH|].
    eapply grows_trans; [by apply grows_insert_dir|by eapply IH].
Qed.

Lemma ensureDirectoryExists_grows (d : path) (fs : FS) (r : result unit) (fs' : FS) :
  ensureDirectoryExists d fs = (r, fs') -> grows fs fs'.
Proof.
  unfold ensureDirectoryExists, try_rethrow, update, ret, mkdirSync_recursive.
  destruct (existsSync d fs); cbn [negb].
  - intros H. injection H as _ <-. apply grows_refl.
  - destruct (mkdirs fs [] d) as [fs1|e] eqn:E; intros H; injection H as _ <-.
    + by eapply mkdirs_grows.
    + apply grows_refl.
Qed.

Lemma writeFileSync_ok (p : path) (data : jsstring) (fs fs' : FS) :
  writeFileSync p data fs = Ok fs' -> fs' = <[p := File data]> fs.
Proof.
  unfold writeFileSync. destruct p; [done|].
  destruct (negb _); [done|]. destruct (fs !! _) as [[]|]; congruence.
Qed.

(** A write that succeeds leaves the file in place, over a file system
    that at most grew. *)
Lemma writeTextFile_ok (p : path) (content : jsstring) (fs fs' : FS) :
  writeTextFile p content fs = (Ok tt, fs') ->
  exists fs1, grows fs fs1 /\ fs' = <[p := File content]> fs1.
Proof.
  unfold writeTextFile, try_rethrow, bind, update.
  destruct (ensureDirectoryExists (dirname p) fs) as [[[]|e] fs1] eqn:E; [|done].
  destruct (writeFileSync p content fs1) as [fs2|e] eqn:W; [|done].
  intros H. injection H as <-. exists fs1. split.
  - by eapply ensureDirectoryExists_grows.
  - by apply writeFileSync_ok.
Qed.

Lemma writeJsonFile_ok (pf : Platform) (p : path) (data : JSValue) (fs fs' : FS) :
  writeJsonFile pf p data fs = (Ok tt, fs') ->
  exists fs1, grows fs fs1 /\ fs' = <[p := File (JSON_stringify pf data)]> fs1.
Proof.
  unfold writeJsonFile, try_rethrow, bind, update, read.
  destruct (ensureDirectoryExists (dirname p) fs) as [[[]|e] fs1] eqn:E; [|done].
  destruct data; try done;
    (destruct (writeFileSync p _ fs1) as [fs2|e] eqn:W; [|done];
     intros H; injection H as <-; exists fs1; split;
     [by eapply ensureDirectoryExists_grows|by apply writeFileSync_ok]).
Qed.

(** A path that holds something is not touched by growth. *)
Lemma grows_lookup_Some (fs fs' : FS) (p : path) (n : node) :
  grows fs fs' -> fs !! p = Some n -> fs' !! p = Some n.
Proof. intros H E. destruct (H p) as [->|[? _]]; congruence. Qed.

Lemma child_inj (dir : path) (x y : jsstring) : child dir x = child dir y -> x = y.
Proof. unfold child. intros H. apply app_inv_head in H. congruence. Qed.

Lemma child_last_ne (dir dir' : path) (x y : jsstring) : x <> y -> child dir x <> child dir' y.
Proof.
  unfold child. intros Hne H. apply app_inj_tail in H as [_ ?]. done.
Qed.

Lemma child_ne_self (dir : path) (x : jsstring) : child dir x <> dir.
Proof.
  unfold child. intros H. apply (f_equal length) in H.
  rewrite length_app in H. cbn in H. lia.
Qed.

Lemma dirname_child (dir : path) (x : jsstring) : dirname (child dir x) = dir.
Proof. apply removelast_last. Qed.

Lemma is_dir_insert_ne (fs : FS) (p q : path) (n : node) :
  p <> q -> is_dir (<[q := n]> fs) p = is_dir fs p.
Proof.
  intros H. unfold is_dir, lookup_node. destruct p; [done|].
  by rewrite lookup_insert_ne.
Qed.

(** A file can be written into a directory where no directory has its
    name. *)
Lemma writeFileSync_child (fs : FS) (dir : path) (x data : jsstring) :
  is_dir fs dir = true -> fs !! child dir x <> Some Dir ->
  writeFileSync (child dir x) data fs = Ok (<[child dir x := File data]> fs).
Proof.
  intros Hdir Hx. unfold writeFileSync.
  rewrite dirname_child, Hdir. cbn [negb].
  destruct (child dir x) as [|a p] eqn:E.
  { exfalso. unfold child in E. by destruct dir. }
  repeat case_match; congruence.
Qed.

(** After a successful write the parent is a directory. *)
Lemma writeFileSync_parent (fs fs' : FS) (dir : path) (x data : jsstring) :
  writeFileSync (child dir x) data fs = Ok fs' -> is_dir fs' dir = true.
Proof.
  intros H. pose proof (writeFileSync_ok _ _ _ _ H) as ->.
  rewrite is_dir_insert_ne by (intros E; by apply (child_ne_self dir x)).
  revert H. unfold writeFileSync. rewrite dirname_child.
  destruct (child dir x); [done|]. by destruct (is_dir fs dir).
Qed.

Lemma writeTextFile_parent (fs fs' : FS) (dir : path) (x content : jsstring) :
  writeTextFile (child dir x) content fs = (Ok tt, fs') -> is_dir fs' dir = true.
Proof.
  unfold writeTextFile, try_rethrow, bind, update.
  destruct (ensureDirectoryExists (dirname (child dir x)) fs) as [[[]|e] fs1];
    [|done].
  destruct (writeFileSync (child dir x) content fs1) as [fs2|e] eqn:W; [|done].
  intros [= <-]. by eapply writeFileSync_parent.
Qed.

End FsFacts.

(** ** Search validation *)

Module FilmServiceTheorems.
Import Types FilmService Demo.

Lemma trim_nil : trim [] = [].
Proof. reflexivity. Qed.

(** Whatever is thrown is an APIError with status 400. *)
Lemma validateSearchParams_status (pf : Platform) params e :
  validateSearchParams pf params = Throw e ->
  exists m, e = APIError m 400 (js "validation").
Proof.
  unfold validateSearchParams. intros H.
  repeat match type of H with
         | (if ?c then _ else _) = _ => destruct c
         | match ?o with Some _ => _ | None => _ end = _ => destruct o
         | match ?n with Integer _ => _ | NaN => _ end = _ => destruct n
         end; try discriminate; injection H as <-; eauto.
Qed.

(** What the code rejects: the year test is skipped for the year 0. *)
Lemma validateSearchParams_rejects_iff (pf : Platform) params :
  (exists e, validateSearchParams pf params = Throw e)
  <-> trim (query params) = []
      \/ (length (trim (query params)) < 2)%nat
      \/ exists y, year params = Some (Integer y) /\ y <> 0%Z
                   /\ (y < 1888 \/ current_year pf + 1 < y)%Z.
Proof.
  unfold validateSearchParams.
  destruct (bool_decide_reflect (query params = [])) as [Hq|Hq]; simpl.
  { rewrite Hq. split; [by left|eauto]. }
  destruct (Nat.eqb_spec (length (trim (query params))) 0) as [H0|H0].
  { split; [intros _; left; by apply length_zero_iff_nil|eauto]. }
  destruct (Nat.ltb_spec (length (trim (query params))) 2) as [H2|H2].
  { split; [intros _; right; by left|eauto]. }
  assert (Hne : trim (query params) <> []) by (intros E; rewrite E in H0; done).
  destruct (year params) as [[y|]|].
  2: { split; [by intros [e ?]|].
       intros [?|[?|(y' & Hy' & _)]]; [done|lia|done]. }
  - destruct (Z.eqb_spec y 0) as [Hy|Hy]; simpl.
    + split; [by intros [e ?]|].
      intros [?|[?|(y' & Hy' & ? & _)]]; [done|lia|congruence].
    + destruct (Z.ltb_spec y 1888) as [Hl|Hl]; simpl.
      * split; [|eauto]. intros _. right; right. exists y. auto.
      * destruct (Z.ltb_spec (current_year pf + 1) y) as [Hu|Hu].
        -- split; [|eauto]. intros _. right; right. exists y. auto.
        -- split; [by intros [e ?]|].
           intros [?|[?|(y' & Hy' & ? & Hr)]]; [done|lia|].
           injection Hy' as <-. lia.
  - split; [by intros [e ?]|].
    intros [?|[?|(y' & Hy' & _)]]; [done|lia|done].
Qed.

Example validateSearchParams_rejects_a (pf : Platform) :
  validateSearchParams pf (search (js "a") None)
  = Throw (APIError (js "Search query must be at least 2 characters") 400
             (js "validation")).
Proof. reflexivity. Qed.

Example validateSearchParams_accepts_ab (pf : Platform) :
  validateSearchParams pf (search (js "ab") None) = Ok tt.
Proof. reflexivity. Qed.

(** C7, where the code departs from it. A search for the year 0, which
    lies outside the range from 1888 to the year after the current one,
    passes the validation: nothing is thrown. *)
Theorem validateSearchParams_accepts_year_zero (pf : Platform) :
  validateSearchParams pf (search (js "ab") (Some 0%Z)) = Ok tt.
Proof. reflexivity. Qed.

End FilmServiceTheorems.

(** ** Configuration and credentials *)

Module ConfigManagerFacts.
Import Types ConfigManager FsFacts.

Ltac js_neq := let H := fresh in intros H; vm_compute in H; discriminate H.

Lemma obj_get_set o k v : obj_get (obj_set o k v) k = v.
Proof. unfold obj_get, obj_set. by rewrite lookup_insert_eq. Qed.

Lemma obj_get_set_ne o k k' v :
  k <> k' -> obj_get (obj_set o k v) k' = obj_get o k'.
Proof. intros H. unfold obj_get, obj_set. by rewrite lookup_insert_ne. Qed.

(** A spread takes a property from its source when the source has it. *)
Lemma obj_get_spread target source k :
  obj_get (spread target source) k
  = match own_props source !! k with
    | Some v => v
    | None => obj_get target k
    end.
Proof.
  unfold obj_get, spread. rewrite lookup_union.
  destruct (own_props source !! k), (target !! k); done.
Qed.

Lemma enforce_allowed allowed k dflt o :
  dflt ∈ allowed -> includes allowed (obj_get (enforce allowed k dflt o) k) = true.
Proof.
  intros Hd. unfold enforce.
  destruct (includes allowed (obj_get o k)) eqn:E; cbn; [done|].
  rewrite obj_get_set. cbn. by apply bool_decide_eq_true.
Qed.

Lemma enforce_invalid allowed k dflt o :
  includes allowed (obj_get o k) = false ->
  obj_get (enforce allowed k dflt o) k = JStr dflt.
Proof. intros E. unfold enforce. rewrite E. cbn. apply obj_get_set. Qed.

Lemma enforce_valid allowed k dflt o :
  includes allowed (obj_get o k) = true -> enforce allowed k dflt o = o.
Proof. intros E. unfold enforce. by rewrite E. Qed.

Lemma enforce_other allowed k k' dflt o :
  k <> k' -> obj_get (enforce allowed k dflt o) k' = obj_get o k'.
Proof.
  intros H. unfold enforce. destruct (negb _); [|done]. by apply obj_get_set_ne.
Qed.

Lemma default_imageQuality :
  obj_get (spread ∅ (JObj DEFAULT_CONFIG)) (js "imageQuality") = JStr (js "medium").
Proof. by vm_compute. Qed.

Lemma default_maxImageSize :
  obj_get (spread ∅ (JObj DEFAULT_CONFIG)) (js "maxImageSize") = JStr (js "w500").
Proof. by vm_compute. Qed.

(** The merged configuration before the enumerations are enforced. *)
Lemma validateAndMergeConfig_ok (pf : Platform) (config : JSValue) :
  config <> JNull -> config <> JUndefined ->
  exists cfg, validateAndMergeConfig pf config = Ok cfg.
Proof.
  intros H1 H2. unfold validateAndMergeConfig.
  destruct config; try done; cbn; eauto.
Qed.

Lemma validateAndMergeConfig_enumerations (pf : Platform) config cfg :
  validateAndMergeConfig pf config = Ok cfg ->
  includes ImageQuality (obj_get (user cfg) (js "imageQuality")) = true
  /\ includes ImageSize (obj_get (user cfg) (js "maxImageSize")) = true.
Proof.
  unfold validateAndMergeConfig. intros H.
  destruct (get_prop config (js "user")) as [u|]; [|done].
  destruct (get_prop config (js "app")) as [a|]; [|done].
  destruct (get_prop config (js "lastUpdated")) as [l|]; [|done].
  cbn in H. injection H as <-. cbn [user]. split.
  - rewrite enforce_other by js_neq. apply enforce_allowed.
    unfold ImageQuality. set_solver.
  - apply enforce_allowed. unfold ImageSize. set_solver.
Qed.

Lemma validateAndMergeConfig_quality (pf : Platform) (props : object) cfg :
  validateAndMergeConfig pf (JObj props) = Ok cfg ->
  includes ImageQuality
    (obj_get (own_props (obj_get props (js "user"))) (js "imageQuality")) = false ->
  obj_get (user cfg) (js "imageQuality") = JStr (js "medium").
Proof.
  unfold validateAndMergeConfig. cbn [get_prop bind_result]. intros H Hbad.
  injection H as <-. cbn [user].
  rewrite enforce_other by js_neq.
  set (u := obj_get props (js "user")) in *.
  match goal with
  | |- obj_get (enforce _ _ _ ?o) _ = _ => set (user1 := o)
  end.
  assert (Hq : obj_get user1 (js "imageQuality")
               = match own_props u !! js "imageQuality" with
                 | Some v => v
                 | None => JStr (js "medium")
                 end).
  { subst user1. destruct (negb _).
    - rewrite obj_get_set_ne by js_neq. rewrite obj_get_spread.
      by rewrite default_imageQuality.
    - rewrite obj_get_spread. by rewrite default_imageQuality. }
  unfold obj_get in Hbad.
  destruct (own_props u !! js "imageQuality") as [v|] eqn:Ev; cbn in Hbad.
  - apply enforce_invalid. by rewrite Hq.
  - rewrite enforce_valid; [done|]. by rewrite Hq.
Qed.

Lemma createDefaultConfig_enumerations (pf : Platform) :
  includes ImageQuality (obj_get (user (createDefaultConfig pf)) (js "imageQuality")) = true
  /\ includes ImageSize (obj_get (user (createDefaultConfig pf)) (js "maxImageSize")) = true.
Proof. split; by vm_compute. Qed.

Lemma lookup_node_configPath (pf : Platform) (fs : FS) :
  lookup_node fs (configPath pf) = fs !! configPath pf.
Proof. apply lookup_node_child. Qed.

(** [loadConfig] reads the configuration file and nothing else. *)
Lemma loadConfig_ext (pf : Platform) (fs fs' : FS) :
  fs !! configPath pf = fs' !! configPath pf ->
  loadConfig pf fs = loadConfig pf fs'.
Proof.
  intros H. unfold loadConfig, existsSync, readFileSync.
  rewrite !lookup_node_configPath. by rewrite H.
Qed.

Lemma loadConfig_of_file (pf : Platform) (fs : FS) (text : jsstring) :
  fs !! configPath pf = Some (File text) ->
  loadConfig pf fs
  = rethrow
      (fun e => ConfigurationError
                  (js "Failed to load configuration: " ++ message_of e))
      (let? config := parse pf text in validateAndMergeConfig pf config).
Proof.
  intros H. unfold loadConfig, existsSync, readFileSync.
  rewrite !lookup_node_configPath, H.
  rewrite bool_decide_eq_true_2 by eauto. cbn [negb bind_result].
  unfold parse. destruct (JSON_parse pf text) as [config|]; cbn [bind_result rethrow]; [|done].
  destruct (validateAndMergeConfig pf config) as [cfg|e'] eqn:E; cbn [rethrow]; [done|].
  unfold validateAndMergeConfig in E.
  destruct config; cbn [get_prop bind_result] in E; try discriminate;
    injection E as <-; done.
Qed.

Lemma loadConfig_absent (pf : Platform) (fs : FS) :
  fs !! configPath pf = None -> loadConfig pf fs = Ok (createDefaultConfig pf).
Proof.
  intros H. unfold loadConfig, existsSync.
  rewrite !lookup_node_configPath, H.
  rewrite bool_decide_eq_false_2; [done|]. by intros [? ?].
Qed.

Lemma loadConfig_of_dir (pf : Platform) (fs : FS) :
  fs !! configPath pf = Some Dir -> is_ok (loadConfig pf fs) = false.
Proof.
  intros H. unfold loadConfig, existsSync, readFileSync.
  rewrite !lookup_node_configPath, H.
  by rewrite bool_decide_eq_true_2 by eauto.
Qed.

Lemma lookup_node_credentialsPath (pf : Platform) (fs : FS) :
  lookup_node fs (credentialsPath pf) = fs !! credentialsPath pf.
Proof. apply lookup_node_child. Qed.

Lemma or_else_null v : truthy v = true -> or_else v JNull = v.
Proof. unfold or_else. by intros ->. Qed.

Lemma or_else_null_falsy v : truthy v = false -> or_else v JNull = JNull.
Proof. unfold or_else. by intros ->. Qed.

Lemma loadCredentials_absent (pf : Platform) (fs : FS) :
  fs !! credentialsPath pf = None -> loadCredentials pf fs = JNull.
Proof.
  intros H. unfold loadCredentials, existsSync.
  rewrite lookup_node_credentialsPath, H.
  rewrite bool_decide_eq_false_2; [done|]. by intros [? ?].
Qed.

Lemma loadCredentials_of_file (pf : Platform) (fs : FS) (text : jsstring) :
  fs !! credentialsPath pf = Some (File text) ->
  loadCredentials pf fs
  = match JSON_parse pf text with
    | Some (JObj creds) => or_else (obj_get creds (js "apiKey")) JNull
    | _ => JNull
    end.
Proof.
  intros H. unfold loadCredentials, existsSync, readFileSync.
  rewrite !lookup_node_credentialsPath, H.
  rewrite bool_decide_eq_true_2 by eauto. cbn [negb bind_result].
  unfold parse. destruct (JSON_parse pf text) as [[]|]; done.
Qed.

Lemma loadCredentials_of_dir (pf : Platform) (fs : FS) :
  fs !! credentialsPath pf = Some Dir -> loadCredentials pf fs = JNull.
Proof.
  intros H. unfold loadCredentials, existsSync, readFileSync.
  rewrite !lookup_node_credentialsPath, H.
  by rewrite bool_decide_eq_true_2 by eauto.
Qed.

(** The answer of [loadCredentials] is a key or [null]. *)
Lemma loadCredentials_key_or_null (pf : Platform) (fs : FS) :
  truthy (loadCredentials pf fs) = true \/ loadCredentials pf fs = JNull.
Proof.
  destruct (fs !! credentialsPath pf) as [[text|]|] eqn:H.
  - rewrite (loadCredentials_of_file pf fs text H).
    destruct (JSON_parse pf text) as [[]|]; auto.
    unfold or_else. destruct (truthy (obj_get props (js "apiKey"))) eqn:E; auto.
  - right. by apply loadCredentials_of_dir.
  - right. by apply loadCredentials_absent.
Qed.

End ConfigManagerFacts.

Module ConfigManagerTheorems.
Import Types ConfigManager ConfigManagerFacts.

(** C2. When the persisted configuration is an object whose
    user.imageQuality is none of low, medium and high (or is missing),
    loadConfig succeeds and the quality it returns is medium; no object fails
    to load, whatever its preference fields hold; and whenever loadConfig
    returns, imageQuality and maxImageSize are within their enumerations. *)
Theorem loadConfig_enumerations (pf : Platform) :
  (forall (fs : FS) (text : jsstring) (props : object),
      fs !! configPath pf = Some (File text) ->
      JSON_parse pf text = Some (JObj props) ->
      exists cfg,
        loadConfig pf fs = Ok cfg
        /\ (includes ImageQuality
              (obj_get (own_props (obj_get props (js "user"))) (js "imageQuality"))
            = false ->
            obj_get (user cfg) (js "imageQuality") = JStr (js "medium")))
  /\ (forall (fs : FS) (cfg : ConfigFile),
        loadConfig pf fs = Ok cfg ->
        includes ImageQuality (obj_get (user cfg) (js "imageQuality")) = true
        /\ includes ImageSize (obj_get (user cfg) (js "maxImageSize")) = true).
Proof.
  split.
  - intros fs text props Hfile Hparse.
    destruct (validateAndMergeConfig_ok pf (JObj props)) as [cfg Hcfg]; [done..|].
    exists cfg. split.
    + rewrite (loadConfig_of_file pf fs text Hfile).
      unfold parse. rewrite Hparse. cbn [bind_result]. by rewrite Hcfg.
    + by apply (validateAndMergeConfig_quality pf).
  - intros fs cfg H.
    destruct (fs !! configPath pf) as [[text|]|] eqn:Hfile.
    + rewrite (loadConfig_of_file pf fs text Hfile) in H.
      destruct (parse pf text) as [config|]; cbn [bind_result rethrow] in H; [|done].
      destruct (validateAndMergeConfig pf config) as [cfg'|] eqn:E;
        cbn [rethrow] in H; [|done].
      injection H as <-. by eapply validateAndMergeConfig_enumerations.
    + pose proof (loadConfig_of_dir pf fs Hfile) as Hd. by rewrite H in Hd.
    + rewrite (loadConfig_absent pf fs Hfile) in H. injection H as <-.
      apply createDefaultConfig_enumerations.
Qed.

Lemma loadConfig_enumerations_witness :
  exists cfg,
    loadConfig (Demo.platform Demo.online) Demo.configured = Ok cfg
    /\ obj_get (user cfg) (js "imageQuality") = JStr (js "medium")
    /\ includes ImageSize (obj_get (user cfg) (js "maxImageSize")) = true.
Proof.
  destruct (proj1 (loadConfig_enumerations (Demo.platform Demo.online))
              Demo.configured Demo.stale_config_json
              (obj [ (js "user",
                      JObj (obj [ (js "imageQuality", JStr (js "ultra"));
                                  (js "defaultOutputDir", JStr (js "/srv/films")) ])) ]))
    as (cfg & Hload & Hquality); [by vm_compute..|].
  exists cfg. split; [exact Hload|]. split.
  - apply Hquality. by vm_compute.
  - apply (proj2 (loadConfig_enumerations (Demo.platform Demo.online))
             Demo.configured cfg Hload).
Defined.

(** C5. getApiKey answers with the key of the credentials file when the
    file exists and yields one; otherwise with the value of TMDB_API_KEY
    when the variable holds one; otherwise with null.  With no credentials
    file and TMDB_API_KEY=xyz the answer is xyz, and a credentials file
    that is missing or cannot be parsed counts as no credentials: nothing
    is thrown. *)
Theorem getApiKey_resolution (pf : Platform) (fs : FS) :
  (forall (text : jsstring) (creds : object),
      fs !! credentialsPath pf = Some (File text) ->
      JSON_parse pf text = Some (JObj creds) ->
      truthy (obj_get creds (js "apiKey")) = true ->
      getApiKey pf fs = obj_get creds (js "apiKey"))
  /\ (truthy (loadCredentials pf fs) = true \/ loadCredentials pf fs = JNull)
  /\ (forall v : jsstring,
        loadCredentials pf fs = JNull ->
        env_TMDB_API_KEY pf = Some v -> v <> [] ->
        getApiKey pf fs = JStr v)
  /\ (loadCredentials pf fs = JNull ->
      env_TMDB_API_KEY pf = None \/ env_TMDB_API_KEY pf = Some [] ->
      getApiKey pf fs = JNull)
  /\ (fs !! credentialsPath pf = None ->
      env_TMDB_API_KEY pf = Some (js "xyz") ->
      getApiKey pf fs = JStr (js "xyz"))
  /\ (fs !! credentialsPath pf = None -> loadCredentials pf fs = JNull)
  /\ (forall text : jsstring,
        fs !! credentialsPath pf = Some (File text) ->
        JSON_parse pf text = None ->
        loadCredentials pf fs = JNull).
Proof.
  assert (Henv : forall v : jsstring,
             loadCredentials pf fs = JNull ->
             env_TMDB_API_KEY pf = Some v -> v <> [] ->
             getApiKey pf fs = JStr v).
  { intros v Hnull Hv Hne. unfold getApiKey. rewrite Hnull. cbn [truthy].
    unfold env_value. rewrite Hv. apply or_else_null. cbn [truthy].
    by rewrite bool_decide_eq_false_2. }
  repeat split.
  - intros text creds Hfile Hparse Hkey. unfold getApiKey.
    rewrite (loadCredentials_of_file pf fs text Hfile), Hparse.
    rewrite or_else_null by done. by rewrite Hkey.
  - apply loadCredentials_key_or_null.
  - exact Henv.
  - intros Hnull Hv. unfold getApiKey. rewrite Hnull. cbn [truthy].
    unfold env_value. by destruct Hv as [-> | ->].
  - intros Hfile Hv. apply Henv; [by apply loadCredentials_absent|done|done].
  - apply loadCredentials_absent.
  - intros text Hfile Hparse.
    by rewrite (loadCredentials_of_file pf fs text Hfile), Hparse.
Qed.

Lemma getApiKey_resolution_witness :
  getApiKey (Demo.platform Demo.online) Demo.fresh = JStr (js "xyz").
Proof.
  apply (getApiKey_resolution (Demo.platform Demo.online) Demo.fresh);
    by vm_compute.
Defined.

End ConfigManagerTheorems.

(** ** Listing and statistics *)

Module StorageServiceFacts.
Import Types ConfigManager StorageService FileHelpers.
Import FsFacts ConfigManagerFacts.

Lemma isSavedFilm_spec (base : path) (fs : FS) (x : jsstring) :
  isSavedFilm base fs x = true
  <-> fs !! child base x = Some Dir
      /\ is_Some (fs !! child (child base x) (js "data.json")).
Proof.
  unfold isSavedFilm, fileExists. rewrite directoryExists_is_dir, existsSync_child.
  rewrite andb_true_iff, is_dir_child, bool_decide_eq_true. done.
Qed.

(** With a configuration that loads, the listing is the filtered content
    of the base directory. *)
Lemma listSavedFilms_ok (pf : Platform) (outputDir : option jsstring) (fs : FS)
    (config : ConfigFile) :
  loadConfig pf fs = Ok config ->
  listSavedFilms pf outputDir fs
  = Ok match fs_path pf (baseOutputDir outputDir config) fs with
       | Some base =>
           if is_dir fs base
           then List.filter (isSavedFilm base fs) (entries base fs)
           else []
       | None => []
       end.
Proof.
  intros H. unfold listSavedFilms. rewrite H. cbn [bind_result].
  destruct (fs_path pf (baseOutputDir outputDir config) fs) as [base|]; [|done].
  rewrite directoryExists_is_dir, getDirectoryContents_ok.
  by destruct (is_dir fs base).
Qed.

(** With a configuration that does not load, the listing throws before it
    looks at any directory. *)
Lemma listSavedFilms_config_failure (pf : Platform)
    (outputDir : option jsstring) (fs : FS) (e : exn) :
  loadConfig pf fs = Throw e ->
  exists e', listSavedFilms pf outputDir fs = Throw e'.
Proof. intros H. unfold listSavedFilms. rewrite H. cbn. eauto. Qed.

Lemma getFileSize_ok (pf : Platform) (p : path) (fs : FS) :
  existsSync p fs = true -> exists size, getFileSize pf p fs = Ok size.
Proof.
  unfold existsSync, getFileSize. intros H.
  apply bool_decide_eq_true in H as [n ->]. cbn. eauto.
Qed.

Lemma sumFiles_ok (pf : Platform) (fullPath : path) (fs : FS)
    (contents : list jsstring) (total : Z) :
  exists total', sumFiles pf fullPath fs contents total = Ok total'.
Proof.
  revert total. induction contents as [|file rest IH]; intros total; cbn; [eauto|].
  unfold fileExists.
  destruct (existsSync (child fullPath file) fs) eqn:E; [|apply IH].
  destruct (getFileSize_ok pf _ fs E) as [size ->]. cbn. apply IH.
Qed.

Lemma sumDirs_ok (pf : Platform) (base : path) (fs : FS)
    (filmDirs : list jsstring) (total : Z) :
  exists total', sumDirs pf base fs filmDirs total = Ok total'.
Proof.
  revert total. induction filmDirs as [|d rest IH]; intros total; cbn; [eauto|].
  rewrite getDirectoryContents_ok. cbn.
  destruct (sumFiles_ok pf (child base d) fs
              (if is_dir fs (child base d) then entries (child base d) fs else [])
              total) as [t ->].
  cbn. apply IH.
Qed.

End StorageServiceFacts.

Module ListingTheorems.
Import Types ConfigManager StorageService FileHelpers.
Import FsFacts ConfigManagerFacts StorageServiceFacts.

(** C4 as stated fails: in [Demo.corrupt] there is no directory ./films,
    and listSavedFilms throws, because it loads the configuration before it
    looks at any directory and the configuration file is not JSON. *)
Lemma listSavedFilms_throws_without_configuration :
  existsSync (child Demo.home (js "films")) Demo.corrupt = false
  /\ listSavedFilms (Demo.platform Demo.offline) (Some (js "./films")) Demo.corrupt
     = Throw (FileSystemError
                (js "Failed to list saved films: Failed to load configuration: SyntaxError")
                (js "./films") (js "list")).
Proof. split; vm_compute; reflexivity. Qed.

(** C4, amended. With a configuration that loads, listSavedFilms returns,
    each once, exactly the names of the entries of the base directory that
    are directories and hold an entry named data.json, be that a file or a
    directory; nothing else of their content is looked at.  The base
    directory is the one the kernel reaches by the text as it is.  When it
    does not exist or is empty the answer is the empty list, and nothing
    is thrown. *)
Theorem listSavedFilms_lists_saved_films (pf : Platform)
    (outputDir : option jsstring) (fs : FS) (config : ConfigFile) :
  loadConfig pf fs = Ok config ->
  exists names : list jsstring,
    listSavedFilms pf outputDir fs = Ok names
    /\ NoDup names
    /\ (forall x : jsstring,
          x ∈ names
          <-> exists base : path,
                fs_path pf (baseOutputDir outputDir config) fs = Some base
                /\ is_dir fs base = true
                /\ fs !! child base x = Some Dir
                /\ is_Some (fs !! child (child base x) (js "data.json")))
    /\ ((forall base : path,
            fs_path pf (baseOutputDir outputDir config) fs = Some base ->
            is_dir fs base = false \/ entries base fs = []) ->
        names = []).
Proof.
  intros Hload. eexists. split; [by apply listSavedFilms_ok|].
  destruct (fs_path pf (baseOutputDir outputDir config) fs) as [base|].
  - destruct (is_dir fs base) eqn:Hdir.
    + split; [apply NoDup_ListNoDup, List.NoDup_filter, NoDup_ListNoDup, entries_NoDup|].
      split.
      * intros x. rewrite list_elem_of_In, List.filter_In, <- list_elem_of_In.
        rewrite entries_spec, isSavedFilm_spec. split.
        -- intros (_ & Hd & Hj). exists base. done.
        -- intros (base' & [= <-] & _ & Hd & Hj). split; [by rewrite Hd|done].
      * intros H. destruct (H base eq_refl) as [?| ->]; [congruence|done].
    + split; [constructor|]. split; [|done].
      intros x. split; [by intros ?%elem_of_nil|].
      intros (base' & [= <-] & ? & _). congruence.
  - split; [constructor|]. split; [|done].
    intros x. split; [by intros ?%elem_of_nil|]. by intros (base' & ? & _).
Qed.

Lemma listSavedFilms_lists_saved_films_witness :
  exists names : list jsstring,
    listSavedFilms (Demo.platform Demo.offline) None Demo.library = Ok names
    /\ NoDup names
    /\ (forall x : jsstring,
          x ∈ names
          <-> exists base : path,
                fs_path (Demo.platform Demo.offline)
                  (baseOutputDir None (createDefaultConfig (Demo.platform Demo.offline)))
                  Demo.library
                = Some base
                /\ is_dir Demo.library base = true
                /\ Demo.library !! child base x = Some Dir
                /\ is_Some (Demo.library !! child (child base x) (js "data.json")))
    /\ ((forall base : path,
            fs_path (Demo.platform Demo.offline)
              (baseOutputDir None (createDefaultConfig (Demo.platform Demo.offline)))
              Demo.library
            = Some base ->
            is_dir Demo.library base = false \/ entries base Demo.library = []) ->
        names = []).
Proof.
  apply (listSavedFilms_lists_saved_films (Demo.platform Demo.offline) None
           Demo.library (createDefaultConfig (Demo.platform Demo.offline))).
  by vm_compute.
Defined.

Example listSavedFilms_library :
  listSavedFilms (Demo.platform Demo.offline) None Demo.library
  = Ok [js "603-The-Matrix"].
Proof. by vm_compute. Qed.

Example listSavedFilms_no_directory :
  listSavedFilms (Demo.platform Demo.offline) None Demo.fresh = Ok [].
Proof. by vm_compute. Qed.

(** C8 as stated fails: in [Demo.corrupt] no film is saved and there is
    no directory ./films, and getStorageStats throws instead of answering
    with zeros, because the configuration file is not JSON. *)
Lemma getStorageStats_throws_without_configuration :
  existsSync (child Demo.home (js "films")) Demo.corrupt = false
  /\ getStorageStats (Demo.platform Demo.offline) (Some (js "./films")) Demo.corrupt
     = Throw (FileSystemError
                (js "Failed to get storage stats: Failed to load configuration: SyntaxError")
                (js "./films") (js "stats")).
Proof. split; vm_compute; reflexivity. Qed.

(** C8, amended. With a configuration that loads, getStorageStats returns,
    its totalFilms is the number of names listSavedFilms returns for the
    same base directory, and with no saved film (the base directory
    missing, or holding no film directory) the answer is all zeros. *)
Theorem getStorageStats_counts_saved_films (pf : Platform)
    (outputDir : option jsstring) (fs : FS) (config : ConfigFile) :
  loadConfig pf fs = Ok config ->
  exists (stats : StorageStats) (names : list jsstring),
    getStorageStats pf outputDir fs = Ok stats
    /\ listSavedFilms pf outputDir fs = Ok names
    /\ totalFilms stats = Z.of_nat (length names)
    /\ (names = [] ->
        stats = {| totalFilms := 0; totalSize := 0; averageSize := 0%Q |}).
Proof.
  intros Hload. unfold getStorageStats.
  rewrite (listSavedFilms_ok pf outputDir fs config Hload).
  rewrite Hload. cbn [bind_result].
  destruct (fs_path pf (baseOutputDir outputDir config) fs) as [base|];
    [|by exists noFilms, []].
  rewrite directoryExists_is_dir.
  destruct (is_dir fs base) eqn:Hdir; cbn [negb]; [|by exists noFilms, []].
  set (names := List.filter (isSavedFilm base fs) (entries base fs)).
  destruct (sumDirs_ok pf base fs names 0) as [total Htotal].
  rewrite Htotal. cbn [bind_result rethrow].
  eexists _, names. split; [done|]. split; [done|]. split; [done|].
  intros Hnil. rewrite Hnil in Htotal |- *. cbn in Htotal. injection Htotal as <-.
  done.
Qed.

Lemma getStorageStats_counts_saved_films_witness :
  exists (stats : StorageStats) (names : list jsstring),
    getStorageStats (Demo.platform Demo.offline) None Demo.fresh = Ok stats
    /\ listSavedFilms (Demo.platform Demo.offline) None Demo.fresh = Ok names
    /\ totalFilms stats = Z.of_nat (length names)
    /\ (names = [] ->
        stats = {| totalFilms := 0; totalSize := 0; averageSize := 0%Q |}).
Proof.
  apply (getStorageStats_counts_saved_films (Demo.platform Demo.offline) None
           Demo.fresh (createDefaultConfig (Demo.platform Demo.offline))).
  by vm_compute.
Defined.

Example getStorageStats_library :
  getStorageStats (Demo.platform Demo.offline) None Demo.library
  = Ok {| totalFilms := 1;
          totalSize := Z.of_nat (length Demo.matrix_json);
          averageSize := inject_Z (Z.of_nat (length Demo.matrix_json)) |}.
Proof. by vm_compute. Qed.

End ListingTheorems.

(** ** Saving a film *)

Module SaveFacts.
Import Types ConfigManager StorageService FileHelpers.
Import JsStringFacts FsFacts ConfigManagerFacts.

Ltac in_list := repeat first [apply list_elem_of_here | apply list_elem_of_further].

Lemma writes_within_grows (written : list path) (fs fs' : FS) :
  grows fs fs' -> writes_within written fs fs'.
Proof. intros H p _. apply H. Qed.

Lemma writes_within_refl (written : list path) (fs : FS) :
  writes_within written fs fs.
Proof. apply writes_within_grows, grows_refl. Qed.

Lemma writes_within_insert (written : list path) (fs : FS) (q : path) (n : node) :
  q ∈ written -> writes_within written fs (<[q := n]> fs).
Proof.
  intros Hq p Hp. left. apply lookup_insert_ne. by intros ->.
Qed.

Lemma writes_within_trans (written : list path) (fs1 fs2 fs3 : FS) :
  writes_within written fs1 fs2 -> writes_within written fs2 fs3 ->
  writes_within written fs1 fs3.
Proof.
  intros H12 H23 p Hp.
  destruct (H12 p Hp) as [E|[E1 E2]], (H23 p Hp) as [E'|[E1' E2']].
  - left. congruence.
  - right. split; congruence.
  - right. split; congruence.
  - congruence.
Qed.

Lemma writes_within_mono (written written' : list path) (fs fs' : FS) :
  written ⊆ written' -> writes_within written fs fs' ->
  writes_within written' fs fs'.
Proof. intros Hsub H p Hp. apply H. intros Hin. apply Hp, Hsub, Hin. Qed.

(** A path that holds something and is not written keeps it. *)
Lemma writes_within_lookup (written : list path) (fs fs' : FS) (p : path) (n : node) :
  writes_within written fs fs' -> p ∉ written ->
  fs !! p = Some n -> fs' !! p = Some n.
Proof. intros H Hp E. destruct (H p Hp) as [->|[? _]]; congruence. Qed.

(** What one download leaves behind. *)
Lemma downloadImage_effect (pf : Platform) (url : jsstring) (p : path)
    (imageType : jsstring) (fs : FS) :
  snd (downloadImage pf url p imageType fs) = fs
  \/ exists d, snd (downloadImage pf url p imageType fs) = <[p := File d]> fs.
Proof.
  unfold downloadImage.
  destruct (writeFileSync p [] fs) as [opened|e] eqn:W; [|by left].
  apply writeFileSync_ok in W as ->. right.
  destruct (https_get pf url) as [statusCode body|m]; [|by eexists].
  destruct (statusCode =? 200)%Z; cbn [snd]; [|by eexists].
  exists body. apply insert_insert_eq.
Qed.

Lemma downloadOne_effect (pf : Platform) (imagePath : option jsstring)
    (size : jsstring) (filmDir : path) (fileName imageType : jsstring)
    (fs : FS) (r : result unit) (fs' : FS) :
  downloadOne pf imagePath size filmDir fileName imageType fs = (r, fs') ->
  fs' = fs \/ exists d, fs' = <[child filmDir fileName := File d]> fs.
Proof.
  unfold downloadOne, bind, read, ret, settled.
  destruct (present imagePath) as [p|]; [|intros [= _ <-]; by left].
  destruct (buildImageUrl pf p size fs) as [url|e]; [|intros [= _ <-]; by left].
  destruct url as [|c url]; [intros [= _ <-]; by left|].
  pose proof (downloadImage_effect pf (c :: url) (child filmDir fileName)
                imageType fs) as Heff.
  destruct (downloadImage pf (c :: url) (child filmDir fileName) imageType fs)
    as [[[]|[]] fs0]; intros [= _ <-]; exact Heff.
Qed.

(** A download whose file can be opened settles. *)
Lemma downloadImage_settles (pf : Platform) (url : jsstring) (filmDir : path)
    (fileName imageType : jsstring) (fs : FS) :
  is_dir fs filmDir = true ->
  fs !! child filmDir fileName <> Some Dir ->
  exists fs',
    settled (downloadImage pf url (child filmDir fileName) imageType) fs
    = (Ok tt, fs').
Proof.
  intros Hdir Hfile. unfold settled, downloadImage.
  rewrite (writeFileSync_child fs filmDir fileName [] Hdir Hfile).
  destruct (https_get pf url) as [statusCode body|m]; [|by eexists].
  destruct (statusCode =? 200)%Z; by eexists.
Qed.

(** With a configuration that loads and a file that can be opened, one
    download step completes. *)
Lemma downloadOne_ok (pf : Platform) (imagePath : option jsstring)
    (size : jsstring) (filmDir : path) (fileName imageType : jsstring)
    (fs : FS) (config : ConfigFile) :
  loadConfig pf fs = Ok config ->
  is_dir fs filmDir = true ->
  fs !! child filmDir fileName <> Some Dir ->
  exists fs', downloadOne pf imagePath size filmDir fileName imageType fs
              = (Ok tt, fs').
Proof.
  intros Hload Hdir Hfile. unfold downloadOne, bind, read, ret, buildImageUrl.
  destruct (present imagePath) as [p|]; [|by eexists].
  rewrite Hload. cbn [bind_result].
  match goal with
  | |- context [match ?u with [] => _ | _ :: _ => _ end] => destruct u
  end; [by eexists|].
  by apply downloadImage_settles.
Qed.

Lemma image_path_not_config (pf : Platform) (filmDir : path) :
  configPath pf ∉ [ child filmDir (js "poster.jpg"); child filmDir (js "backdrop.jpg") ].
Proof.
  intros H. apply elem_of_cons in H as [H|H].
  - revert H. apply child_last_ne. js_neq.
  - apply list_elem_of_singleton in H. revert H. apply child_last_ne. js_neq.
Qed.

Lemma loadConfig_insert (pf : Platform) (fs : FS) (p : path) (n : node) :
  p <> configPath pf -> loadConfig pf (<[p := n]> fs) = loadConfig pf fs.
Proof. intros H. apply loadConfig_ext. by apply lookup_insert_ne. Qed.

Lemma downloadFilmImages_ok (pf : Platform) (film : Film) (filmDir : path)
    (fs : FS) (config : ConfigFile) :
  loadConfig pf fs = Ok config ->
  is_dir fs filmDir = true ->
  fs !! child filmDir (js "poster.jpg") <> Some Dir ->
  fs !! child filmDir (js "backdrop.jpg") <> Some Dir ->
  exists fs', downloadFilmImages pf film filmDir fs = (Ok tt, fs').
Proof.
  intros Hload Hdir Hposter Hbackdrop. unfold downloadFilmImages, bind.
  destruct (downloadOne_ok pf (posterPath film) (js "w500") filmDir
              (js "poster.jpg") (js "poster") fs config Hload Hdir Hposter)
    as [fs1 H1].
  rewrite H1.
  apply downloadOne_effect in H1 as [->|[d ->]].
  { by apply (downloadOne_ok pf _ _ _ _ _ fs config). }
  apply (downloadOne_ok pf _ _ _ _ _ _ config).
  - rewrite loadConfig_insert; [done|]. apply child_last_ne. js_neq.
  - by rewrite is_dir_insert_ne by (intros E; by apply (child_ne_self filmDir (js "poster.jpg"))).
  - rewrite lookup_insert_ne; [done|]. apply child_last_ne. js_neq.
Qed.

Lemma downloadFilmImages_effect (pf : Platform) (film : Film) (filmDir : path)
    (fs : FS) (r : result unit) (fs' : FS) :
  downloadFilmImages pf film filmDir fs = (r, fs') ->
  writes_within
    [ child filmDir (js "poster.jpg"); child filmDir (js "backdrop.jpg") ] fs fs'.
Proof.
  unfold downloadFilmImages, bind.
  destruct (downloadOne pf (posterPath film) (js "w500") filmDir
              (js "poster.jpg") (js "poster") fs) as [[[]|e] fs1] eqn:H1.
  - intros H2. apply downloadOne_effect in H1, H2.
    apply (writes_within_trans _ fs fs1).
    + destruct H1 as [->|[d ->]]; [apply writes_within_refl|].
      apply writes_within_insert. in_list.
    + destruct H2 as [->|[d ->]]; [apply writes_within_refl|].
      apply writes_within_insert. in_list.
  - intros [= _ <-]. apply downloadOne_effect in H1.
    destruct H1 as [->|[d ->]]; [apply writes_within_refl|].
    apply writes_within_insert. in_list.
Qed.

(** *** The network does not decide the outcome *)

Lemma alike_refl (pf : Platform) (filmDir : path) (fs : FS) :
  alike pf filmDir fs fs.
Proof. by repeat split. Qed.

Lemma alike_insert_file (pf : Platform) (filmDir : path) (fs fs' : FS)
    (x d d' : jsstring) :
  child filmDir x <> configPath pf ->
  alike pf filmDir fs fs' ->
  alike pf filmDir (<[child filmDir x := File d]> fs)
    (<[child filmDir x := File d']> fs').
Proof.
  intros Hc (Hconfig & Hdir & Hsub). split; [|split].
  - by rewrite !lookup_insert_ne.
  - rewrite !is_dir_insert_ne; [done|..];
      intros E; by apply (child_ne_self filmDir x).
  - intros y. destruct (decide (x = y)) as [<-|Hne].
    + by rewrite !lookup_insert_eq.
    + rewrite !lookup_insert_ne; [apply Hsub|..];
        intros E; by apply child_inj in E.
Qed.

(** Whether a file can be opened is the same in file systems that are
    alike. *)
Lemma writeFileSync_alike (pf : Platform) (filmDir : path) (fs fs' : FS)
    (x d d' : jsstring) :
  alike pf filmDir fs fs' ->
  match writeFileSync (child filmDir x) d fs,
        writeFileSync (child filmDir x) d' fs' with
  | Ok opened, Ok opened' =>
      opened = <[child filmDir x := File d]> fs
      /\ opened' = <[child filmDir x := File d']> fs'
  | Throw e, Throw e' => e = e'
  | _, _ => False
  end.
Proof.
  intros (_ & Hdir & Hsub). unfold writeFileSync.
  rewrite dirname_child, <- Hdir.
  destruct (child filmDir x) as [|a p] eqn:E.
  { exfalso. unfold child in E. by destruct filmDir. }
  destruct (is_dir fs filmDir); cbn [negb]; [|done].
  specialize (Hsub x). rewrite E in Hsub.
  destruct Hsub as [Hsub1 Hsub2].
  repeat case_match; simplify_eq; try done;
    first [discriminate (Hsub1 eq_refl) | discriminate (Hsub2 eq_refl)].
Qed.

Lemma downloadOne_alike (pf : Platform) (net : jsstring -> http_response)
    (imagePath : option jsstring) (size : jsstring) (filmDir : path)
    (fileName imageType : jsstring) (fs fs' : FS) :
  child filmDir fileName <> configPath pf ->
  alike pf filmDir fs fs' ->
  fst (downloadOne (with_network pf net) imagePath size filmDir fileName imageType fs)
  = fst (downloadOne pf imagePath size filmDir fileName imageType fs')
  /\ alike pf filmDir
       (snd (downloadOne (with_network pf net) imagePath size filmDir fileName
               imageType fs))
       (snd (downloadOne pf imagePath size filmDir fileName imageType fs')).
Proof.
  intros Hc Halike. unfold downloadOne, bind, read, ret.
  destruct (present imagePath) as [p|]; [|done].
  assert (Hurl : buildImageUrl (with_network pf net) p size fs
                 = buildImageUrl pf p size fs').
  { unfold buildImageUrl.
    change (loadConfig (with_network pf net) fs) with (loadConfig pf fs).
    by rewrite (loadConfig_ext pf fs fs' (proj1 Halike)). }
  rewrite Hurl. destruct (buildImageUrl pf p size fs') as [url|e]; [|done].
  destruct url as [|c url]; [done|].
  unfold settled, downloadImage.
  pose proof (writeFileSync_alike pf filmDir fs fs' fileName [] [] Halike) as Hw.
  destruct (writeFileSync (child filmDir fileName) [] fs) as [opened|e],
           (writeFileSync (child filmDir fileName) [] fs') as [opened'|e'];
    try done.
  - destruct Hw as [-> ->].
    cbn [https_get with_network].
    destruct (net (c :: url)) as [statusCode body|m],
             (https_get pf (c :: url)) as [statusCode' body'|m'];
      try destruct (statusCode =? 200)%Z; try destruct (statusCode' =? 200)%Z;
      cbn [fst snd]; (split; [done|]);
      rewrite ?insert_insert_eq; by apply alike_insert_file.
  - by subst e'.
Qed.

Lemma downloadFilmImages_alike (pf : Platform) (net : jsstring -> http_response)
    (film : Film) (filmDir : path) (fs : FS) :
  fst (downloadFilmImages (with_network pf net) film filmDir fs)
  = fst (downloadFilmImages pf film filmDir fs).
Proof.
  unfold downloadFilmImages, bind.
  destruct (downloadOne_alike pf net (posterPath film) (js "w500") filmDir
              (js "poster.jpg") (js "poster") fs fs) as [H1 A1];
    [apply child_last_ne; js_neq|apply alike_refl|].
  destruct (downloadOne (with_network pf net) (posterPath film) (js "w500")
              filmDir (js "poster.jpg") (js "poster") fs) as [r1 fs1],
           (downloadOne pf (posterPath film) (js "w500") filmDir
              (js "poster.jpg") (js "poster") fs) as [r1' fs1'].
  cbn [fst snd] in H1, A1. subst r1'. destruct r1 as [[]|e]; [|done].
  apply downloadOne_alike; [apply child_last_ne; js_neq|done].
Qed.

(** The name of a film directory is never an absolute path. *)
Lemma createFilmDirectoryName_relative (filmId : Z) (filmTitle : jsstring) :
  is_absolute (createFilmDirectoryName filmId filmTitle) = false.
Proof.
  unfold createFilmDirectoryName.
  pose proof (Number_toString_chars filmId) as Hc.
  pose proof (Number_toString_nonempty filmId) as Hn.
  destruct (Number_toString filmId) as [|c s]; [done|]. cbn.
  inversion Hc as [|? ? [Hd| ->] _]; [|done].
  unfold is_digit in Hd. unfold slash. apply N.eqb_neq. lia.
Qed.

(** What a save that completes has done. *)
Lemma saveFilm_inv (pf : Platform) (film : Film) (outputDir : option jsstring)
    (fs : FS) (dir : path) (fs' : FS) :
  saveFilm pf film outputDir fs = (Ok dir, fs') ->
  exists (config : ConfigFile) (s : jsstring),
    loadConfig pf fs = Ok config
    /\ baseOutputDir outputDir config = JStr s
    /\ dir = path_join (path_resolve (cwd pf) s)
               (createFilmDirectoryName (id film) (title film))
    /\ fs' !! child dir (js "data.json")
       = Some (File (JSON_stringify pf (js_of_film film)))
    /\ (fs' !! configPath pf = fs !! configPath pf
        \/ (fs !! configPath pf = None /\ fs' !! configPath pf = Some Dir)).
Proof.
  unfold saveFilm, try_rethrow, bind, read, ret.
  destruct (loadConfig pf fs) as [config|] eqn:Hload; [|done].
  unfold resolveFilmDir.
  destruct (baseOutputDir outputDir config) as [| | | |s| |] eqn:Hbase; try done.
  set (name := createFilmDirectoryName (id film) (title film)).
  set (filmDir := path_resolve2 (cwd pf) s name).
  destruct (ensureDirectoryExists filmDir fs) as [[[]|] fs1] eqn:H1; [|done].
  destruct (writeJsonFile pf (child filmDir (js "data.json")) (js_of_film film) fs1)
    as [[[]|] fs2] eqn:H2; [|done].
  destruct (writeTextFile (child filmDir (js "metadata.txt"))
              (generateMetadataText pf film) fs2) as [[[]|] fs3] eqn:H3; [|done].
  set (images := if truthy (obj_get (user config) (js "downloadImages"))
                 then downloadFilmImages pf film filmDir
                 else (fun fs => (Ok tt, fs))).
  destruct (images fs3) as [[[]|] fs4] eqn:H4; [|done].
  intros [= <- <-]. exists config, s.
  apply ensureDirectoryExists_grows in H1.
  apply writeJsonFile_ok in H2 as (fs1' & G2 & ->).
  apply writeTextFile_ok in H3 as (fs2' & G3 & ->).
  assert (W4 : writes_within
                 [ child filmDir (js "poster.jpg"); child filmDir (js "backdrop.jpg") ]
                 (<[child filmDir (js "metadata.txt") :=
                      File (generateMetadataText pf film)]> fs2') fs4).
  { subst images. destruct (truthy _).
    - by eapply downloadFilmImages_effect.
    - injection H4 as <-. apply writes_within_refl. }
  split; [done|]. split; [done|]. split.
  { subst filmDir name. unfold path_resolve2.
    by rewrite createFilmDirectoryName_relative. }
  split.
  - eapply writes_within_lookup; [exact W4| |].
    + intros H. apply elem_of_cons in H as [H|H].
      * revert H. apply child_last_ne. js_neq.
      * apply list_elem_of_singleton in H. revert H. apply child_last_ne. js_neq.
    + rewrite lookup_insert_ne by (apply child_last_ne; js_neq).
      eapply grows_lookup_Some; [exact G3|]. apply lookup_insert_eq.
  - set (written := [ child filmDir (js "data.json");
                      child filmDir (js "metadata.txt");
                      child filmDir (js "poster.jpg");
                      child filmDir (js "backdrop.jpg") ]).
    assert (Wall : writes_within written fs fs4).
    { apply (writes_within_trans written fs fs1);
        [by apply writes_within_grows|].
      apply (writes_within_trans written fs1 fs1');
        [by apply writes_within_grows|].
      apply (writes_within_trans written fs1'
               (<[child filmDir (js "data.json") :=
                    File (JSON_stringify pf (js_of_film film))]> fs1'));
        [apply writes_within_insert; in_list|].
      apply (writes_within_trans written _ fs2');
        [by apply writes_within_grows|].
      apply (writes_within_trans written fs2'
               (<[child filmDir (js "metadata.txt") :=
                    File (generateMetadataText pf film)]> fs2'));
        [apply writes_within_insert; in_list|].
      eapply writes_within_mono; [|exact W4].
      intros p Hp. apply elem_of_cons in Hp as [->|Hp]; [in_list|].
      apply list_elem_of_singleton in Hp as ->. in_list. }
    apply Wall. subst written. intros H.
    repeat (apply elem_of_cons in H as [H|H];
            [revert H; apply child_last_ne; js_neq|]).
    by apply elem_of_nil in H.
Qed.

End SaveFacts.

Module SaveTheorems.
Import Types ConfigManager StorageService FileHelpers.
Import JsStringFacts FsFacts ConfigManagerFacts SaveFacts.

(** C1 as stated fails: with the path of the configuration file as base
    directory the save of a film without images completes and makes
    config.json a directory on its way; getSavedFilm then throws, because
    it loads the configuration first. *)
Lemma saveFilm_getSavedFilm_fails_below_config_path :
  JSON_parse Demo.silent_platform
    (JSON_stringify Demo.silent_platform (js_of_film Demo.silent))
  = Some (js_of_film Demo.silent)
  /\ fst (saveFilm Demo.silent_platform Demo.silent
            (Some (js "/home/ada/.reel-cli/config.json")) Demo.fresh)
     = Ok (child (child (child Demo.home (js ".reel-cli")) (js "config.json"))
             (js "11-Silent"))
  /\ getSavedFilm Demo.silent_platform
       (createFilmDirectoryName (id Demo.silent) (title Demo.silent))
       (Some (js "/home/ada/.reel-cli/config.json"))
       (snd (saveFilm Demo.silent_platform Demo.silent
               (Some (js "/home/ada/.reel-cli/config.json")) Demo.fresh))
     = Throw (FileSystemError
                (js "Failed to get saved film: Failed to load configuration: EISDIR")
                (js "11-Silent") (js "read")).
Proof. split; [|split]; vm_compute; reflexivity. Qed.

(** C1, amended. After a save that completed, getSavedFilm on the directory
    name of the film returns the film as it was saved, whatever the image
    downloads did meanwhile, provided the configuration loads after the
    save; it takes that the platform's JSON functions give the film back
    from its own text. *)
Theorem saveFilm_getSavedFilm_round_trip (pf : Platform) (film : Film)
    (outputDir : option jsstring) (fs : FS) (dir : path) (fs' : FS) :
  saveFilm pf film outputDir fs = (Ok dir, fs') ->
  JSON_parse pf (JSON_stringify pf (js_of_film film)) = Some (js_of_film film) ->
  is_ok (loadConfig pf fs') = true ->
  getSavedFilm pf (createFilmDirectoryName (id film) (title film)) outputDir fs'
  = Ok (js_of_film film).
Proof.
  intros Hsave Hjson Hconfig.
  apply saveFilm_inv in Hsave as (config & s & Hload & Hbase & -> & Hdata & Hsame).
  assert (Hload' : loadConfig pf fs' = Ok config).
  { destruct Hsame as [E|[_ E]].
    - by rewrite (loadConfig_ext pf fs' fs E).
    - by rewrite (loadConfig_of_dir pf fs' E) in Hconfig. }
  unfold getSavedFilm. rewrite Hload'. cbn [bind_result].
  rewrite Hbase. cbn [path_arg bind_result].
  unfold fileExists, readFileSync.
  rewrite existsSync_child, lookup_node_child, Hdata.
  rewrite bool_decide_eq_true_2 by eauto. cbn [negb bind_result].
  unfold parse. by rewrite Hjson.
Qed.

Lemma pair_of_fst {A B} (p : A * B) (a : A) : fst p = a -> p = (a, snd p).
Proof. intros <-. by destruct p. Qed.

Lemma saveFilm_getSavedFilm_round_trip_witness :
  getSavedFilm (Demo.platform Demo.offline)
    (createFilmDirectoryName (id Demo.matrix) (title Demo.matrix)) None
    (snd (saveFilm (Demo.platform Demo.offline) Demo.matrix None Demo.fresh))
  = Ok (js_of_film Demo.matrix).
Proof.
  apply (saveFilm_getSavedFilm_round_trip (Demo.platform Demo.offline)
           Demo.matrix None Demo.fresh Demo.matrix_dir).
  - apply pair_of_fst. vm_compute. reflexivity.
  - vm_compute. reflexivity.
  - vm_compute. reflexivity.
Defined.

(** C6 as stated fails: in [Demo.blocked] the film directory is there and
    data.json is written, every download would succeed, and the save
    throws, because metadata.txt cannot be written. *)
Lemma saveFilm_fails_on_metadata :
  fst (ensureDirectoryExists Demo.matrix_dir Demo.blocked) = Ok tt
  /\ fst (writeJsonFile (Demo.platform Demo.online)
            (child Demo.matrix_dir (js "data.json"))
            (js_of_film Demo.matrix)
            (snd (ensureDirectoryExists Demo.matrix_dir Demo.blocked))) = Ok tt
  /\ fst (saveFilm (Demo.platform Demo.online) Demo.matrix None Demo.blocked)
     = Throw (FileSystemError
                (js "Failed to save film data: Failed to write text file: EISDIR")
                (js "unknown") (js "save")).
Proof. split; [|split]; vm_compute; reflexivity. Qed.

(** C6, amended. When the configuration loads, at the start and after the
    writes, directory creation, the data.json write and the metadata.txt
    write succeed, and neither poster.jpg nor backdrop.jpg is a directory
    there, saveFilm completes and returns the film directory, whatever the
    network answers to the image requests. *)
Theorem saveFilm_survives_failed_downloads (pf : Platform) (film : Film)
    (outputDir : option jsstring) (fs fs1 fs2 fs3 : FS) (config : ConfigFile)
    (filmDir : path) :
  loadConfig pf fs = Ok config ->
  resolveFilmDir pf (baseOutputDir outputDir config)
    (createFilmDirectoryName (id film) (title film)) = Ok filmDir ->
  ensureDirectoryExists filmDir fs = (Ok tt, fs1) ->
  writeJsonFile pf (child filmDir (js "data.json")) (js_of_film film) fs1
  = (Ok tt, fs2) ->
  writeTextFile (child filmDir (js "metadata.txt")) (generateMetadataText pf film) fs2
  = (Ok tt, fs3) ->
  loadConfig pf fs3 = Ok config ->
  fs3 !! child filmDir (js "poster.jpg") <> Some Dir ->
  fs3 !! child filmDir (js "backdrop.jpg") <> Some Dir ->
  forall net : jsstring -> http_response,
    fst (saveFilm (with_network pf net) film outputDir fs) = Ok filmDir.
Proof.
  intros Hload Hdir H1 H2 H3 Hload3 Hposter Hbackdrop net.
  unfold saveFilm, try_rethrow, bind, read, ret.
  change (loadConfig (with_network pf net) fs) with (loadConfig pf fs).
  rewrite Hload.
  change (resolveFilmDir (with_network pf net)) with (resolveFilmDir pf).
  rewrite Hdir, H1.
  change (writeJsonFile (with_network pf net)) with (writeJsonFile pf).
  rewrite H2.
  change (generateMetadataText (with_network pf net)) with (generateMetadataText pf).
  rewrite H3.
  destruct (truthy (obj_get (user config) (js "downloadImages"))); [|done].
  destruct (downloadFilmImages_ok (with_network pf net) film filmDir fs3 config)
    as [fs4 ->]; try done.
  by eapply writeTextFile_parent.
Qed.

Lemma saveFilm_survives_failed_downloads_witness :
  fst (saveFilm (with_network (Demo.platform Demo.online) Demo.offline)
         Demo.matrix None Demo.fresh)
  = Ok Demo.matrix_dir.
Proof.
  set (pf := Demo.platform Demo.online).
  set (fs1 := snd (ensureDirectoryExists Demo.matrix_dir Demo.fresh)).
  set (fs2 := snd (writeJsonFile pf (child Demo.matrix_dir (js "data.json"))
                     (js_of_film Demo.matrix) fs1)).
  set (fs3 := snd (writeTextFile (child Demo.matrix_dir (js "metadata.txt"))
                     (generateMetadataText pf Demo.matrix) fs2)).
  apply (saveFilm_survives_failed_downloads pf Demo.matrix None Demo.fresh
           fs1 fs2 fs3 (createDefaultConfig pf) Demo.matrix_dir).
  - vm_compute. reflexivity.
  - vm_compute. reflexivity.
  - apply pair_of_fst. vm_compute. reflexivity.
  - apply pair_of_fst. vm_compute. reflexivity.
  - apply pair_of_fst. vm_compute. reflexivity.
  - vm_compute. reflexivity.
  - vm_compute. discriminate.
  - vm_compute. discriminate.
Defined.

(** Whether a save completes, with which directory, and with which
    exception otherwise, does not depend on what the network answers. *)
Lemma saveFilm_outcome_network_free (pf : Platform) (film : Film)
    (outputDir : option jsstring) (fs : FS) (net : jsstring -> http_response) :
  fst (saveFilm (with_network pf net) film outputDir fs)
  = fst (saveFilm pf film outputDir fs).
Proof.
  unfold saveFilm, try_rethrow, bind, read, ret.
  change (loadConfig (with_network pf net) fs) with (loadConfig pf fs).
  destruct (loadConfig pf fs) as [config|]; [|done].
  change (resolveFilmDir (with_network pf net)) with (resolveFilmDir pf).
  destruct (resolveFilmDir pf _ _) as [filmDir|]; [|done].
  destruct (ensureDirectoryExists filmDir fs) as [[[]|] fs1]; [|done].
  change (writeJsonFile (with_network pf net)) with (writeJsonFile pf).
  destruct (writeJsonFile pf _ _ fs1) as [[[]|] fs2]; [|done].
  change (generateMetadataText (with_network pf net)) with (generateMetadataText pf).
  destruct (writeTextFile _ _ fs2) as [[[]|] fs3]; [|done].
  destruct (truthy (obj_get (user config) (js "downloadImages"))); [|done].
  pose proof (downloadFilmImages_alike pf net film filmDir fs3) as H.
  destruct (downloadFilmImages (with_network pf net) film filmDir fs3) as [r fs4],
           (downloadFilmImages pf film filmDir fs3) as [r' fs4'].
  cbn [fst] in H. subst r'. by destruct r as [[]|].
Qed.

End SaveTheorems.

(** * Further properties of the code *)

(** ** File and directory names *)

Module SanitizeFacts.
Import JsStringFacts FileHelpersFacts FileHelpers.

Lemma drop_while_nil_iff p s :
  drop_while p s = [] <-> Forall (fun c => p c = true) s.
Proof.
  induction s as [|c s IH]; simpl; [split; [constructor|done]|].
  destruct (p c) eqn:E.
  - rewrite IH. split; [by constructor|by inversion 1].
  - split; [done|]. inversion 1; congruence.
Qed.

Lemma drop_while_end_nil_iff p s :
  drop_while_end p s = [] <-> Forall (fun c => p c = true) s.
Proof.
  unfold drop_while_end. split.
  - intros H. apply (f_equal (@rev _)) in H. rewrite rev_involutive in H.
    simpl in H. apply drop_while_nil_iff in H.
    rewrite <- (rev_involutive s). by apply Forall_rev.
  - intros H. apply Forall_rev in H. apply drop_while_nil_iff in H.
    by rewrite H.
Qed.

Lemma drop_while_Forall_iff p s :
  Forall (fun c => p c = true) (drop_while p s)
  <-> Forall (fun c => p c = true) s.
Proof.
  induction s as [|c s IH]; simpl; [done|].
  destruct (p c) eqn:E; [|done].
  rewrite IH. split; [by constructor|by inversion 1].
Qed.

Lemma strip_hyphens_nil_iff s :
  strip_hyphens s = [] <-> Forall (fun c => is_hyphen c = true) s.
Proof.
  unfold strip_hyphens. by rewrite drop_while_end_nil_iff, drop_while_Forall_iff.
Qed.

(** A collapsed string is made of the replacement alone exactly when the
    original was made of the class and the replacement. *)
Lemma replace_runs_from_all p r b s :
  Forall (fun c => c = r) (replace_runs_from p r b s)
  <-> Forall (fun c => p c = true \/ c = r) s.
Proof.
  revert b. induction s as [|c s IH]; intros b; simpl; [done|].
  destruct (p c) eqn:E.
  - destruct b.
    + rewrite IH. split; [constructor; auto|by inversion 1].
    + rewrite Forall_cons, IH. split; [intros [_ ?]; constructor; auto|].
      inversion 1; auto.
  - rewrite !Forall_cons, IH. split.
    + intros [-> ?]. auto.
    + intros [[?| ->] ?]; [congruence|done].
Qed.

Lemma collapsed_hyphens_iff s :
  Forall (fun c => is_hyphen c = true) (collapsed s)
  <-> Forall (fun c => junk c = true) s.
Proof.
  assert (Hh : forall t, Forall (fun c => is_hyphen c = true) t
                         <-> Forall (fun c => c = hyphen) t).
  { intros t. apply Forall_iff. intros c. unfold is_hyphen. apply N.eqb_eq. }
  rewrite Hh. unfold collapsed, replace_runs.
  rewrite replace_runs_from_all.
  rewrite <- (Forall_iff (fun c => c = hyphen))
    by (intros c; unfold is_hyphen; rewrite N.eqb_eq; tauto).
  rewrite replace_runs_from_all. unfold replace_each.
  rewrite Forall_fmap. apply Forall_iff. intros c. unfold junk, compose.
  destruct (is_invalid_char c) eqn:Ei; simpl.
  { split; auto. }
  destruct (is_whitespace c) eqn:Ew; simpl.
  { split; auto. }
  unfold is_hyphen. rewrite N.eqb_eq. split; [intros [?|?]; [done|done]|auto].
Qed.

Lemma sanitizeFilename_clean (s : jsstring) :
  clean_name s -> sanitizeFilename s = s.
Proof.
  intros (Hsafe & Hdouble & Hstart & Hend & Hlen).
  rewrite sanitizeFilename_unfold. unfold collapsed.
  rewrite replace_each_id
    by (eapply Forall_impl; [exact Hsafe|]; by intros c [? ?]).
  unfold replace_runs at 2. rewrite replace_runs_from_id
    by (eapply Forall_impl; [exact Hsafe|]; by intros c [? ?]).
  rewrite replace_hyphen_runs_id by done.
  unfold strip_hyphens. rewrite drop_while_id by done.
  rewrite (proj2 (drop_while_end_fixed is_hyphen s)) by done.
  by apply take_ge.
Qed.

Lemma take_fixed {A} (n : nat) (l : list A) : take n l = l -> (length l <= n)%nat.
Proof. intros H. apply (f_equal length) in H. rewrite length_take in H. lia. Qed.

Lemma sanitizeFilename_fixed_clean (s : jsstring) :
  sanitizeFilename s = s -> clean_name s.
Proof.
  intros H.
  assert (Hsafe : Forall safe_char s) by (rewrite <- H; apply sanitizeFilename_safe).
  assert (Hdouble : no_double is_hyphen s)
    by (rewrite <- H; apply sanitizeFilename_no_double).
  assert (Hstart : starts_with is_hyphen s = false)
    by (rewrite <- H; apply sanitizeFilename_starts).
  assert (Hlen : (length s <= 255)%nat)
    by (rewrite <- H; apply sanitizeFilename_length).
  repeat split; try done.
  apply drop_while_end_fixed.
  revert H. rewrite sanitizeFilename_unfold. unfold collapsed.
  rewrite replace_each_id
    by (eapply Forall_impl; [exact Hsafe|]; by intros c [? ?]).
  unfold replace_runs at 2. rewrite replace_runs_from_id
    by (eapply Forall_impl; [exact Hsafe|]; by intros c [? ?]).
  rewrite replace_hyphen_runs_id by done.
  unfold strip_hyphens. rewrite drop_while_id by done.
  destruct (drop_while_end_prefix is_hyphen s) as [n ->].
  rewrite take_take. intros H. apply take_fixed in H.
  apply take_ge. lia.
Qed.

(** The last segment of a string. *)
Lemma last_segment (sep : code_unit) (s : jsstring) :
  Forall (fun c => c <> sep) s
  \/ exists a b, s = a ++ sep :: b /\ Forall (fun c => c <> sep) b.
Proof.
  induction s as [|c s IH]; [by left|].
  destruct IH as [Hs|(a & b & -> & Hb)].
  - destruct (decide (c = sep)) as [->|Hc].
    + right. by exists [], s.
    + left. by constructor.
  - right. by exists (c :: a), b.
Qed.

Lemma split_on_snoc sep a b :
  Forall (fun c => c <> sep) b ->
  split_on sep (a ++ sep :: b) = split_on sep a ++ [b].
Proof.
  intros Hb. induction a as [|c a IH]; simpl.
  - by rewrite N.eqb_refl, split_on_plain.
  - destruct (c =? sep); rewrite IH; [done|].
    pose proof (split_on_nonempty sep a).
    by destruct (split_on sep a).
Qed.

Lemma list_extractFilmName_cut (a b : jsstring) :
  Forall (fun c => c <> hyphen) b ->
  ListCommand.extractFilmName (a ++ hyphen :: b) = a.
Proof.
  intros Hb. unfold ListCommand.extractFilmName.
  rewrite split_on_snoc by done.
  rewrite length_app, removelast_last.
  pose proof (split_on_nonempty hyphen a).
  destruct (split_on hyphen a) as [|w ws] eqn:E; [done|].
  simpl length. rewrite Nat.add_comm. simpl Nat.ltb.
  rewrite <- E. apply join_split.
Qed.

End SanitizeFacts.

Module NameExtras.
Import JsStringFacts FileHelpersFacts SanitizeFacts FileHelpers.

(** X1. The sanitized name is empty exactly when the title holds nothing
    but invalid characters, whitespace and hyphens; the directory of such a
    film is named by its id and a hyphen alone. *)
Theorem sanitizeFilename_empty_iff (s : jsstring) :
  (sanitizeFilename s = [] <-> Forall (fun c => junk c = true) s)
  /\ (Forall (fun c => junk c = true) s ->
      forall filmId : Z,
        createFilmDirectoryName filmId s = Number_toString filmId ++ [hyphen]).
Proof.
  assert (H : sanitizeFilename s = [] <-> Forall (fun c => junk c = true) s).
  { rewrite sanitizeFilename_unfold, <- collapsed_hyphens_iff, <- strip_hyphens_nil_iff.
    split; [|by intros ->].
    intros E. by destruct (strip_hyphens (collapsed s)). }
  split; [exact H|].
  intros Hjunk filmId. unfold createFilmDirectoryName.
  by rewrite (proj2 H Hjunk).
Qed.

Lemma sanitizeFilename_empty_iff_witness :
  sanitizeFilename (js "?? - **") = []
  /\ createFilmDirectoryName 603 (js "?? - **") = js "603-".
Proof.
  assert (Hjunk : Forall (fun c => junk c = true) (js "?? - **"))
    by (vm_compute; repeat constructor).
  split.
  - by apply (proj1 (sanitizeFilename_empty_iff (js "?? - **"))).
  - by apply (proj2 (sanitizeFilename_empty_iff (js "?? - **"))).
Defined.

(** X2. The names the sanitizer returns unchanged are exactly the clean
    ones: no invalid character, no whitespace, no two hyphens in a row, no
    hyphen at either end, at most 255 code units. *)
Theorem sanitizeFilename_fixed_iff (s : jsstring) :
  sanitizeFilename s = s <-> clean_name s.
Proof. split; [apply sanitizeFilename_fixed_clean|apply sanitizeFilename_clean]. Qed.

Lemma sanitizeFilename_fixed_iff_witness :
  sanitizeFilename (js "The-Matrix") = js "The-Matrix".
Proof.
  apply (proj2 (sanitizeFilename_fixed_iff (js "The-Matrix"))).
  repeat split; try (vm_compute; lia).
  all: vm_compute; repeat constructor.
Defined.

(** X3. The export command's file name is the first 100 code units of the
    name the storage gives the same title; so it has at most 100 code
    units, none of them invalid or whitespace, and no hyphen in front. *)
Theorem sanitizeFileName_prefix (s : jsstring) :
  ExportCommand.sanitizeFileName s = take 100 (sanitizeFilename s)
  /\ (length (ExportCommand.sanitizeFileName s) <= 100)%nat
  /\ Forall safe_char (ExportCommand.sanitizeFileName s)
  /\ starts_with is_hyphen (ExportCommand.sanitizeFileName s) = false.
Proof.
  assert (H : ExportCommand.sanitizeFileName s = take 100 (sanitizeFilename s)).
  { rewrite sanitizeFilename_unfold, take_take. reflexivity. }
  split; [exact H|]. rewrite H.
  split; [rewrite length_take; lia|].
  split; [apply Forall_take, sanitizeFilename_safe|].
  apply starts_with_take, sanitizeFilename_starts.
Qed.

(** X4. The two extractFilmName helpers cut a name at a hyphen and differ
    in which one: the list command cuts at the last hyphen and keeps what
    is before it, the export command cuts at the first hyphen and keeps
    what is after it; both return a name without a hyphen as it is. *)
Theorem extractFilmName_cuts (a b : jsstring) :
  (Forall (fun c => c <> hyphen) b ->
   ListCommand.extractFilmName b = b
   /\ ListCommand.extractFilmName (a ++ hyphen :: b) = a)
  /\ (Forall (fun c => c <> hyphen) a ->
      ExportCommand.extractFilmName a = a
      /\ ExportCommand.extractFilmName (a ++ hyphen :: b) = b).
Proof.
  split.
  - intros Hb. split.
    + unfold ListCommand.extractFilmName. by rewrite split_on_plain.
    + by apply list_extractFilmName_cut.
  - intros Ha. unfold ExportCommand.extractFilmName. split.
    + by rewrite split_on_plain.
    + rewrite split_on_app by done.
      pose proof (split_on_nonempty hyphen b).
      destruct (split_on hyphen b) as [|w ws] eqn:E; [done|].
      change (join_with [hyphen] (w :: ws) = b).
      rewrite <- E. apply join_split.
Qed.

Lemma extractFilmName_cuts_witness :
  ListCommand.extractFilmName (js "603-The" ++ hyphen :: js "Matrix") = js "603-The"
  /\ ExportCommand.extractFilmName (js "603" ++ hyphen :: js "The-Matrix")
     = js "The-Matrix".
Proof.
  split.
  - apply (proj1 (extractFilmName_cuts (js "603-The") (js "Matrix"))).
    vm_compute. repeat constructor; discriminate.
  - apply (proj2 (extractFilmName_cuts (js "603") (js "The-Matrix"))).
    vm_compute. repeat constructor; discriminate.
Defined.

(** X5. On the directory name of a film the list command's
    extractFilmName keeps the id and cuts off what follows the last
    hyphen: its answer begins with the id, the directory name is the
    answer, a hyphen and a rest without hyphen, and the answer is the id
    alone when the sanitized title has no hyphen. *)
Theorem ListCommand_extractFilmName_shows_id (filmId : Z) (filmTitle : jsstring) :
  (exists rest cut : jsstring,
      ListCommand.extractFilmName (createFilmDirectoryName filmId filmTitle)
      = Number_toString filmId ++ rest
      /\ createFilmDirectoryName filmId filmTitle
         = (Number_toString filmId ++ rest) ++ hyphen :: cut
      /\ Forall (fun c => c <> hyphen) cut)
  /\ (Forall (fun c => c <> hyphen) (sanitizeFilename filmTitle) ->
      ListCommand.extractFilmName (createFilmDirectoryName filmId filmTitle)
      = Number_toString filmId).
Proof.
  unfold createFilmDirectoryName. cbv zeta.
  assert (Hplain : Forall (fun c => c <> hyphen) (sanitizeFilename filmTitle) ->
                   ListCommand.extractFilmName
                     (Number_toString filmId ++ hyphen :: sanitizeFilename filmTitle)
                   = Number_toString filmId).
  { intros Hb. by apply list_extractFilmName_cut. }
  split; [|exact Hplain].
  destruct (last_segment hyphen (sanitizeFilename filmTitle))
    as [Hb|(a & b & E & Hb)].
  - exists [], (sanitizeFilename filmTitle). rewrite app_nil_r.
    split; [by apply Hplain|done].
  - exists (hyphen :: a), b. rewrite E.
    change (Number_toString filmId ++ hyphen :: a ++ hyphen :: b)
      with (Number_toString filmId ++ (hyphen :: a) ++ hyphen :: b).
    rewrite app_assoc. split; [by apply list_extractFilmName_cut|done].
Qed.

Lemma ListCommand_extractFilmName_shows_id_witness :
  ListCommand.extractFilmName (createFilmDirectoryName 603 (js "Alien")) = js "603".
Proof.
  apply (proj2 (ListCommand_extractFilmName_shows_id 603 (js "Alien"))).
  vm_compute. repeat constructor; discriminate.
Defined.

End NameExtras.


(** ** Paths as text *)

Module PathFacts.
Import FileHelpers FsFacts JsStringFacts.

(** Where the kernel arrives is where [path.resolve] says. *)
Lemma follow_lexical (fs : FS) (here : path) (segments : list jsstring) (p : path) :
  follow fs here segments = Some p -> p = fold_left push_segment segments here.
Proof.
  revert here. induction segments as [|seg rest IH]; intros here; cbn.
  - by intros [= <-].
  - destruct (is_dir fs here); [apply IH|done].
Qed.

Lemma reach_resolve (cwd : path) (s : jsstring) (fs : FS) (p : path) :
  reach cwd s fs = Some p -> s <> [] /\ p = path_resolve cwd s.
Proof.
  unfold reach, path_resolve, path_join. destruct s as [|c s]; [done|].
  intros H%follow_lexical. split; [done|]. by destruct (is_absolute _).
Qed.

Lemma follow_app (fs : FS) (here : path) (a b : list jsstring) :
  follow fs here (a ++ b)
  = match follow fs here a with
    | Some q => follow fs q b
    | None => None
    end.
Proof.
  revert here. induction a as [|seg a IH]; intros here; cbn; [done|].
  destruct (is_dir fs here); [apply IH|done].
Qed.

Lemma follow_snoc (fs : FS) (here : path) (segments : list jsstring)
    (seg : jsstring) (p : path) :
  follow fs here (segments ++ [seg]) = Some p
  <-> exists q, follow fs here segments = Some q
                /\ is_dir fs q = true /\ p = push_segment q seg.
Proof.
  rewrite follow_app. destruct (follow fs here segments) as [q|]; cbn.
  - destruct (is_dir fs q) eqn:Hq.
    + split; [intros [= <-]; by exists q|]. by intros (q' & [= <-] & _ & ->).
    + split; [done|]. intros (q' & [= <-] & ? & _). congruence.
  - split; [done|]. by intros (q' & ? & _).
Qed.

(** A walk stays a walk where the directories stay directories. *)
Lemma follow_mono (fs fs' : FS) (here : path) (segments : list jsstring) (p : path) :
  (forall q : path, is_dir fs q = true -> is_dir fs' q = true) ->
  follow fs here segments = Some p -> follow fs' here segments = Some p.
Proof.
  intros Hdirs. revert here. induction segments as [|seg rest IH]; intros here; cbn.
  - done.
  - destruct (is_dir fs here) eqn:Hq; [|done]. rewrite (Hdirs _ Hq). apply IH.
Qed.

Lemma reach_mono (cwd : path) (s : jsstring) (fs fs' : FS) (p : path) :
  (forall q : path, is_dir fs q = true -> is_dir fs' q = true) ->
  reach cwd s fs = Some p -> reach cwd s fs' = Some p.
Proof.
  intros Hdirs. unfold reach. destruct s; [done|]. by apply follow_mono.
Qed.

(** Without [..] the walk only descends. *)
Lemma push_segment_prefix (here : path) (seg : jsstring) :
  seg <> dotdot -> here `prefix_of` push_segment here seg.
Proof.
  intros H. unfold push_segment.
  destruct (_ || _); [done|]. rewrite bool_decide_eq_false_2 by done.
  by apply prefix_app_r.
Qed.

Lemma fold_push_prefix (here : path) (segments : list jsstring) :
  Forall (fun seg => seg <> dotdot) segments ->
  here `prefix_of` fold_left push_segment segments here.
Proof.
  intros H. revert here. induction H as [|seg rest Hseg _ IH]; intros here; cbn.
  - done.
  - etrans; [by apply push_segment_prefix|apply IH].
Qed.

Lemma follow_descends (fs : FS) (here : path) (segments : list jsstring) :
  Forall (fun seg => seg <> dotdot) segments ->
  (forall q : path,
      here `prefix_of` q -> q `prefix_of` fold_left push_segment segments here ->
      is_dir fs q = true) ->
  follow fs here segments = Some (fold_left push_segment segments here).
Proof.
  intros H. revert here. induction H as [|seg rest Hseg Hrest IH]; intros here Hd; cbn.
  - done.
  - rewrite Hd; [|done|by apply (fold_push_prefix here (seg :: rest)); constructor].
    apply IH. intros q Hq1 Hq2. apply Hd; [|done].
    etrans; [by apply push_segment_prefix|done].
Qed.

(** *** Normalised texts *)

Lemma kept_dotdot : kept_segment dotdot.
Proof.
  split; [ConfigManagerFacts.js_neq|]. split; [ConfigManagerFacts.js_neq|].
  assert (E : dotdot = [46; 46]) by reflexivity. rewrite E.
  repeat constructor; intros H; vm_compute in H; discriminate H.
Qed.

Lemma Forall_removelast {A} (P : A -> Prop) (l : list A) :
  Forall P l -> Forall P (removelast l).
Proof.
  induction 1 as [|x l Hx Hl IH]; cbn; [done|].
  destruct l; [done|]. by constructor.
Qed.

Lemma normal_segment_kept (absolute : bool) (kept : list jsstring) (seg : jsstring) :
  Forall (fun c => c <> slash) seg ->
  Forall kept_segment kept -> Forall kept_segment (normal_segment absolute kept seg).
Proof.
  intros Hfree Hk. unfold normal_segment.
  destruct (bool_decide_reflect (seg = [])) as [?|H1]; [done|].
  destruct (bool_decide_reflect (seg = dot)) as [?|H2]; [done|]. cbn [orb].
  destruct (bool_decide_reflect (seg = dotdot)) as [?|H3].
  - destruct (last kept) as [l|].
    + destruct (bool_decide (l = dotdot)).
      * destruct absolute; [done|].
        apply Forall_app. split; [done|].
        constructor; [apply kept_dotdot|constructor].
      * by apply Forall_removelast.
    + destruct absolute; [done|]. apply Forall_app. split; [done|].
      constructor; [apply kept_dotdot|constructor].
  - apply Forall_app. split; [done|]. constructor; [done|constructor].
Qed.

Lemma split_on_free (sep : code_unit) (s : jsstring) :
  Forall (Forall (fun c => c <> sep)) (split_on sep s).
Proof.
  induction s as [|c s IH]; cbn; [by repeat constructor|].
  destruct (N.eqb_spec c sep) as [->|Hc]; [by constructor|].
  destruct (split_on sep s) as [|w ws]; [by repeat constructor|].
  inversion IH; subst. by repeat constructor.
Qed.

Lemma fold_normal_kept (absolute : bool) (segments kept : list jsstring) :
  Forall (Forall (fun c => c <> slash)) segments ->
  Forall kept_segment kept ->
  Forall kept_segment (fold_left (normal_segment absolute) segments kept).
Proof.
  intros H. revert kept. induction H as [|seg rest Hseg _ IH]; intros kept Hk; cbn.
  - done.
  - apply IH. by apply normal_segment_kept.
Qed.

Lemma push_kept (q : path) (seg : jsstring) :
  kept_segment seg -> seg <> dotdot -> push_segment q seg = q ++ [seg].
Proof.
  intros (H1 & H2 & _) H3. unfold push_segment.
  by rewrite !bool_decide_eq_false_2.
Qed.

(** The normalised segments lead through directories only that the text
    itself leads through, and to the same place. *)
Lemma follow_normal (fs : FS) (absolute : bool) (start : path)
    (segments : list jsstring) (p : path) :
  (absolute = true -> start = []) ->
  Forall (Forall (fun c => c <> slash)) segments ->
  follow fs start segments = Some p ->
  follow fs start (fold_left (normal_segment absolute) segments []) = Some p
  /\ (absolute = true ->
      dotdot ∉ fold_left (normal_segment absolute) segments []).
Proof.
  intros Hstart Hfree. revert p.
  induction segments as [|seg segments IH] using rev_ind; intros p.
  { cbn. intros [= <-]. split; [done|]. intros _. apply not_elem_of_nil. }
  apply Forall_app in Hfree as [Hfree Hseg].
  pose proof (fold_normal_kept absolute segments [] Hfree (Forall_nil_2 _)) as Hok.
  rewrite fold_left_app. cbn [fold_left].
  set (kept := fold_left (normal_segment absolute) segments []) in *.
  intros (q & Hq & Hdir & ->)%follow_snoc.
  destruct (IH Hfree q Hq) as [Hkept Hno].
  unfold normal_segment, push_segment.
  destruct (bool_decide_reflect (seg = [])) as [?|H1]; [done|].
  destruct (bool_decide_reflect (seg = dot)) as [?|H2]; [done|]. cbn [orb].
  destruct (bool_decide_reflect (seg = dotdot)) as [->|H3].
  - destruct (last kept) as [l|] eqn:Hlast.
    + apply last_Some in Hlast as [kept0 Hk].
      destruct (bool_decide_reflect (l = dotdot)) as [->|Hl].
      * destruct absolute.
        { exfalso. apply (Hno eq_refl). rewrite Hk.
          apply elem_of_app. right. apply list_elem_of_here. }
        split; [|done]. apply follow_snoc. exists q.
        split; [done|]. split; [done|]. unfold push_segment.
        rewrite !bool_decide_eq_false_2 by ConfigManagerFacts.js_neq.
        by rewrite bool_decide_eq_true_2.
      * rewrite Hk in Hkept, Hok, Hno |- *. rewrite removelast_last.
        apply follow_snoc in Hkept as (q0 & Hq0 & _ & ->).
        apply Forall_app in Hok as [_ Hl0]. inversion Hl0 as [|? ? Hl1 _]; subst.
        rewrite (push_kept q0 l Hl1 Hl), removelast_last.
        split; [done|]. intros Ha Hin. apply (Hno Ha).
        apply elem_of_app. by left.
    + apply last_None in Hlast. rewrite Hlast in Hkept |- *.
      cbn in Hkept. injection Hkept as <-.
      destruct absolute.
      * rewrite (Hstart eq_refl). split; [done|]. intros _. apply not_elem_of_nil.
      * split; [|done]. cbn. rewrite Hdir. unfold push_segment.
        rewrite !bool_decide_eq_false_2 by ConfigManagerFacts.js_neq.
        by rewrite bool_decide_eq_true_2.
  - split.
    + apply follow_snoc. exists q. split; [done|]. split; [done|].
      unfold push_segment. by rewrite !bool_decide_eq_false_2.
    + intros Ha. rewrite elem_of_app, list_elem_of_singleton.
      intros [?|?]; [by apply Hno|done].
Qed.

(** *** The text [path.join] makes of a directory and a name *)

Lemma split_join (segments : list jsstring) :
  segments <> [] -> Forall (Forall (fun c => c <> slash)) segments ->
  split_on slash (join_with [slash] segments) = segments.
Proof.
  intros Hne H. induction H as [|w ws Hw Hws IH]; [done|].
  destruct ws as [|w2 ws].
  - cbn. by apply split_on_plain.
  - change (join_with [slash] (w :: w2 :: ws))
      with (w ++ slash :: join_with [slash] (w2 :: ws)).
    rewrite split_on_app by done. f_equal. by apply IH.
Qed.

Lemma kept_free (kept : list jsstring) :
  Forall kept_segment kept -> Forall (Forall (fun c => c <> slash)) kept.
Proof. intros H. eapply Forall_impl; [exact H|]. by intros seg (_ & _ & ?). Qed.

Lemma join_not_absolute (kept : list jsstring) :
  Forall kept_segment kept -> is_absolute (join_with [slash] kept) = false.
Proof.
  intros H. destruct H as [|w ws (Hne & _ & Hfree) _]; [done|].
  destruct w as [|c w]; [done|]. inversion Hfree as [|? ? Hc _]; subst.
  assert (E : is_absolute ((c :: w) ++ join_with [slash] ws) = false)
    by (cbn; by apply N.eqb_neq).
  destruct ws as [|w2 ws]; cbn in *; [by apply N.eqb_neq|by apply N.eqb_neq].
Qed.

Lemma plain_name_kept (x : jsstring) : plain_name x -> kept_segment x /\ x <> dotdot.
Proof. by intros (? & ? & ? & ?). Qed.

Lemma ends_with_slash_snoc (s x : jsstring) :
  x <> [] -> Forall (fun c => c <> slash) x -> ends_with_slash (s ++ slash :: x) = false.
Proof.
  intros Hne Hfree. unfold ends_with_slash.
  destruct x as [|c x _] using rev_ind; [done|].
  apply Forall_app in Hfree as [_ Hc]. inversion Hc as [|? ? Hc' _]; subst.
  rewrite app_comm_cons, app_assoc, last_snoc. by apply N.eqb_neq.
Qed.

Lemma normal_segment_plain (absolute : bool) (kept : list jsstring) (x : jsstring) :
  plain_name x -> normal_segment absolute kept x = kept ++ [x].
Proof.
  intros (H1 & H2 & H3 & _). unfold normal_segment.
  by rewrite !bool_decide_eq_false_2.
Qed.

Lemma path_normalize_nonempty (t : jsstring) :
  t <> [] ->
  path_normalize t
  = match fold_left (normal_segment (is_absolute t)) (split_on slash t) [] with
    | [] =>
        if is_absolute t then [slash]
        else if ends_with_slash t then dot ++ [slash] else dot
    | kept =>
        (if is_absolute t then [slash] else [])
        ++ join_with [slash] kept
        ++ (if ends_with_slash t then [slash] else [])
    end.
Proof. by destruct t. Qed.

Lemma path_join_text_nonempty (s x : jsstring) :
  s <> [] -> x <> [] -> path_join_text s x = path_normalize (s ++ slash :: x).
Proof. by destruct s, x. Qed.

Lemma is_absolute_app (s t : jsstring) :
  s <> [] -> is_absolute (s ++ t) = is_absolute s.
Proof. by destruct s. Qed.

Lemma match_snoc {A B} (l : list A) (x : A) (b : B) (f : list A -> B) :
  match l ++ [x] with
  | [] => b
  | j :: l' => f (j :: l')
  end = f (l ++ [x]).
Proof. by destruct l. Qed.

(** [path.join(s, x)] for a name [x] is the normalised [s] with [x] as last
    segment. *)
Lemma path_join_text_plain (s x : jsstring) :
  s <> [] -> plain_name x ->
  path_join_text s x
  = (if is_absolute s then [slash] else [])
    ++ join_with [slash]
         (fold_left (normal_segment (is_absolute s)) (split_on slash s) [] ++ [x]).
Proof.
  intros Hs Hx. pose proof Hx as (Hne & _ & _ & Hfree).
  rewrite path_join_text_nonempty by done.
  rewrite path_normalize_nonempty by (by destruct s).
  rewrite (is_absolute_app s _ Hs), (ends_with_slash_snoc s x Hne Hfree).
  rewrite (SanitizeFacts.split_on_snoc slash s x Hfree), fold_left_app.
  cbn [fold_left]. rewrite (normal_segment_plain _ _ x Hx).
  rewrite (match_snoc _ x _
             (fun kept => (if is_absolute s then [slash] else [])
                          ++ join_with [slash] kept ++ [])).
  by rewrite app_nil_r.
Qed.

Lemma final_segment_snoc (before : list jsstring) (text x : jsstring) :
  split_on slash text = before ++ [x] -> x <> [] -> final_segment text = Some x.
Proof.
  intros E Hne. unfold final_segment. rewrite E, List.filter_app. cbn.
  rewrite bool_decide_eq_false_2 by done. cbn. apply last_snoc.
Qed.

Lemma split_on_slash_cons (t : jsstring) :
  split_on slash (slash :: t) = [] :: split_on slash t.
Proof. reflexivity. Qed.

Lemma reach_absolute (cwd : path) (t : jsstring) (fs : FS) :
  reach cwd (slash :: t) fs = follow fs [] (split_on slash t).
Proof.
  unfold reach. rewrite split_on_slash_cons.
  assert (E : is_absolute (slash :: t) = true) by apply N.eqb_refl.
  by rewrite E.
Qed.

(** Where the text [s] leads to the directory [base], the text that
    [path.join] makes of [s] and a name leads to the entry of that name. *)
Lemma reach_join_child (cwd : path) (s x : jsstring) (fs : FS) (base : path) :
  reach cwd s fs = Some base -> is_dir fs base = true -> plain_name x ->
  reach cwd (path_join_text s x) fs = Some (child base x)
  /\ final_segment (path_join_text s x) = Some x.
Proof.
  intros Hreach Hdir Hx. pose proof Hx as (Hne & _ & _ & Hfree).
  destruct (plain_name_kept x Hx) as [Hkx Hxdd].
  assert (Hs : s <> []) by (by destruct s).
  rewrite (path_join_text_plain s x Hs Hx).
  assert (Hwalk : follow fs (if is_absolute s then [] else cwd) (split_on slash s)
                  = Some base).
  { unfold reach in Hreach. by destruct s. }
  set (kept := fold_left (normal_segment (is_absolute s)) (split_on slash s) []).
  pose proof (fold_normal_kept (is_absolute s) (split_on slash s) []
                (split_on_free slash s) (Forall_nil_2 _)) as Hkept.
  fold kept in Hkept.
  assert (Hall : Forall kept_segment (kept ++ [x])).
  { apply Forall_app. split; [done|]. constructor; [done|constructor]. }
  assert (Hsplit : split_on slash (join_with [slash] (kept ++ [x])) = kept ++ [x]).
  { apply split_join; [|by apply kept_free].
    intros E. symmetry in E. by apply app_cons_not_nil in E. }
  destruct (follow_normal fs (is_absolute s)
              (if is_absolute s then [] else cwd) (split_on slash s) base)
    as [Hfollow _].
  { by intros ->. }
  { apply split_on_free. }
  { exact Hwalk. }
  fold kept in Hfollow.
  assert (Hto : follow fs (if is_absolute s then [] else cwd) (kept ++ [x])
                = Some (child base x)).
  { apply follow_snoc. exists base. split; [done|]. split; [done|].
    by rewrite push_kept. }
  destruct (is_absolute s) eqn:Habs.
  - cbn [app]. split.
    + by rewrite reach_absolute, Hsplit.
    + apply (final_segment_snoc ([] :: kept)); [|done].
      by rewrite split_on_slash_cons, Hsplit.
  - cbn [app]. split.
    + unfold reach. rewrite (join_not_absolute _ Hall), Hsplit.
      destruct (join_with [slash] (kept ++ [x])) eqn:E; [|done].
      exfalso. cbn in Hsplit. destruct kept as [|k kept']; [|by destruct kept'].
      injection Hsplit as Hx0. by apply Hne.
    + by apply (final_segment_snoc kept).
Qed.

(** What holds something keeps the walk that led to it going after a
    removal below [dir], as long as the walk does not pass [dir]. *)
Lemma same_outside_dirs (dir : path) (fs fs' : FS) :
  same_outside dir fs fs' ->
  forall q : path, is_dir fs' q = true -> is_dir fs q = true \/ within dir q = true.
Proof.
  intros Hsame q Hq. destruct (within dir q) eqn:Hw; [by right|left].
  unfold is_dir, lookup_node in *. destruct q as [|a q]; [done|].
  by rewrite <- (Hsame _ Hw).
Qed.

End PathFacts.
(** ** Files and directories *)

Module FsMoreFacts.
Import FileHelpers FsFacts.

Lemma lookup_node_cons (fs : FS) (a : jsstring) (p : path) :
  lookup_node fs (a :: p) = fs !! (a :: p).
Proof. reflexivity. Qed.

Lemma lookup_node_ne (fs : FS) (p : path) :
  p <> [] -> lookup_node fs p = fs !! p.
Proof. by destruct p. Qed.

Lemma within_refl (p : path) : within p p = true.
Proof. unfold within. by apply bool_decide_eq_true. Qed.

Lemma within_child (dir : path) (x : jsstring) : within dir (child dir x) = true.
Proof. unfold within, child. apply bool_decide_eq_true. by apply prefix_app_r. Qed.

Lemma within_nil (p : path) : within p [] = true -> p = [].
Proof.
  unfold within. intros H%bool_decide_eq_true. by apply prefix_nil_inv in H.
Qed.

Lemma lookup_rm (p q : path) (seg : jsstring) (fs : FS) :
  seg <> dot -> seg <> dotdot ->
  snd (rmSync_recursive_force p (Some seg) fs) !! q
  = if within p q then None else fs !! q.
Proof.
  intros H1 H2. unfold rmSync_recursive_force.
  rewrite !bool_decide_eq_false_2 by done. cbn [snd].
  destruct (within p q) eqn:E.
  - apply map_lookup_filter_None. right. intros n _. cbn. rewrite E. by intros [].
  - destruct (fs !! q) as [n|] eqn:Hq.
    + apply map_lookup_filter_Some. split; [done|]. cbn. by rewrite E.
    + apply map_lookup_filter_None. by left.
Qed.

(** Creating directories ends with the whole path a directory. *)
Lemma mkdirs_is_dir (fs : FS) (made todo : path) (fs' : FS) :
  mkdirs fs made todo = Ok fs' -> is_dir fs made = true ->
  is_dir fs' (made ++ todo) = true.
Proof.
  revert fs made. induction todo as [|x todo IH]; intros fs made H Hd; cbn in H.
  - injection H as <-. by rewrite app_nil_r.
  - rewrite (cons_middle x made todo), app_assoc.
    destruct (fs !! (made ++ [x])) as [[]|] eqn:E; [done| |].
    + apply (IH fs); [done|]. by apply is_dir_child.
    + apply (IH (<[made ++ [x] := Dir]> fs)); [done|].
      apply is_dir_child. unfold child. by rewrite lookup_insert_eq.
Qed.

Lemma grows_exists (fs fs' : FS) (p : path) :
  grows fs fs' -> existsSync p fs = true -> existsSync p fs' = true.
Proof.
  intros G. unfold existsSync. destruct p as [|a p]; [done|]. cbn.
  intros [n Hn]%bool_decide_eq_true. apply bool_decide_eq_true.
  exists n. by eapply grows_lookup_Some.
Qed.

Lemma is_dir_exists (fs : FS) (p : path) :
  is_dir fs p = true -> existsSync p fs = true.
Proof.
  unfold is_dir, existsSync. intros H. apply bool_decide_eq_true.
  destruct (lookup_node fs p); [by eexists|done].
Qed.

Lemma ensureDirectoryExists_there (d : path) (fs : FS) :
  existsSync d fs = true -> ensureDirectoryExists d fs = (Ok tt, fs).
Proof. intros H. unfold ensureDirectoryExists, try_rethrow. by rewrite H. Qed.

Lemma ensureDirectoryExists_made (d : path) (fs fs' : FS) :
  ensureDirectoryExists d fs = (Ok tt, fs') ->
  existsSync d fs = false -> is_dir fs' d = true.
Proof.
  unfold ensureDirectoryExists, try_rethrow, update, mkdirSync_recursive.
  intros H E. rewrite E in H. cbn [negb] in H.
  destruct (mkdirs fs [] d) as [fs1|] eqn:M; [|done].
  injection H as <-. by apply (mkdirs_is_dir fs [] d).
Qed.

Lemma grows_is_dir (fs fs' : FS) (p : path) :
  grows fs fs' -> is_dir fs p = true -> is_dir fs' p = true.
Proof.
  intros G. unfold is_dir. destruct p as [|a p]; [done|]. cbn. intros H.
  destruct (G (a :: p)) as [->|[E _]]; [done|]. by rewrite E in H.
Qed.

Lemma writeFileSync_inv (p : path) (data : jsstring) (fs fs' : FS) :
  writeFileSync p data fs = Ok fs' ->
  p <> [] /\ is_dir fs (dirname p) = true /\ fs !! p <> Some Dir
  /\ fs' = <[p := File data]> fs.
Proof.
  intros H. pose proof (writeFileSync_ok _ _ _ _ H) as ->.
  unfold writeFileSync in H. destruct p as [|a p]; [done|].
  destruct (is_dir fs (dirname (a :: p))); [|done]. cbn [negb] in H.
  repeat split; try done. intros E. by rewrite E in H.
Qed.

Lemma writeFileSync_can (p : path) (data : jsstring) (fs : FS) :
  p <> [] -> is_dir fs (dirname p) = true -> fs !! p <> Some Dir ->
  writeFileSync p data fs = Ok (<[p := File data]> fs).
Proof.
  intros Hp Hd Hn. unfold writeFileSync. destruct p as [|a p]; [done|].
  rewrite Hd. cbn [negb]. by repeat case_match.
Qed.

Lemma mkdirs_throws (fs : FS) (made todo : path) (e : exn) :
  mkdirs fs made todo = Throw e -> exists code, e = NodeError code.
Proof.
  revert fs made. induction todo as [|x todo IH]; intros fs made H; cbn in H; [done|].
  destruct (fs !! (made ++ [x])) as [[]|].
  - injection H as <-. eauto.
  - by eapply IH.
  - by eapply IH.
Qed.

(** A failure to create a directory is reported as such, and nothing has
    been created. *)
Lemma ensureDirectoryExists_throws (d : path) (fs fs' : FS) (e : exn) :
  ensureDirectoryExists d fs = (Throw e, fs') ->
  fs' = fs
  /\ exists message, e = FileSystemError message (path_to_string d) (js "create").
Proof.
  unfold ensureDirectoryExists, try_rethrow, update, mkdirSync_recursive.
  destruct (existsSync d fs); cbn [negb]; [done|].
  destruct (mkdirs fs [] d) as [fs1|e1] eqn:M; [done|].
  apply mkdirs_throws in M as [code ->]. intros [= <- <-]. split; [done|].
  cbn. eauto.
Qed.

Lemma removeDirectory_effect (pf : Platform) (dirPath : jsstring) (fs : FS) :
  (forall (p : path) (seg : jsstring),
      reach (cwd pf) dirPath fs = Some p ->
      is_dir fs p = true ->
      final_segment dirPath = Some seg -> seg <> dot -> seg <> dotdot ->
      exists fs' : FS,
        removeDirectory pf dirPath fs = (Ok tt, fs')
        /\ cleared p fs' /\ same_outside p fs fs')
  /\ (forall p : path,
        reach (cwd pf) dirPath fs = Some p ->
        is_dir fs p = true ->
        final_segment dirPath = Some dot ->
        removeDirectory pf dirPath fs
        = (Throw (FileSystemError (js "Failed to remove directory: EINVAL")
                    dirPath (js "remove")), fs))
  /\ ((forall p : path,
          reach (cwd pf) dirPath fs = Some p -> is_dir fs p = false) ->
      removeDirectory pf dirPath fs = (Ok tt, fs)).
Proof.
  unfold removeDirectory, try_rethrow, ret. split; [|split].
  - intros p seg -> Hd -> H1 H2. rewrite directoryExists_is_dir, Hd.
    pose proof (lookup_rm p) as Hrm. specialize (fun q => Hrm q seg fs H1 H2).
    unfold rmSync_recursive_force in *.
    rewrite !bool_decide_eq_false_2 in * by done. cbn [snd] in Hrm.
    eexists. split; [reflexivity|]. split.
    + intros q Hq. by rewrite Hrm, Hq.
    + intros q Hq. by rewrite Hrm, Hq.
  - intros p -> Hd ->. rewrite directoryExists_is_dir, Hd.
    unfold rmSync_recursive_force. by rewrite bool_decide_eq_true_2.
  - intros Hno. destruct (reach (cwd pf) dirPath fs) as [p|]; [|done].
    by rewrite directoryExists_is_dir, (Hno p eq_refl).
Qed.

Lemma pair_of_fst_ok {A B} (p : A * B) (a : A) : fst p = a -> p = (a, snd p).
Proof. intros <-. by destruct p. Qed.

End FsMoreFacts.

Module FileExtras.
Import FileHelpers FsFacts FsMoreFacts SaveFacts.

(** X6. isWritable answers true exactly when the path is a directory in
    which .write-test is not a directory.  After the answer true no
    .write-test is left there, also when a file of that name was there
    before, and nothing else has changed; after the answer false nothing
    has changed at all. *)
Theorem isWritable_probe (dirPath : path) (fs : FS) :
  (fst (isWritable dirPath fs) = true
   <-> is_dir fs dirPath = true
       /\ fs !! child dirPath (js ".write-test") <> Some Dir)
  /\ (fst (isWritable dirPath fs) = true ->
      snd (isWritable dirPath fs) = delete (child dirPath (js ".write-test")) fs)
  /\ (fst (isWritable dirPath fs) = false -> snd (isWritable dirPath fs) = fs).
Proof.
  unfold isWritable. set (probe := child dirPath (js ".write-test")).
  destruct (writeFileSync probe (js "test") fs) as [written|e] eqn:W.
  - apply writeFileSync_inv in W as (Hne & Hd & Hn & ->).
    unfold probe in Hd. rewrite dirname_child in Hd. fold probe in Hd.
    unfold unlinkSync. rewrite lookup_node_ne by done.
    rewrite lookup_insert_eq. cbn [fst snd].
    split; [done|]. split; [|done]. intros _. apply delete_insert_eq.
  - cbn [fst snd]. split; [|done]. split; [done|].
    intros [Hd Hn]. unfold probe in W.
    by rewrite (writeFileSync_child fs dirPath _ _ Hd Hn) in W.
Qed.

Lemma isWritable_probe_witness :
  fst (isWritable Demo.home Demo.fresh) = true
  /\ snd (isWritable Demo.home Demo.fresh)
     = delete (child Demo.home (js ".write-test")) Demo.fresh.
Proof.
  assert (H : fst (isWritable Demo.home Demo.fresh) = true).
  { apply (proj1 (isWritable_probe Demo.home Demo.fresh)).
    split; [by vm_compute|]. vm_compute. discriminate. }
  split; [exact H|].
  by apply (proj1 (proj2 (isWritable_probe Demo.home Demo.fresh))).
Defined.

(** X7. removeFile throws exactly when the path is a directory, and then
    changes nothing; when it returns, nothing is at the path any more and
    every other path holds what it held.  A path that holds nothing is no
    error. *)
Theorem removeFile_outcome (filePath : path) (fs : FS) :
  (is_dir fs filePath = true ->
   exists message : jsstring,
     removeFile filePath fs
     = (Throw (FileSystemError message (path_to_string filePath) (js "remove")),
        fs))
  /\ (is_dir fs filePath = false ->
      removeFile filePath fs = (Ok tt, delete filePath fs)
      /\ fileExists filePath (delete filePath fs) = false).
Proof.
  unfold removeFile, try_rethrow, fileExists, existsSync, update, unlinkSync, is_dir.
  destruct filePath as [|a p].
  { unfold lookup_node. rewrite bool_decide_eq_true_2 by eauto.
    split; [intros _; eexists; reflexivity|done]. }
  rewrite !lookup_node_cons, lookup_delete_eq.
  destruct (fs !! (a :: p)) as [[c|]|] eqn:E.
  - rewrite bool_decide_eq_true_2 by eauto. split; [done|]. intros _.
    split; [done|]. apply bool_decide_eq_false_2. by intros [? ?].
  - rewrite bool_decide_eq_true_2 by eauto.
    split; [intros _; eexists; reflexivity|done].
  - rewrite bool_decide_eq_false_2 by (by intros [? ?]). split; [done|].
    intros _. split; [|done]. by rewrite delete_id.
Qed.

Lemma removeFile_outcome_witness :
  removeFile (child (child Demo.home (js "films")) (js "readme.txt")) Demo.library
  = (Ok tt, delete (child (child Demo.home (js "films")) (js "readme.txt"))
              Demo.library)
  /\ fileExists (child (child Demo.home (js "films")) (js "readme.txt"))
       (delete (child (child Demo.home (js "films")) (js "readme.txt"))
          Demo.library) = false.
Proof.
  apply (proj2 (removeFile_outcome
                  (child (child Demo.home (js "films")) (js "readme.txt"))
                  Demo.library)).
  by vm_compute.
Defined.



(** X9. ensureDirectoryExists returns at once, changing nothing, when
    anything is at the path, a regular file included.  Otherwise, when it
    returns, the path is a directory, and all it did was to create
    directories where nothing was. *)
Theorem ensureDirectoryExists_outcome (dirPath : path) (fs : FS) :
  (existsSync dirPath fs = true -> ensureDirectoryExists dirPath fs = (Ok tt, fs))
  /\ (forall fs' : FS,
        ensureDirectoryExists dirPath fs = (Ok tt, fs') ->
        existsSync dirPath fs = false ->
        is_dir fs' dirPath = true /\ grows fs fs').
Proof.
  split; [apply ensureDirectoryExists_there|].
  intros fs' H E. split.
  - by apply (ensureDirectoryExists_made dirPath fs).
  - by eapply ensureDirectoryExists_grows.
Qed.

Lemma ensureDirectoryExists_outcome_witness :
  ensureDirectoryExists (child (child Demo.home (js "films")) (js "readme.txt"))
    Demo.library
  = (Ok tt, Demo.library)
  /\ is_dir (snd (ensureDirectoryExists Demo.matrix_dir Demo.fresh)) Demo.matrix_dir
     = true.
Proof.
  split.
  - apply (proj1 (ensureDirectoryExists_outcome
                    (child (child Demo.home (js "films")) (js "readme.txt"))
                    Demo.library)).
    by vm_compute.
  - apply (proj2 (ensureDirectoryExists_outcome Demo.matrix_dir Demo.fresh)
             (snd (ensureDirectoryExists Demo.matrix_dir Demo.fresh))).
    + apply pair_of_fst_ok. by vm_compute.
    + by vm_compute.
Defined.

(** X10. What writeTextFile or writeJsonFile wrote is what readFileSync
    reads back from the path: the content, respectively the text
    JSON.stringify made of the value; the parent of the path is a
    directory then, and no other file was touched. *)
Theorem write_then_read (pf : Platform) (filePath : path) (fs fs' : FS) :
  (forall content : jsstring,
      writeTextFile filePath content fs = (Ok tt, fs') ->
      readFileSync filePath fs' = Ok content
      /\ is_dir fs' (dirname filePath) = true
      /\ writes_within [filePath] fs fs')
  /\ (forall data : JSValue,
        writeJsonFile pf filePath data fs = (Ok tt, fs') ->
        readFileSync filePath fs' = Ok (JSON_stringify pf data)
        /\ is_dir fs' (dirname filePath) = true
        /\ writes_within [filePath] fs fs').
Proof.
  assert (Hgen : forall content : jsstring,
             (ensureDirectoryExists (dirname filePath) ;;
              update (writeFileSync filePath content)) fs = (Ok tt, fs') ->
             readFileSync filePath fs' = Ok content
             /\ is_dir fs' (dirname filePath) = true
             /\ writes_within [filePath] fs fs').
  { intros content. unfold bind, update.
    destruct (ensureDirectoryExists (dirname filePath) fs) as [[[]|e] fs1] eqn:E;
      [|done].
    destruct (writeFileSync filePath content fs1) as [fs2|e] eqn:W; [|done].
    intros [= <-]. apply writeFileSync_inv in W as (Hne & Hd & _ & ->).
    split; [|split].
    - unfold readFileSync. rewrite lookup_node_ne by done.
      by rewrite lookup_insert_eq.
    - rewrite is_dir_insert_ne; [done|].
      intros Heq. destruct filePath as [|a p] using rev_ind; [done|].
      unfold dirname in Heq. rewrite removelast_last in Heq.
      by apply (child_ne_self p a).
    - apply (writes_within_trans _ fs fs1).
      + apply writes_within_grows. by eapply ensureDirectoryExists_grows.
      + apply writes_within_insert. apply list_elem_of_here. }
  split.
  - intros content H. apply Hgen. revert H. unfold writeTextFile, try_rethrow.
    destruct ((ensureDirectoryExists (dirname filePath) ;;
               update (writeFileSync filePath content)) fs) as [[[]|e] fs2]; done.
  - intros data H. apply Hgen. revert H.
    unfold writeJsonFile, try_rethrow, bind, read.
    destruct (ensureDirectoryExists (dirname filePath) fs) as [[[]|e] fs1]; [|done].
    destruct data; try done;
      by destruct (update (writeFileSync filePath _) fs1) as [[[]|e] fs2].
Qed.

Lemma write_then_read_witness :
  readFileSync (child Demo.matrix_dir (js "notes.txt"))
    (snd (writeTextFile (child Demo.matrix_dir (js "notes.txt")) (js "seen twice")
            Demo.fresh))
  = Ok (js "seen twice").
Proof.
  apply (proj1 (write_then_read (Demo.platform Demo.offline)
                  (child Demo.matrix_dir (js "notes.txt")) Demo.fresh
                  (snd (writeTextFile (child Demo.matrix_dir (js "notes.txt"))
                          (js "seen twice") Demo.fresh)))
           (js "seen twice")).
  apply pair_of_fst_ok. by vm_compute.
Defined.

(** X11. copyFile of a file returns with the destination holding the
    content of the source, the source as it was, and no other file
    touched.  With nothing at the source it throws, and the error names
    the destination; the directory of the destination has been created all
    the same. *)
Theorem copyFile_outcome (sourcePath destPath : path) (fs : FS) :
  (forall (content : jsstring) (fs' : FS),
      lookup_node fs sourcePath = Some (File content) ->
      copyFile sourcePath destPath fs = (Ok tt, fs') ->
      fs' !! destPath = Some (File content)
      /\ fs' !! sourcePath = Some (File content)
      /\ writes_within [destPath] fs fs')
  /\ (lookup_node fs sourcePath = None ->
      (exists message : jsstring,
          fst (copyFile sourcePath destPath fs)
          = Throw (FileSystemError message (path_to_string destPath) (js "copy")))
      /\ snd (copyFile sourcePath destPath fs)
         = snd (ensureDirectoryExists (dirname destPath) fs)).
Proof.
  unfold copyFile, try_rethrow, bind, update, copyFileSync. split.
  - intros content fs' Hsrc.
    destruct (ensureDirectoryExists (dirname destPath) fs) as [[[]|e] fs1] eqn:E;
      [|done].
    pose proof (ensureDirectoryExists_grows _ _ _ _ E) as G.
    assert (Hne : sourcePath <> []) by (by intros ->).
    rewrite lookup_node_ne in Hsrc by done.
    rewrite lookup_node_ne by done.
    rewrite (grows_lookup_Some fs fs1 _ _ G Hsrc).
    destruct (writeFileSync destPath content fs1) as [fs2|e] eqn:W; [|done].
    intros [= <-]. apply writeFileSync_inv in W as (_ & _ & _ & ->).
    split; [apply lookup_insert_eq|]. split.
    + destruct (decide (destPath = sourcePath)) as [->|Hd].
      * apply lookup_insert_eq.
      * rewrite lookup_insert_ne by done. by eapply grows_lookup_Some.
    + apply (writes_within_trans _ fs fs1).
      * by apply writes_within_grows.
      * apply writes_within_insert. apply list_elem_of_here.
  - intros Hsrc.
    destruct (ensureDirectoryExists (dirname destPath) fs) as [[[]|e] fs1] eqn:E.
    + pose proof (ensureDirectoryExists_grows _ _ _ _ E) as G.
      assert (Hsrc1 : lookup_node fs1 sourcePath = None
                      \/ lookup_node fs1 sourcePath = Some Dir).
      { destruct sourcePath as [|a p]; [done|]. cbn in *.
        destruct (G (a :: p)) as [->|[_ ->]]; auto. }
      destruct Hsrc1 as [-> | ->]; cbn [fst snd]; split; try done; eauto.
    + cbn [fst snd]. split; [|done].
      apply ensureDirectoryExists_throws in E as [_ [message ->]].
      cbn. eauto.
Qed.

Lemma copyFile_outcome_witness :
  snd (copyFile (child (child Demo.home (js "films")) (js "readme.txt"))
         (child (child Demo.home (js "backup")) (js "readme.txt")) Demo.library)
  !! child (child Demo.home (js "backup")) (js "readme.txt")
  = Some (File (js "my films")).
Proof.
  apply (proj1 (copyFile_outcome
                  (child (child Demo.home (js "films")) (js "readme.txt"))
                  (child (child Demo.home (js "backup")) (js "readme.txt"))
                  Demo.library)
           (js "my films")
           (snd (copyFile (child (child Demo.home (js "films")) (js "readme.txt"))
                   (child (child Demo.home (js "backup")) (js "readme.txt"))
                   Demo.library))).
  - by vm_compute.
  - apply pair_of_fst_ok. by vm_compute.
Defined.

End FileExtras.

(** ** Saving the configuration and the credentials *)

Module ConfigMoreFacts.
Import Types ConfigManager FsFacts FsMoreFacts ConfigManagerFacts SaveFacts.

(** [mkdirs] touches nothing but the prefixes of the path it creates. *)
Lemma mkdirs_outside (fs : FS) (made todo : path) (fs' : FS) (p : path) :
  mkdirs fs made todo = Ok fs' ->
  ~ p `prefix_of` made ++ todo ->
  fs' !! p = fs !! p.
Proof.
  revert fs made. induction todo as [|x todo IH]; intros fs made H Hp; cbn in H.
  - by injection H as <-.
  - rewrite (cons_middle x made todo), app_assoc in Hp.
    destruct (fs !! (made ++ [x])) as [[]|] eqn:E; [discriminate|by eapply IH|].
    rewrite (IH _ _ H Hp). apply lookup_insert_ne.
    intros <-. apply Hp. by apply prefix_app_r.
Qed.

Lemma child_not_prefix (dir : path) (x : jsstring) : ~ child dir x `prefix_of` dir.
Proof.
  intros H. apply prefix_length in H. unfold child in H.
  rewrite length_app in H. cbn in H. lia.
Qed.

(** Making sure the configuration directory is there creates directories
    at most, and none inside it. *)
Lemma ensureConfigDir_effect (pf : Platform) (fs : FS) (r : result unit) (fs' : FS) :
  ensureConfigDir pf fs = (r, fs') ->
  grows fs fs'
  /\ forall x : jsstring,
       fs' !! child (configDir pf) x = fs !! child (configDir pf) x.
Proof.
  unfold ensureConfigDir, update, ret, mkdirSync_recursive.
  destruct (existsSync (configDir pf) fs); cbn [negb].
  { intros [= _ <-]. split; [apply grows_refl|done]. }
  destruct (mkdirs fs [] (configDir pf)) as [fs1|e] eqn:M; intros [= _ <-].
  - split; [by eapply mkdirs_grows|].
    intros x. eapply mkdirs_outside; [exact M|]. apply child_not_prefix.
  - split; [apply grows_refl|done].
Qed.

Lemma ensureConfigDir_throws (pf : Platform) (fs fs' : FS) (e : exn) :
  ensureConfigDir pf fs = (Throw e, fs') -> exists code, e = NodeError code.
Proof.
  unfold ensureConfigDir, update, ret, mkdirSync_recursive.
  destruct (existsSync (configDir pf) fs); cbn [negb]; [done|].
  destruct (mkdirs fs [] (configDir pf)) as [fs1|e1] eqn:M; [done|].
  intros [= <- _]. by eapply mkdirs_throws.
Qed.

Lemma writeFileSync_throws (p : path) (data : jsstring) (fs : FS) (e : exn) :
  writeFileSync p data fs = Throw e -> exists code, e = NodeError code.
Proof.
  unfold writeFileSync. destruct p; [intros [= <-]; eauto|].
  destruct (negb _); [intros [= <-]; eauto|].
  destruct (fs !! _) as [[]|]; try done. intros [= <-]. eauto.
Qed.

(** What writing a file of the configuration directory does. *)
Lemma write_config_file (pf : Platform) (x text : jsstring) (fs : FS)
    (wrap : exn -> exn) (r : result unit) (fs' : FS) :
  try_rethrow wrap
    (ensureConfigDir pf ;; update (writeFileSync (child (configDir pf) x) text)) fs
  = (r, fs') ->
  (r = Ok tt ->
   exists fs1,
     grows fs fs1
     /\ (forall y, fs1 !! child (configDir pf) y = fs !! child (configDir pf) y)
     /\ fs' = <[child (configDir pf) x := File text]> fs1)
  /\ (forall e, r = Throw e ->
      grows fs fs'
      /\ (forall y, fs' !! child (configDir pf) y = fs !! child (configDir pf) y)
      /\ exists code, e = wrap (NodeError code)).
Proof.
  unfold try_rethrow, bind, update.
  destruct (ensureConfigDir pf fs) as [[[]|e1] fs1] eqn:E.
  - apply ensureConfigDir_effect in E as [G Hin].
    destruct (writeFileSync (child (configDir pf) x) text fs1) as [fs2|e2] eqn:W.
    + intros [= <- <-]. split; [|done]. intros _. exists fs1.
      split; [done|]. split; [done|]. by apply writeFileSync_ok.
    + apply writeFileSync_throws in W as [code ->].
      intros [= <- <-]. split; [done|]. intros e [= <-]. eauto.
  - pose proof (ensureConfigDir_throws _ _ _ _ E) as [code ->].
    apply ensureConfigDir_effect in E as [G Hin].
    intros [= <- <-]. split; [done|]. intros e [= <-]. eauto.
Qed.

Lemma loadCredentials_ext (pf : Platform) (fs fs' : FS) :
  fs !! credentialsPath pf = fs' !! credentialsPath pf ->
  loadCredentials pf fs = loadCredentials pf fs'.
Proof.
  intros H. unfold loadCredentials, existsSync, readFileSync.
  rewrite !lookup_node_credentialsPath. by rewrite H.
Qed.

Lemma getApiKey_ext (pf : Platform) (fs fs' : FS) :
  fs !! credentialsPath pf = fs' !! credentialsPath pf ->
  getApiKey pf fs = getApiKey pf fs'.
Proof. intros H. unfold getApiKey. by rewrite (loadCredentials_ext pf fs fs' H). Qed.

Lemma config_ne_credentials (pf : Platform) : configPath pf <> credentialsPath pf.
Proof. apply child_last_ne. js_neq. Qed.

(** *** Objects *)

Lemma lookup_obj_cons (k k' : jsstring) (v : JSValue)
    (props : list (jsstring * JSValue)) :
  obj ((k, v) :: props) !! k'
  = if bool_decide (k = k') then Some v else obj props !! k'.
Proof.
  unfold obj. rewrite list_to_map_cons. case_bool_decide as E.
  - subst. apply lookup_insert_eq.
  - by apply lookup_insert_ne.
Qed.

Lemma get_prop_config (config : ConfigFile) :
  get_prop (js_of_config config) (js "user") = Ok (JObj (user config))
  /\ get_prop (js_of_config config) (js "app") = Ok (JObj (app config))
  /\ get_prop (js_of_config config) (js "lastUpdated") = Ok (lastUpdated config).
Proof.
  unfold js_of_config, get_prop, obj_get.
  rewrite !lookup_obj_cons.
  repeat split; repeat (case_bool_decide as E;
                        [try done; by vm_compute in E|]); done.
Qed.

(** A spread over the defaults returns an object that has all their
    keys. *)
Lemma spread_covering (defaults u : object) :
  (forall k, is_Some (defaults !! k) -> is_Some (u !! k)) ->
  spread (spread ∅ (JObj defaults)) (JObj u) = u.
Proof.
  intros H. unfold spread. cbn [own_props]. rewrite map_union_empty.
  apply map_eq. intros k. rewrite lookup_union.
  destruct (u !! k) as [v|] eqn:Eu; [by destruct (defaults !! k)|].
  destruct (defaults !! k) as [d|] eqn:Ed; [|done].
  destruct (H k) as [v Hv]; [by eexists|]. congruence.
Qed.

Lemma obj_get_merged (updates u : object) (k : jsstring) :
  (forall k, is_Some (DEFAULT_CONFIG !! k) -> is_Some (u !! k)) ->
  obj_get
    (spread (spread ∅ (JObj DEFAULT_CONFIG))
       (JObj (spread (spread ∅ (JObj u)) (JObj updates)))) k
  = match updates !! k with
    | Some v => v
    | None => obj_get u k
    end.
Proof.
  intros H. rewrite spread_covering.
  - rewrite obj_get_spread. cbn [own_props].
    destruct (updates !! k); [done|]. rewrite obj_get_spread. cbn [own_props].
    unfold obj_get. by destruct (u !! k).
  - intros k' Hk. unfold spread. cbn [own_props]. rewrite !lookup_union.
    destruct (H k' Hk) as [v ->]. destruct (updates !! k'); by eexists.
Qed.

Lemma repaired_other (u : object) (k : jsstring) :
  k <> js "tmdbApiKey" -> k <> js "imageQuality" -> k <> js "maxImageSize" ->
  obj_get (repaired u) k = obj_get u k.
Proof.
  intros H1 H2 H3. unfold repaired.
  rewrite !enforce_other by done.
  destruct (negb _); [|done]. by rewrite obj_get_set_ne.
Qed.

Lemma repaired_key (u : object) :
  obj_get (repaired u) (js "tmdbApiKey")
  = if truthy (obj_get u (js "tmdbApiKey")) then obj_get u (js "tmdbApiKey")
    else JStr [].
Proof.
  unfold repaired. rewrite !enforce_other by js_neq.
  destruct (truthy _); cbn [negb]; [done|]. apply obj_get_set.
Qed.

Lemma repaired_quality (u : object) :
  obj_get (repaired u) (js "imageQuality")
  = if includes ImageQuality (obj_get u (js "imageQuality"))
    then obj_get u (js "imageQuality") else JStr (js "medium").
Proof.
  unfold repaired. rewrite enforce_other by js_neq.
  set (u1 := if negb _ then _ else _).
  assert (H1 : obj_get u1 (js "imageQuality") = obj_get u (js "imageQuality")).
  { subst u1. destruct (negb _); [|done]. apply obj_get_set_ne. js_neq. }
  destruct (includes ImageQuality (obj_get u (js "imageQuality"))) eqn:E.
  - rewrite enforce_valid by (by rewrite H1). done.
  - apply enforce_invalid. by rewrite H1.
Qed.

Lemma repaired_size (u : object) :
  obj_get (repaired u) (js "maxImageSize")
  = if includes ImageSize (obj_get u (js "maxImageSize"))
    then obj_get u (js "maxImageSize") else JStr (js "w500").
Proof.
  unfold repaired.
  set (u2 := enforce ImageQuality _ _ _).
  assert (H2 : obj_get u2 (js "maxImageSize") = obj_get u (js "maxImageSize")).
  { subst u2. rewrite enforce_other by js_neq.
    destruct (negb _); [|done]. apply obj_get_set_ne. js_neq. }
  destruct (includes ImageSize (obj_get u (js "maxImageSize"))) eqn:E.
  - rewrite enforce_valid by (by rewrite H2). done.
  - apply enforce_invalid. by rewrite H2.
Qed.

Lemma repaired_settled (u : object) :
  truthy (obj_get u (js "tmdbApiKey")) = true
  \/ u !! js "tmdbApiKey" = Some (JStr []) ->
  includes ImageQuality (obj_get u (js "imageQuality")) = true ->
  includes ImageSize (obj_get u (js "maxImageSize")) = true ->
  repaired u = u.
Proof.
  intros Hkey Hq Hs. unfold repaired.
  assert (H1 : (if negb (truthy (obj_get u (js "tmdbApiKey")))
                then obj_set u (js "tmdbApiKey") (JStr []) else u) = u).
  { destruct Hkey as [->|Hk]; [done|].
    destruct (negb _); [|done]. by apply insert_id. }
  rewrite H1. rewrite (enforce_valid ImageQuality) by done.
  by rewrite enforce_valid.
Qed.

Lemma validateAndMergeConfig_unfold (pf : Platform) (config : ConfigFile) :
  validateAndMergeConfig pf (js_of_config config)
  = Ok {| user := repaired (spread (spread ∅ (JObj DEFAULT_CONFIG))
                              (JObj (user config)));
          app := spread (spread ∅ (JObj DEFAULT_APP_CONFIG)) (JObj (app config));
          lastUpdated := or_else (lastUpdated config) (JStr (now_iso pf)) |}.
Proof.
  unfold validateAndMergeConfig.
  destruct (get_prop_config config) as (-> & -> & ->). reflexivity.
Qed.

Lemma insert_covers (m : object) (k k' : jsstring) (v : JSValue) :
  is_Some (m !! k) -> is_Some (<[k' := v]> m !! k).
Proof.
  intros H. destruct (decide (k' = k)) as [->|Hne].
  - rewrite lookup_insert_eq. by eexists.
  - by rewrite lookup_insert_ne.
Qed.

Lemma repaired_covers (u : object) (k : jsstring) :
  is_Some (u !! k) -> is_Some (repaired u !! k).
Proof.
  intros H. unfold repaired, enforce, obj_set.
  repeat (destruct (negb _)); repeat apply insert_covers; done.
Qed.

Lemma validateAndMergeConfig_settles (pf : Platform) (v : JSValue) (c : ConfigFile) :
  validateAndMergeConfig pf v = Ok c -> settled_config c.
Proof.
  intros H. pose proof (validateAndMergeConfig_enumerations pf v c H) as [Hq Hs].
  unfold validateAndMergeConfig in H.
  destruct (get_prop v (js "user")) as [u|]; [|done].
  destruct (get_prop v (js "app")) as [a|]; [|done].
  destruct (get_prop v (js "lastUpdated")) as [l|]; [|done].
  cbn [bind_result] in H. injection H as <-.
  unfold settled_config. cbn [Types.user Types.app] in *.
  fold (repaired (spread (spread ∅ (JObj DEFAULT_CONFIG)) u)) in Hq, Hs |- *.
  split; [|split; [|split; [|split]]]; try done.
  - intros k Hk. apply repaired_covers. unfold spread.
    rewrite !lookup_union. cbn [own_props]. destruct Hk as [d ->].
    destruct (own_props u !! k); by eexists.
  - intros k Hk. cbn [Types.app]. unfold spread.
    rewrite !lookup_union. cbn [own_props].
    destruct Hk as [d ->]. destruct (own_props a !! k); by eexists.
  - pose proof (repaired_key (spread (spread ∅ (JObj DEFAULT_CONFIG)) u)) as Hk.
    destruct (truthy (obj_get (spread (spread ∅ (JObj DEFAULT_CONFIG)) u)
                        (js "tmdbApiKey"))) eqn:E.
    + left. by rewrite Hk.
    + right. unfold repaired. rewrite E. cbn [negb].
      unfold enforce. repeat (destruct (negb _)); unfold obj_set;
        rewrite ?lookup_insert_ne by js_neq; apply lookup_insert_eq.
Qed.

Lemma createDefaultConfig_settled (pf : Platform) :
  settled_config (createDefaultConfig pf).
Proof.
  unfold settled_config. cbn [Types.user Types.app createDefaultConfig].
  split; [|split; [|split; [|split]]].
  - intros k Hk. unfold spread. cbn [own_props]. by rewrite map_union_empty.
  - intros k Hk. unfold spread. cbn [own_props]. by rewrite map_union_empty.
  - right. by vm_compute.
  - by vm_compute.
  - by vm_compute.
Qed.

Lemma loadConfig_settled (pf : Platform) (fs : FS) (config : ConfigFile) :
  loadConfig pf fs = Ok config -> settled_config config.
Proof.
  intros H. destruct (fs !! configPath pf) as [[text|]|] eqn:Hfile.
  - rewrite (loadConfig_of_file pf fs text Hfile) in H.
    destruct (parse pf text) as [v|]; cbn [bind_result rethrow] in H; [|done].
    destruct (validateAndMergeConfig pf v) as [c|] eqn:E; cbn [rethrow] in H; [|done].
    injection H as <-. by eapply validateAndMergeConfig_settles.
  - pose proof (loadConfig_of_dir pf fs Hfile) as Hd. by rewrite H in Hd.
  - rewrite (loadConfig_absent pf fs Hfile) in H. injection H as <-.
    apply createDefaultConfig_settled.
Qed.

(** Loading what [saveConfig] wrote. *)
Lemma loadConfig_saved (pf : Platform) (config : ConfigFile) (fs fs' : FS) :
  saveConfig pf config fs = (Ok tt, fs') ->
  JSON_parse pf
    (JSON_stringify pf
       (js_of_config {| user := user config; app := app config;
                        lastUpdated := JStr (now_iso pf) |}))
  = Some (js_of_config {| user := user config; app := app config;
                          lastUpdated := JStr (now_iso pf) |}) ->
  loadConfig pf fs'
  = Ok {| user := repaired (spread (spread ∅ (JObj DEFAULT_CONFIG))
                              (JObj (user config)));
          app := spread (spread ∅ (JObj DEFAULT_APP_CONFIG)) (JObj (app config));
          lastUpdated := JStr (now_iso pf) |}.
Proof.
  intros Hsave Hjson. unfold saveConfig in Hsave.
  apply write_config_file in Hsave as [Hok _].
  destruct (Hok eq_refl) as (fs1 & _ & _ & ->).
  rewrite (loadConfig_of_file pf _ _ (lookup_insert_eq _ _ _)).
  unfold parse. rewrite Hjson. cbn [bind_result].
  rewrite validateAndMergeConfig_unfold. cbn [rethrow Types.user Types.app Types.lastUpdated].
  do 2 f_equal. unfold or_else. by destruct (truthy _).
Qed.

Lemma updateUserConfig_inv (pf : Platform) (updates : object) (fs fs' : FS)
    (config : ConfigFile) :
  loadConfig pf fs = Ok config ->
  updateUserConfig pf updates fs = (Ok tt, fs') ->
  saveConfig pf
    {| user := spread (spread ∅ (JObj (user config))) (JObj updates);
       app := app config;
       lastUpdated := lastUpdated config |} fs
  = (Ok tt, fs').
Proof. unfold updateUserConfig, bind, read. by intros ->. Qed.

Lemma getApiKey_saved (pf : Platform) (apiKey : jsstring)
    (fs fs' : FS) :
  saveCredentials pf apiKey fs = (Ok tt, fs') ->
  JSON_parse pf
    (JSON_stringify pf
       (JObj (obj [ (js "apiKey", JStr apiKey);
                    (js "encrypted", JBool false);
                    (js "lastUsed", JStr (now_iso pf)) ])))
  = Some (JObj (obj [ (js "apiKey", JStr apiKey);
                      (js "encrypted", JBool false);
                      (js "lastUsed", JStr (now_iso pf)) ])) ->
  apiKey <> [] ->
  getApiKey pf fs' = JStr apiKey.
Proof.
  intros Hsave Hjson Hne. unfold saveCredentials in Hsave.
  apply write_config_file in Hsave as [Hok _].
  destruct (Hok eq_refl) as (fs1 & G & Hin & ->).
  unfold getApiKey.
  rewrite (loadCredentials_of_file pf _ _ (lookup_insert_eq _ _ _)), Hjson.
  assert (Hk : obj_get (obj [ (js "apiKey", JStr apiKey);
                              (js "encrypted", JBool false);
                              (js "lastUsed", JStr (now_iso pf)) ])
                 (js "apiKey") = JStr apiKey).
  { unfold obj_get. rewrite lookup_obj_cons. by rewrite bool_decide_eq_true_2. }
  rewrite Hk. unfold or_else. cbn [truthy].
  rewrite bool_decide_eq_false_2 by done. cbn [negb truthy].
  by rewrite bool_decide_eq_false_2.
Qed.

Lemma updateUserConfig_reads (pf : Platform) (updates : object)
    (fs fs' : FS) (config : ConfigFile) :
  loadConfig pf fs = Ok config ->
  updateUserConfig pf updates fs = (Ok tt, fs') ->
  JSON_parse pf
    (JSON_stringify pf
       (js_of_config
          {| user := spread (spread ∅ (JObj (user config))) (JObj updates);
             app := app config;
             lastUpdated := JStr (now_iso pf) |}))
  = Some (js_of_config
            {| user := spread (spread ∅ (JObj (user config))) (JObj updates);
               app := app config;
               lastUpdated := JStr (now_iso pf) |}) ->
  exists config' : ConfigFile,
    loadConfig pf fs' = Ok config'
    /\ app config' = app config
    /\ (forall k : jsstring,
          updates !! k = None ->
          obj_get (user config') k = obj_get (user config) k)
    /\ (forall (k : jsstring) (v : JSValue),
          updates !! k = Some v ->
          (k = js "tmdbApiKey" -> truthy v = true) ->
          (k = js "imageQuality" -> includes ImageQuality v = true) ->
          (k = js "maxImageSize" -> includes ImageSize v = true) ->
          obj_get (user config') k = v).
Proof.
  intros Hload Hupdate Hjson.
  pose proof (updateUserConfig_inv pf updates fs fs' config Hload Hupdate) as Hsave.
  pose proof (loadConfig_saved pf _ fs fs' Hsave Hjson) as Hload'.
  cbn [Types.user Types.app] in Hload'.
  pose proof (loadConfig_settled pf fs config Hload) as (Hu & Ha & Hkey & Hq & Hs).
  eexists. split; [exact Hload'|]. cbn [Types.user Types.app].
  split; [by apply spread_covering|]. split.
  - intros k Hk.
    assert (H0 : obj_get
                   (spread (spread ∅ (JObj DEFAULT_CONFIG))
                      (JObj (spread (spread ∅ (JObj (user config))) (JObj updates))))
                   k = obj_get (user config) k)
      by (by rewrite obj_get_merged, Hk).
    destruct (decide (k = js "tmdbApiKey")) as [->|N1].
    { rewrite repaired_key, H0. destruct Hkey as [->|Hk0]; [done|].
      unfold obj_get. by rewrite Hk0. }
    destruct (decide (k = js "imageQuality")) as [->|N2].
    { by rewrite repaired_quality, H0, Hq. }
    destruct (decide (k = js "maxImageSize")) as [->|N3].
    { by rewrite repaired_size, H0, Hs. }
    by rewrite repaired_other.
  - intros k v Hk V1 V2 V3.
    assert (H0 : obj_get
                   (spread (spread ∅ (JObj DEFAULT_CONFIG))
                      (JObj (spread (spread ∅ (JObj (user config))) (JObj updates))))
                   k = v)
      by (by rewrite obj_get_merged, Hk).
    destruct (decide (k = js "tmdbApiKey")) as [->|N1].
    { by rewrite repaired_key, H0, V1. }
    destruct (decide (k = js "imageQuality")) as [->|N2].
    { by rewrite repaired_quality, H0, V2. }
    destruct (decide (k = js "maxImageSize")) as [->|N3].
    { by rewrite repaired_size, H0, V3. }
    by rewrite repaired_other.
Qed.

Lemma saves_apart (pf : Platform) (fs : FS) :
  (forall apiKey : jsstring,
      loadConfig pf (snd (saveCredentials pf apiKey fs)) = loadConfig pf fs)
  /\ (forall config : ConfigFile,
        getApiKey pf (snd (saveConfig pf config fs)) = getApiKey pf fs)
  /\ (forall updates : object,
        getApiKey pf (snd (updateUserConfig pf updates fs)) = getApiKey pf fs).
Proof.
  assert (Hsave : forall (config : ConfigFile) (fs0 : FS),
             getApiKey pf (snd (saveConfig pf config fs0)) = getApiKey pf fs0).
  { intros config fs0.
    destruct (saveConfig pf config fs0) as [r fs'] eqn:E. cbn [snd].
    unfold saveConfig in E. apply write_config_file in E as [Hok Hthrow].
    apply getApiKey_ext. destruct r as [[]|e].
    - destruct (Hok eq_refl) as (fs1 & _ & Hin & ->).
      rewrite lookup_insert_ne by apply config_ne_credentials.
      apply (Hin (js "credentials.json")).
    - destruct (Hthrow e eq_refl) as (_ & Hin & _).
      apply (Hin (js "credentials.json")). }
  split; [|split].
  - intros apiKey.
    destruct (saveCredentials pf apiKey fs) as [r fs'] eqn:E. cbn [snd].
    unfold saveCredentials in E. apply write_config_file in E as [Hok Hthrow].
    apply loadConfig_ext. destruct r as [[]|e].
    + destruct (Hok eq_refl) as (fs1 & _ & Hin & ->).
      rewrite lookup_insert_ne
        by (intros H; by apply (config_ne_credentials pf)).
      apply (Hin (js "config.json")).
    + destruct (Hthrow e eq_refl) as (_ & Hin & _).
      apply (Hin (js "config.json")).
  - intros config. apply Hsave.
  - intros updates. unfold updateUserConfig, bind, read.
    destruct (loadConfig pf fs) as [config|e]; [|done]. apply Hsave.
Qed.

End ConfigMoreFacts.

Module ConfigExtras.
Import Types ConfigManager FsFacts FsMoreFacts ConfigManagerFacts SaveFacts.
Import ConfigMoreFacts.

(** X12. After saveCredentials returned, getApiKey answers with the saved
    key, whatever TMDB_API_KEY holds; it takes a key that is not empty and
    that the platform's JSON functions give the credentials object back
    from its own text. *)
Theorem saveCredentials_getApiKey (pf : Platform) (apiKey : jsstring)
    (fs fs' : FS) :
  saveCredentials pf apiKey fs = (Ok tt, fs') ->
  JSON_parse pf
    (JSON_stringify pf
       (JObj (obj [ (js "apiKey", JStr apiKey);
                    (js "encrypted", JBool false);
                    (js "lastUsed", JStr (now_iso pf)) ])))
  = Some (JObj (obj [ (js "apiKey", JStr apiKey);
                      (js "encrypted", JBool false);
                      (js "lastUsed", JStr (now_iso pf)) ])) ->
  apiKey <> [] ->
  getApiKey pf fs' = JStr apiKey.
Proof. apply getApiKey_saved. Qed.

Lemma saveCredentials_getApiKey_witness :
  getApiKey Demo.writer (snd (saveCredentials Demo.writer Demo.new_key Demo.fresh))
  = JStr Demo.new_key.
Proof.
  apply (saveCredentials_getApiKey Demo.writer Demo.new_key Demo.fresh).
  - apply pair_of_fst_ok. vm_compute. reflexivity.
  - vm_compute. reflexivity.
  - discriminate.
Defined.

(** X13. A configuration that loadConfig returned and saveConfig wrote is
    what loadConfig returns afterwards, with the time of the save as
    lastUpdated: validation changes nothing on it.  It takes that the
    platform's JSON functions give the configuration back from its own
    text. *)
Theorem saveConfig_loadConfig (pf : Platform) (config : ConfigFile)
    (fs0 fs fs' : FS) :
  loadConfig pf fs0 = Ok config ->
  saveConfig pf config fs = (Ok tt, fs') ->
  JSON_parse pf
    (JSON_stringify pf
       (js_of_config {| user := user config; app := app config;
                        lastUpdated := JStr (now_iso pf) |}))
  = Some (js_of_config {| user := user config; app := app config;
                          lastUpdated := JStr (now_iso pf) |}) ->
  loadConfig pf fs'
  = Ok {| user := user config; app := app config;
          lastUpdated := JStr (now_iso pf) |}.
Proof.
  intros Hload Hsave Hjson.
  rewrite (loadConfig_saved pf config fs fs' Hsave Hjson).
  apply loadConfig_settled in Hload as (Hu & Ha & Hkey & Hq & Hs).
  rewrite !spread_covering by done. by rewrite repaired_settled.
Qed.

Lemma saveConfig_loadConfig_witness :
  loadConfig Demo.writer
    (snd (saveConfig Demo.writer Demo.new_config_file Demo.fresh))
  = Ok {| user := user Demo.new_config_file;
          app := app Demo.new_config_file;
          lastUpdated := JStr (now_iso Demo.writer) |}.
Proof.
  apply (saveConfig_loadConfig Demo.writer Demo.new_config_file
           Demo.reconfigured Demo.fresh).
  - vm_compute. reflexivity.
  - apply pair_of_fst_ok. vm_compute. reflexivity.
  - vm_compute. reflexivity.
Defined.

(** X14. After updateUserConfig returned, loadConfig gives the updated
    settings: a setting that was not in the update is as it was loaded
    before, a setting that was in it has the new value, provided the value
    is one that validation keeps (a non-empty key, a quality or size of the
    enumeration), and the application part is unchanged.  It takes that the
    platform's JSON functions give the merged configuration back from its
    own text. *)
Theorem updateUserConfig_read_back (pf : Platform) (updates : object)
    (fs fs' : FS) (config : ConfigFile) :
  loadConfig pf fs = Ok config ->
  updateUserConfig pf updates fs = (Ok tt, fs') ->
  JSON_parse pf
    (JSON_stringify pf
       (js_of_config
          {| user := spread (spread ∅ (JObj (user config))) (JObj updates);
             app := app config;
             lastUpdated := JStr (now_iso pf) |}))
  = Some (js_of_config
            {| user := spread (spread ∅ (JObj (user config))) (JObj updates);
               app := app config;
               lastUpdated := JStr (now_iso pf) |}) ->
  exists config' : ConfigFile,
    loadConfig pf fs' = Ok config'
    /\ app config' = app config
    /\ (forall k : jsstring,
          updates !! k = None ->
          obj_get (user config') k = obj_get (user config) k)
    /\ (forall (k : jsstring) (v : JSValue),
          updates !! k = Some v ->
          (k = js "tmdbApiKey" -> truthy v = true) ->
          (k = js "imageQuality" -> includes ImageQuality v = true) ->
          (k = js "maxImageSize" -> includes ImageSize v = true) ->
          obj_get (user config') k = v).
Proof. apply updateUserConfig_reads. Qed.

Lemma updateUserConfig_read_back_witness :
  exists config' : ConfigFile,
    loadConfig Demo.writer
      (snd (updateUserConfig Demo.writer Demo.new_settings Demo.fresh))
    = Ok config'
    /\ obj_get (user config') (js "imageQuality") = JStr (js "high")
    /\ obj_get (user config') (js "language") = JStr (js "en-US").
Proof.
  destruct (updateUserConfig_read_back Demo.writer Demo.new_settings Demo.fresh
              (snd (updateUserConfig Demo.writer Demo.new_settings Demo.fresh))
              (createDefaultConfig Demo.writer))
    as (config' & Hload & _ & Hold & Hnew).
  - vm_compute. reflexivity.
  - apply pair_of_fst_ok. vm_compute. reflexivity.
  - vm_compute. reflexivity.
  - exists config'. split; [exact Hload|]. split.
    + apply Hnew; [vm_compute; reflexivity|discriminate|reflexivity|discriminate].
    + rewrite Hold; [|vm_compute; reflexivity]. vm_compute. reflexivity.
Defined.

(** X15. updateUserConfig does not validate: a quality or an image size
    outside the enumeration is written to the file as it is, and the next
    loadConfig answers with the default, medium or w500, not with the
    setting that was there before the update. *)
Theorem updateUserConfig_invalid_enumeration (pf : Platform) (updates : object)
    (fs fs' : FS) (config : ConfigFile) :
  loadConfig pf fs = Ok config ->
  updateUserConfig pf updates fs = (Ok tt, fs') ->
  JSON_parse pf
    (JSON_stringify pf
       (js_of_config
          {| user := spread (spread ∅ (JObj (user config))) (JObj updates);
             app := app config;
             lastUpdated := JStr (now_iso pf) |}))
  = Some (js_of_config
            {| user := spread (spread ∅ (JObj (user config))) (JObj updates);
               app := app config;
               lastUpdated := JStr (now_iso pf) |}) ->
  exists config' : ConfigFile,
    fs' !! configPath pf
    = Some (File (JSON_stringify pf
                    (js_of_config
                       {| user := spread (spread ∅ (JObj (user config)))
                                    (JObj updates);
                          app := app config;
                          lastUpdated := JStr (now_iso pf) |})))
    /\ loadConfig pf fs' = Ok config'
    /\ (forall v : JSValue,
          updates !! js "imageQuality" = Some v ->
          includes ImageQuality v = false ->
          obj_get (user config') (js "imageQuality") = JStr (js "medium"))
    /\ (forall v : JSValue,
          updates !! js "maxImageSize" = Some v ->
          includes ImageSize v = false ->
          obj_get (user config') (js "maxImageSize") = JStr (js "w500")).
Proof.
  intros Hload Hupdate Hjson.
  pose proof (updateUserConfig_inv pf updates fs fs' config Hload Hupdate) as Hsave.
  pose proof (loadConfig_saved pf _ fs fs' Hsave Hjson) as Hload'.
  cbn [Types.user Types.app] in Hload'.
  pose proof (loadConfig_settled pf fs config Hload) as (Hu & Ha & Hkey & Hq & Hs).
  eexists. split; [|split; [exact Hload'|]].
  { unfold saveConfig in Hsave. apply write_config_file in Hsave as [Hok _].
    destruct (Hok eq_refl) as (fs1 & _ & _ & ->). apply lookup_insert_eq. }
  cbn [Types.user]. split.
  - intros v Hk Hv. by rewrite repaired_quality, obj_get_merged, Hk, Hv.
  - intros v Hk Hv. by rewrite repaired_size, obj_get_merged, Hk, Hv.
Qed.

Lemma updateUserConfig_invalid_enumeration_witness :
  exists config' : ConfigFile,
    loadConfig Demo.writer
      (snd (updateUserConfig Demo.writer Demo.odd_settings Demo.fresh))
    = Ok config'
    /\ obj_get (user config') (js "imageQuality") = JStr (js "medium").
Proof.
  destruct (updateUserConfig_invalid_enumeration Demo.writer Demo.odd_settings
              Demo.fresh
              (snd (updateUserConfig Demo.writer Demo.odd_settings Demo.fresh))
              (createDefaultConfig Demo.writer))
    as (config' & _ & Hload & Hquality & _).
  - vm_compute. reflexivity.
  - apply pair_of_fst_ok. vm_compute. reflexivity.
  - vm_compute. reflexivity.
  - exists config'. split; [exact Hload|].
    apply (Hquality (JStr (js "ultra"))); vm_compute; reflexivity.
Defined.

(** X16. isConfigured answers true exactly when getApiKey gives a string
    with a code unit that is no whitespace.  When the key is a value that
    is truthy and no string, as a number in the credentials file is, it
    throws a TypeError instead of answering. *)
Theorem isConfigured_outcome (pf : Platform) (fs : FS) :
  (isConfigured pf fs = Ok true
   <-> exists s : jsstring, getApiKey pf fs = JStr s /\ trim s <> [])
  /\ (isConfigured pf fs = Throw (NodeError (js "TypeError"))
      <-> truthy (getApiKey pf fs) = true
          /\ forall s : jsstring, getApiKey pf fs <> JStr s).
Proof.
  unfold isConfigured. destruct (getApiKey pf fs) as [| |b|n|s|items|props] eqn:E;
    cbn [truthy].
  5:{ assert (Hthrow : forall r : bool,
                 Ok r = Throw (NodeError (js "TypeError"))
                 <-> negb (bool_decide (s = [])) = true
                     /\ forall s' : jsstring, JStr s <> JStr s').
      { intros r. split; [done|]. intros [_ Hno]. by destruct (Hno s). }
      case_bool_decide as Hs; cbn [negb].
      - split; [|apply Hthrow]. subst s.
        split; [done|]. intros (s & [= <-] & Hne). by destruct Hne.
      - split; [|apply Hthrow]. split.
        + intros [= Hlen]. exists s. split; [done|].
          intros Ht. by rewrite Ht in Hlen.
        + intros (s' & [= <-] & Hne). f_equal. by destruct (trim s). }
  all: try destruct b; try destruct (negb (Qeq_bool n 0)).
  all: split;
    [split; [done|by intros (? & ? & _)]
    |split; [first [done|intros _; split; [done|by intros ?]]
            |first [done|by intros [? _]]]].
Qed.

Lemma isConfigured_outcome_witness :
  isConfigured Demo.writer Demo.odd = Throw (NodeError (js "TypeError")).
Proof.
  apply (proj2 (isConfigured_outcome Demo.writer Demo.odd)).
  split; [vm_compute; reflexivity|]. intros s. vm_compute. discriminate.
Defined.

(** X17. When a regular file has the name of the configuration directory,
    getConfigDirectory returns the path all the same, and saveConfig and
    saveCredentials throw a ConfigurationError and leave the file system as
    it is. *)
Theorem config_directory_is_a_file (pf : Platform) (fs : FS) (content : jsstring) :
  fs !! configDir pf = Some (File content) ->
  getConfigDirectory pf fs = (Ok (configDir pf), fs)
  /\ (forall config : ConfigFile,
        exists message : jsstring,
          saveConfig pf config fs = (Throw (ConfigurationError message), fs))
  /\ (forall apiKey : jsstring,
        exists message : jsstring,
          saveCredentials pf apiKey fs = (Throw (ConfigurationError message), fs)).
Proof.
  intros Hfile.
  assert (Hex : existsSync (configDir pf) fs = true).
  { unfold existsSync, configDir. rewrite lookup_node_child.
    apply bool_decide_eq_true. unfold configDir in Hfile. rewrite Hfile. by eexists. }
  assert (Hnd : is_dir fs (configDir pf) = false).
  { unfold is_dir, configDir. rewrite lookup_node_child.
    unfold configDir in Hfile. by rewrite Hfile. }
  assert (Hw : forall x text,
             writeFileSync (child (configDir pf) x) text fs
             = Throw (NodeError (js "ENOENT"))).
  { intros x text. unfold writeFileSync. rewrite dirname_child, Hnd. cbn [negb].
    destruct (child (configDir pf) x) eqn:Ec; [|done].
    unfold child in Ec. by destruct (configDir pf). }
  split; [|split].
  - unfold getConfigDirectory, bind, ret. by rewrite Hex.
  - intros config. unfold saveConfig, try_rethrow, bind, ensureConfigDir, update, ret.
    rewrite Hex. cbn [negb]. unfold configPath. rewrite Hw. cbn. eauto.
  - intros apiKey.
    unfold saveCredentials, try_rethrow, bind, ensureConfigDir, update, ret.
    rewrite Hex. cbn [negb]. unfold credentialsPath. rewrite Hw. cbn. eauto.
Qed.

Lemma config_directory_is_a_file_witness :
  getConfigDirectory Demo.writer Demo.squatted
  = (Ok (configDir Demo.writer), Demo.squatted)
  /\ (forall config : ConfigFile,
        exists message : jsstring,
          saveConfig Demo.writer config Demo.squatted
          = (Throw (ConfigurationError message), Demo.squatted))
  /\ (forall apiKey : jsstring,
        exists message : jsstring,
          saveCredentials Demo.writer apiKey Demo.squatted
          = (Throw (ConfigurationError message), Demo.squatted)).
Proof.
  apply (config_directory_is_a_file Demo.writer Demo.squatted (js "not a directory")).
  vm_compute. reflexivity.
Defined.

(** X18. The two files of the configuration directory are kept apart:
    whatever saveCredentials does, loadConfig answers as before, and
    whatever saveConfig or updateUserConfig does, getApiKey answers as
    before. *)
Theorem config_and_credentials_apart (pf : Platform) (fs : FS) :
  (forall apiKey : jsstring,
      loadConfig pf (snd (saveCredentials pf apiKey fs)) = loadConfig pf fs)
  /\ (forall config : ConfigFile,
        getApiKey pf (snd (saveConfig pf config fs)) = getApiKey pf fs)
  /\ (forall updates : object,
        getApiKey pf (snd (updateUserConfig pf updates fs)) = getApiKey pf fs).
Proof. apply saves_apart. Qed.

End ConfigExtras.

(** ** Search validation and image addresses *)

Module FilmExtras.
Import Types ConfigManager FilmService StorageService.
Import ConfigManagerFacts ConfigMoreFacts.

(** X19. validateSearchParams returns exactly when the query, trimmed, has
    two code units or more and the year is absent, NaN, zero, or an integer
    between 1888 and the year after the current one.  The query is judged
    first: a blank query is reported as required and a query of one code
    unit as too short, whatever the year; and every rejection is an
    APIError with status 400 for the endpoint validation. *)
Theorem validateSearchParams_outcome (pf : Platform) (params : SearchParams) :
  (validateSearchParams pf params = Ok tt
   <-> (2 <= length (trim (query params)))%nat
       /\ (year params = None
           \/ year params = Some NaN
           \/ year params = Some (Integer 0)
           \/ exists y : Z,
                year params = Some (Integer y)
                /\ (1888 <= y <= current_year pf + 1)%Z))
  /\ (length (trim (query params)) = 0%nat ->
      validateSearchParams pf params
      = Throw (APIError (js "Search query is required") 400 (js "validation")))
  /\ (length (trim (query params)) = 1%nat ->
      validateSearchParams pf params
      = Throw (APIError (js "Search query must be at least 2 characters") 400
                 (js "validation")))
  /\ (forall e : exn,
        validateSearchParams pf params = Throw e ->
        exists message : jsstring, e = APIError message 400 (js "validation")).
Proof.
  unfold validateSearchParams.
  assert (Hnil : query params = [] -> length (trim (query params)) = 0%nat)
    by (by intros ->).
  destruct (bool_decide_reflect (query params = [])) as [Hq|Hq]; cbn [orb].
  { specialize (Hnil Hq). rewrite Hnil. split; [|split; [|split]].
    - split; [done|]. intros [? _]. lia.
    - done.
    - done.
    - intros e [= <-]. eauto. }
  destruct (Nat.eqb_spec (length (trim (query params))) 0) as [H0|H0].
  { split; [|split; [|split]].
    - split; [done|]. intros [? _]. lia.
    - done.
    - intros ?. lia.
    - intros e [= <-]. eauto. }
  destruct (Nat.ltb_spec (length (trim (query params))) 2) as [H2|H2].
  { split; [|split; [|split]].
    - split; [done|]. intros [? _]. lia.
    - intros ?. lia.
    - done.
    - intros e [= <-]. eauto. }
  split; [|split; [|split]]; [|intros ?; lia|intros ?; lia|].
  - destruct (year params) as [[y| ]|].
    + destruct (Z.eqb_spec y 0) as [Hy|Hy]; cbn [negb andb].
      { subst y. split; [|done]. intros _. split; [done|]. auto. }
      destruct (Z.ltb_spec y 1888) as [Hl|Hl]; cbn [orb].
      { split; [done|]. intros [_ [?|[?|[[= ?]|(y' & [= <-] & ?)]]]]; try done; lia. }
      destruct (Z.ltb_spec (current_year pf + 1) y) as [Hu|Hu].
      { split; [done|]. intros [_ [?|[?|[[= ?]|(y' & [= <-] & ?)]]]]; try done; lia. }
      split; [|done]. intros _. split; [done|]. right; right; right.
      exists y. split; [done|lia].
    + split; [|done]. intros _. split; [done|]. auto.
    + split; [|done]. intros _. split; [done|]. auto.
  - intros e. destruct (year params) as [[y| ]|]; [|done|done].
    destruct (negb (y =? 0)%Z && ((y <? 1888)%Z || (current_year pf + 1 <? y)%Z));
      [|done].
    intros [= <-]. eauto.
Qed.

Lemma validateSearchParams_outcome_witness :
  validateSearchParams (Demo.platform Demo.offline)
    (Demo.search (js "  Alien  ") (Some 1979%Z))
  = Ok tt
  /\ validateSearchParams (Demo.platform Demo.offline)
       {| query := js "Alien"; page := None; includeAdult := None;
          year := Some NaN; primaryReleaseYear := None |}
     = Ok tt.
Proof.
  split.
  - apply (proj1 (validateSearchParams_outcome (Demo.platform Demo.offline)
                    (Demo.search (js "  Alien  ") (Some 1979%Z)))).
    split; [vm_compute; lia|]. right; right; right. exists 1979%Z.
    split; [reflexivity|]. vm_compute. split; discriminate.
  - apply (proj1 (validateSearchParams_outcome (Demo.platform Demo.offline)
                    {| query := js "Alien"; page := None; includeAdult := None;
                       year := Some NaN; primaryReleaseYear := None |})).
    split; [vm_compute; lia|]. right; left. reflexivity.
Defined.

(** The size the storage asks for, by quality. *)
Lemma buildImageUrl_of_quality (pf : Platform) (p size : jsstring) (fs : FS)
    (config : ConfigFile) :
  loadConfig pf fs = Ok config ->
  (obj_get (user config) (js "imageQuality") = JStr (js "low")
   /\ buildImageUrl pf p size fs
      = Ok (js "https://image.tmdb.org/t/p/"
            ++ (if bool_decide (size = js "w500") then js "w185" else js "w300")
            ++ p))
  \/ (obj_get (user config) (js "imageQuality") = JStr (js "medium")
      /\ buildImageUrl pf p size fs
         = Ok (js "https://image.tmdb.org/t/p/"
               ++ (if bool_decide (size = js "w500") then js "w500" else js "w780")
               ++ p))
  \/ (obj_get (user config) (js "imageQuality") = JStr (js "high")
      /\ buildImageUrl pf p size fs
         = Ok (js "https://image.tmdb.org/t/p/"
               ++ (if bool_decide (size = js "w500") then js "w780" else js "w1280")
               ++ p)).
Proof.
  intros Hload. unfold buildImageUrl. rewrite Hload. cbn [bind_result].
  apply loadConfig_settled in Hload as (_ & _ & _ & Hq & _).
  destruct (obj_get (user config) (js "imageQuality")) as [| | | |q| |];
    try discriminate.
  cbn [includes] in Hq. apply bool_decide_eq_true in Hq.
  unfold ImageQuality in Hq.
  apply elem_of_cons in Hq as [->|Hq]; [left; split; [done|reflexivity]|].
  apply elem_of_cons in Hq as [->|Hq]; [right; left; split; [done|reflexivity]|].
  apply list_elem_of_singleton in Hq as ->. right; right. split; [done|reflexivity].
Qed.

(** X20. When the configuration loads, the quality is low, medium or
    high, and buildImageUrl of the storage service answers with the TMDB
    image address of the path in the size that the quality gives: w185,
    w500 or w780 when the size asked for is w500, and w300, w780 or w1280
    for every other size asked for, whatever it is. *)
Theorem buildImageUrl_sizes (pf : Platform) (imagePath size : jsstring) (fs : FS)
    (config : ConfigFile) :
  loadConfig pf fs = Ok config ->
  (obj_get (user config) (js "imageQuality") = JStr (js "low")
   /\ buildImageUrl pf imagePath size fs
      = Ok (js "https://image.tmdb.org/t/p/"
            ++ (if bool_decide (size = js "w500") then js "w185" else js "w300")
            ++ imagePath))
  \/ (obj_get (user config) (js "imageQuality") = JStr (js "medium")
      /\ buildImageUrl pf imagePath size fs
         = Ok (js "https://image.tmdb.org/t/p/"
               ++ (if bool_decide (size = js "w500") then js "w500" else js "w780")
               ++ imagePath))
  \/ (obj_get (user config) (js "imageQuality") = JStr (js "high")
      /\ buildImageUrl pf imagePath size fs
         = Ok (js "https://image.tmdb.org/t/p/"
               ++ (if bool_decide (size = js "w500") then js "w780" else js "w1280")
               ++ imagePath)).
Proof. apply buildImageUrl_of_quality. Qed.

Lemma buildImageUrl_sizes_witness :
  buildImageUrl (Demo.platform Demo.offline) (js "/poster603.jpg") (js "original")
    Demo.configured
  = Ok (js "https://image.tmdb.org/t/p/w780/poster603.jpg").
Proof.
  destruct (buildImageUrl_sizes (Demo.platform Demo.offline) (js "/poster603.jpg")
              (js "original") Demo.configured
              {| user := <[js "imageQuality" := JStr (js "medium")]>
                           (obj [ (js "imageQuality", JStr (js "ultra"));
                                  (js "defaultOutputDir", JStr (js "/srv/films")) ]
                            ∪ (DEFAULT_CONFIG ∪ ∅));
                 app := DEFAULT_APP_CONFIG ∪ ∅;
                 lastUpdated := JStr (js "2025-01-01T00:00:00.000Z") |})
    as [[Hq _]|[[_ Hurl]|[Hq _]]].
  - vm_compute. reflexivity.
  - vm_compute in Hq. discriminate Hq.
  - exact Hurl.
  - vm_compute in Hq. discriminate Hq.
Defined.

(** X21. The addresses getFilmImages shows are the addresses the storage
    service downloads from: with the base address of TMDB, the poster
    address is the one buildImageUrl gives for w500 and the backdrop
    address the one it gives for w780, and there is none when the
    configuration does not load. *)
Theorem getFilmImages_matches_downloads (pf : Platform) (film : Film) (fs : FS) :
  (forall p url : jsstring,
      present (posterPath film) = Some p ->
      fst (getFilmImages pf (js "https://image.tmdb.org/t/p/") film fs) = Some url
      <-> buildImageUrl pf p (js "w500") fs = Ok url)
  /\ (forall p url : jsstring,
        present (backdropPath film) = Some p ->
        snd (getFilmImages pf (js "https://image.tmdb.org/t/p/") film fs) = Some url
        <-> buildImageUrl pf p (js "w780") fs = Ok url).
Proof.
  split; intros p url Hp; unfold getFilmImages, buildImageUrl; rewrite Hp;
    destruct (loadConfig pf fs) as [config|e]; cbn [bind_result fst snd];
    try (split; discriminate).
  - rewrite bool_decide_eq_true_2 by done.
    repeat (destruct (is_str _ _)); cbn [fst snd];
      split; intros [= <-]; reflexivity.
  - rewrite bool_decide_eq_false_2 by js_neq.
    repeat (destruct (is_str _ _)); cbn [fst snd];
      split; intros [= <-]; reflexivity.
Qed.

Lemma getFilmImages_matches_downloads_witness :
  fst (getFilmImages (Demo.platform Demo.offline) (js "https://image.tmdb.org/t/p/")
         Demo.matrix Demo.fresh)
  = Some (js "https://image.tmdb.org/t/p/w500/poster603.jpg").
Proof.
  apply (proj1 (getFilmImages_matches_downloads (Demo.platform Demo.offline)
                  Demo.matrix Demo.fresh)
           (js "/poster603.jpg")
           (js "https://image.tmdb.org/t/p/w500/poster603.jpg")).
  - reflexivity.
  - vm_compute. reflexivity.
Defined.

End FilmExtras.

(** ** The collection of saved films *)

Module TreeFacts.
Import Types ConfigManager StorageService FileHelpers.
Import JsStringFacts FsFacts FsMoreFacts ConfigManagerFacts SaveFacts.

Lemma child_eq_inv (p q : path) (x y : jsstring) :
  child p x = child q y -> p = q /\ x = y.
Proof. unfold child. intros H. by apply app_inj_tail in H. Qed.

Lemma child_nonempty (p : path) (x : jsstring) : child p x <> [].
Proof. unfold child. by destruct p. Qed.

Lemma tree_insert_dir (fs : FS) (p : path) (x : jsstring) :
  tree fs -> is_dir fs p = true -> tree (<[child p x := Dir]> fs).
Proof.
  intros Ht Hp q y Hq.
  destruct (decide (q = child p x)) as [->|Hne].
  { apply is_dir_child. apply lookup_insert_eq. }
  rewrite is_dir_insert_ne by done.
  destruct (decide (child q y = child p x)) as [E|E].
  - apply child_eq_inv in E as [-> _]. done.
  - rewrite lookup_insert_ne in Hq by done. by apply (Ht q y).
Qed.

Lemma tree_insert_file (fs : FS) (p : path) (x d : jsstring) :
  tree fs -> is_dir fs p = true -> fs !! child p x <> Some Dir ->
  tree (<[child p x := File d]> fs).
Proof.
  intros Ht Hp Hx q y Hq.
  destruct (decide (child q y = child p x)) as [E|E].
  - apply child_eq_inv in E as [-> _].
    rewrite is_dir_insert_ne; [done|]. intros E. by apply (child_ne_self p x).
  - rewrite lookup_insert_ne in Hq by done.
    pose proof (Ht q y Hq) as Hd.
    rewrite is_dir_insert_ne; [done|].
    intros ->. by apply is_dir_child in Hd.
Qed.

Lemma mkdirs_tree (fs : FS) (made todo : path) (fs' : FS) :
  tree fs -> is_dir fs made = true -> mkdirs fs made todo = Ok fs' -> tree fs'.
Proof.
  revert fs made. induction todo as [|x todo IH]; intros fs made Ht Hd H; cbn in H.
  - by injection H as <-.
  - destruct (fs !! (made ++ [x])) as [[]|] eqn:E; [discriminate| |].
    + apply (IH fs (made ++ [x])); [done| |done]. by apply is_dir_child.
    + apply (IH (<[made ++ [x] := Dir]> fs) (made ++ [x])); [| |done].
      * by apply tree_insert_dir.
      * apply is_dir_child. apply lookup_insert_eq.
Qed.

Lemma tree_empty : tree ∅.
Proof. intros p x [n Hn]. by rewrite lookup_empty in Hn. Qed.

Lemma tree_fresh : tree Demo.fresh.
Proof.
  replace Demo.fresh
    with (<[child [js "home"] (js "ada") := Dir]>
            (<[child [] (js "home") := Dir]> (∅ : FS)))
    by (vm_compute; reflexivity).
  apply tree_insert_dir; [apply tree_insert_dir; [apply tree_empty|done]|].
  apply (proj2 (is_dir_child _ [] (js "home"))). apply lookup_insert_eq.
Qed.

Lemma keeps_tree_ret {A} (a : A) : keeps_tree (ret a).
Proof. intros fs r fs' Ht [= _ <-]. done. Qed.

Lemma keeps_tree_read {A} (f : FS -> result A) : keeps_tree (read f).
Proof. intros fs r fs' Ht [= _ <-]. done. Qed.

Lemma keeps_tree_bind {A B} (m : M A) (k : A -> M B) :
  keeps_tree m -> (forall a, keeps_tree (k a)) -> keeps_tree (bind m k).
Proof.
  intros Hm Hk fs r fs' Ht. unfold bind.
  destruct (m fs) as [[a|e] fs1] eqn:E.
  - apply Hk. by eapply Hm.
  - intros [= _ <-]. by eapply Hm.
Qed.

Lemma keeps_tree_try_rethrow {A} (wrap : exn -> exn) (m : M A) :
  keeps_tree m -> keeps_tree (try_rethrow wrap m).
Proof.
  intros Hm fs r fs' Ht. unfold try_rethrow.
  destruct (m fs) as [[a|e] fs1] eqn:E; intros [= _ <-]; by eapply Hm.
Qed.

Lemma keeps_tree_settled {A} (m : M A) : keeps_tree m -> keeps_tree (settled m).
Proof.
  intros Hm fs r fs' Ht. unfold settled.
  destruct (m fs) as [[a|[]] fs1] eqn:E; intros [= _ <-]; by eapply Hm.
Qed.

Lemma ensureDirectoryExists_tree (d : path) : keeps_tree (ensureDirectoryExists d).
Proof.
  apply keeps_tree_try_rethrow. intros fs r fs' Ht.
  destruct (existsSync d fs); cbn [negb]; [by intros [= _ <-]|].
  unfold update, mkdirSync_recursive.
  destruct (mkdirs fs [] d) as [fs1|e] eqn:M; intros [= _ <-]; [|done].
  by apply (mkdirs_tree fs [] d).
Qed.

Lemma tree_write (fs : FS) (p : path) (d : jsstring) :
  tree fs -> p <> [] -> is_dir fs (dirname p) = true -> fs !! p <> Some Dir ->
  tree (<[p := File d]> fs).
Proof.
  intros Ht Hne Hd Hp. destruct p as [|x p _] using rev_ind; [done|].
  unfold dirname in Hd. rewrite removelast_last in Hd.
  by apply (tree_insert_file fs p x d).
Qed.

Lemma writeFileSync_tree (p : path) (d : jsstring) :
  keeps_tree (update (writeFileSync p d)).
Proof.
  intros fs r fs' Ht. unfold update.
  destruct (writeFileSync p d fs) as [fs1|e] eqn:W; intros [= _ <-]; [|done].
  apply writeFileSync_inv in W as (Hne & Hd & Hp & ->). by apply tree_write.
Qed.

Lemma writeTextFile_tree (p : path) (content : jsstring) :
  keeps_tree (writeTextFile p content).
Proof.
  apply keeps_tree_try_rethrow, keeps_tree_bind.
  - apply ensureDirectoryExists_tree.
  - intros _. apply writeFileSync_tree.
Qed.

Lemma writeJsonFile_tree (pf : Platform) (p : path) (data : JSValue) :
  keeps_tree (writeJsonFile pf p data).
Proof.
  apply keeps_tree_try_rethrow, keeps_tree_bind.
  - apply ensureDirectoryExists_tree.
  - intros _. destruct data; try apply writeFileSync_tree.
    intros fs r fs' Ht. unfold read. by intros [= _ <-].
Qed.

Lemma downloadImage_tree (pf : Platform) (url : jsstring) (p : path)
    (imageType : jsstring) :
  keeps_tree (downloadImage pf url p imageType).
Proof.
  intros fs r fs' Ht. unfold downloadImage.
  destruct (writeFileSync p [] fs) as [opened|e] eqn:W; [|by intros [= _ <-]].
  apply writeFileSync_inv in W as (Hne & Hd & Hp & ->).
  destruct (https_get pf url) as [statusCode body|m].
  - destruct (statusCode =? 200)%Z; intros [= _ <-].
    + rewrite insert_insert_eq. by apply tree_write.
    + by apply tree_write.
  - intros [= _ <-]. by apply tree_write.
Qed.

Lemma downloadOne_tree (pf : Platform) (imagePath : option jsstring)
    (size : jsstring) (filmDir : path) (fileName imageType : jsstring) :
  keeps_tree (downloadOne pf imagePath size filmDir fileName imageType).
Proof.
  unfold downloadOne. destruct (present imagePath) as [p|]; [|apply keeps_tree_ret].
  apply keeps_tree_bind; [apply keeps_tree_read|].
  intros [|c url]; [apply keeps_tree_ret|].
  apply keeps_tree_settled, downloadImage_tree.
Qed.

Lemma downloadFilmImages_tree (pf : Platform) (film : Film) (filmDir : path) :
  keeps_tree (downloadFilmImages pf film filmDir).
Proof.
  apply keeps_tree_bind; [apply downloadOne_tree|]. intros _. apply downloadOne_tree.
Qed.

Lemma saveFilm_tree (pf : Platform) (film : Film) (outputDir : option jsstring) :
  keeps_tree (saveFilm pf film outputDir).
Proof.
  apply keeps_tree_try_rethrow.
  apply keeps_tree_bind; [apply keeps_tree_read|]. intros config.
  apply keeps_tree_bind; [apply keeps_tree_read|]. intros filmDir.
  apply keeps_tree_bind; [apply ensureDirectoryExists_tree|]. intros _.
  apply keeps_tree_bind; [apply writeJsonFile_tree|]. intros _.
  apply keeps_tree_bind; [apply writeTextFile_tree|]. intros _.
  apply keeps_tree_bind; [|intros _; apply keeps_tree_ret].
  destruct (truthy _); [apply downloadFilmImages_tree|apply keeps_tree_ret].
Qed.

(** *** What a write leaves, whatever its outcome *)

Lemma write_file_effect (wrap : exn -> exn) (p : path) (text : jsstring)
    (fs : FS) (r : result unit) (fs' : FS) :
  try_rethrow wrap
    (ensureDirectoryExists (dirname p) ;; update (writeFileSync p text)) fs
  = (r, fs') ->
  writes_within [p] fs fs'.
Proof.
  unfold try_rethrow, bind, update.
  destruct (ensureDirectoryExists (dirname p) fs) as [[[]|e] fs1] eqn:E.
  - apply ensureDirectoryExists_grows in E.
    destruct (writeFileSync p text fs1) as [fs2|e] eqn:W; intros [= _ <-].
    + apply writeFileSync_ok in W as ->.
      apply (writes_within_trans _ fs fs1); [by apply writes_within_grows|].
      apply writes_within_insert. apply list_elem_of_here.
    + by apply writes_within_grows.
  - apply ensureDirectoryExists_grows in E. intros [= _ <-].
    by apply writes_within_grows.
Qed.

Lemma writeJsonFile_effect (pf : Platform) (p : path) (data : JSValue)
    (fs : FS) (r : result unit) (fs' : FS) :
  writeJsonFile pf p data fs = (r, fs') -> writes_within [p] fs fs'.
Proof.
  unfold writeJsonFile.
  destruct data; try apply write_file_effect.
  unfold try_rethrow, bind, read.
  destruct (ensureDirectoryExists (dirname p) fs) as [[[]|e] fs1] eqn:E;
    apply ensureDirectoryExists_grows in E; intros [= _ <-];
    by apply writes_within_grows.
Qed.

Lemma film_files_of (dir : path) (x : jsstring) :
  x ∈ film_files -> child dir x ∈ List.map (child dir) film_files.
Proof. intros H. apply list_elem_of_fmap. by exists x. Qed.

(** What a save leaves, whatever its outcome. *)
Lemma saveFilm_effect (pf : Platform) (film : Film) (outputDir : option jsstring)
    (fs : FS) (r : result path) (fs' : FS) :
  saveFilm pf film outputDir fs = (r, fs') ->
  exists dir : path, writes_within (List.map (child dir) film_files) fs fs'.
Proof.
  unfold saveFilm, try_rethrow, bind, read, ret.
  destruct (loadConfig pf fs) as [config|];
    [|intros [= _ <-]; exists []; apply writes_within_refl].
  destruct (resolveFilmDir pf _ _) as [filmDir|];
    [|intros [= _ <-]; exists []; apply writes_within_refl].
  set (written := List.map (child filmDir) film_files).
  destruct (ensureDirectoryExists filmDir fs) as [r1 fs1] eqn:H1.
  assert (W1 : writes_within written fs fs1)
    by (apply writes_within_grows; by eapply ensureDirectoryExists_grows).
  destruct r1 as [[]|]; [|intros [= _ <-]; by exists filmDir].
  destruct (writeJsonFile pf (child filmDir (js "data.json")) (js_of_film film) fs1)
    as [r2 fs2] eqn:H2.
  assert (W2 : writes_within written fs fs2).
  { apply (writes_within_trans _ fs fs1); [done|].
    eapply writes_within_mono; [|by eapply writeJsonFile_effect].
    intros p Hp. apply list_elem_of_singleton in Hp as ->.
    apply film_files_of. unfold film_files. in_list. }
  destruct r2 as [[]|]; [|intros [= _ <-]; by exists filmDir].
  destruct (writeTextFile (child filmDir (js "metadata.txt"))
              (generateMetadataText pf film) fs2) as [r3 fs3] eqn:H3.
  assert (W3 : writes_within written fs fs3).
  { apply (writes_within_trans _ fs fs2); [done|].
    eapply writes_within_mono; [|by eapply write_file_effect].
    intros p Hp. apply list_elem_of_singleton in Hp as ->.
    apply film_files_of. unfold film_files. in_list. }
  destruct r3 as [[]|]; [|intros [= _ <-]; by exists filmDir].
  set (images := if truthy (obj_get (user config) (js "downloadImages"))
                 then downloadFilmImages pf film filmDir
                 else (fun fs => (Ok tt, fs))).
  destruct (images fs3) as [r4 fs4] eqn:H4.
  assert (W4 : writes_within written fs fs4).
  { apply (writes_within_trans _ fs fs3); [done|].
    subst images. destruct (truthy _).
    - eapply writes_within_mono; [|by eapply downloadFilmImages_effect].
      intros p Hp. apply elem_of_cons in Hp as [->|Hp].
      + apply film_files_of. unfold film_files. in_list.
      + apply list_elem_of_singleton in Hp as ->.
        apply film_files_of. unfold film_files. in_list.
    - injection H4 as _ <-. apply writes_within_refl. }
  destruct r4 as [[]|]; intros [= _ <-]; by exists filmDir.
Qed.

(** *** Names that are one segment *)

Lemma split_on_plain_name (name : jsstring) :
  Forall (fun c => c <> slash) name -> split_on slash name = [name].
Proof. apply split_on_plain. Qed.

Lemma path_join_plain (base : path) (name : jsstring) :
  plain_name name -> path_join base name = child base name.
Proof.
  intros (Hne & Hdot & Hdotdot & Hslash). unfold path_join.
  rewrite split_on_plain_name by done. cbn [fold_left]. unfold push_segment.
  rewrite !bool_decide_eq_false_2 by done. done.
Qed.

Lemma createFilmDirectoryName_plain (filmId : Z) (filmTitle : jsstring) :
  plain_name (createFilmDirectoryName filmId filmTitle).
Proof.
  unfold plain_name, createFilmDirectoryName. cbv zeta.
  pose proof (Number_toString_chars filmId) as Hc.
  pose proof (Number_toString_nonempty filmId) as Hn.
  split; [|split; [|split]].
  - destruct (Number_toString filmId); done.
  - destruct (Number_toString filmId) as [|c s]; [done|].
    inversion Hc as [|? ? [Hd| ->] _]; [|discriminate].
    intros [= -> _]. unfold is_digit in Hd. lia.
  - destruct (Number_toString filmId) as [|c s]; [done|].
    inversion Hc as [|? ? [Hd| ->] _]; [|discriminate].
    intros [= -> _]. unfold is_digit in Hd. lia.
  - apply Forall_app. split.
    + eapply Forall_impl; [exact Hc|].
      intros c [Hd| ->]; [|discriminate].
      unfold is_digit in Hd. unfold slash. lia.
    + constructor; [discriminate|].
      eapply Forall_impl; [apply FileHelpersFacts.sanitizeFilename_safe|].
      intros c [Hi _] ->. discriminate Hi.
Qed.

End TreeFacts.

Module StorageMoreFacts.
Import Types ConfigManager StorageService FileHelpers.
Import JsStringFacts FsFacts FsMoreFacts ConfigManagerFacts StorageServiceFacts.
Import SaveFacts TreeFacts.

Lemma path_join_nil (base : path) : path_join base [] = base.
Proof. reflexivity. Qed.

Lemma path_join_dot (base : path) : path_join base dot = base.
Proof. reflexivity. Qed.

(** In a tree what leads to a directory is directories. *)
Lemma tree_prefix_dir (fs : FS) (p q : path) :
  tree fs -> is_dir fs p = true -> q `prefix_of` p -> is_dir fs q = true.
Proof.
  intros Ht Hp [k ->]. revert Hp.
  induction k as [|x k IH] using rev_ind; [by rewrite app_nil_r|].
  rewrite app_assoc. intros Hp. apply IH. apply (Ht _ x).
  change ((q ++ k) ++ [x]) with (child (q ++ k) x) in Hp.
  apply is_dir_child in Hp. by rewrite Hp.
Qed.

(** In a tree the kernel reaches a directory by a text without [..]. *)
Lemma reach_tree (cwd : path) (s : jsstring) (fs : FS) :
  tree fs -> s <> [] ->
  Forall (fun seg => seg <> dotdot) (split_on slash s) ->
  is_dir fs (path_resolve cwd s) = true ->
  reach cwd s fs = Some (path_resolve cwd s).
Proof.
  intros Ht Hs Hseg Hdir. unfold reach, path_resolve, path_join in *.
  destruct s as [|c s]; [done|].
  destruct (is_absolute (c :: s));
    (apply PathFacts.follow_descends; [done|];
     intros q _ Hq; by apply (tree_prefix_dir fs _ q Ht Hdir)).
Qed.

(** What a deletion does once the configuration is loaded: what
    [removeDirectory] does with the joined text. *)
Lemma deleteFilm_effect (pf : Platform) (filmDirName : jsstring)
    (outputDir : option jsstring) (fs : FS) (config : ConfigFile) (s : jsstring) :
  loadConfig pf fs = Ok config ->
  baseOutputDir outputDir config = JStr s ->
  (forall (p : path) (seg : jsstring),
      reach (cwd pf) (path_join_text s filmDirName) fs = Some p ->
      is_dir fs p = true ->
      final_segment (path_join_text s filmDirName) = Some seg ->
      seg <> dot -> seg <> dotdot ->
      exists fs' : FS,
        deleteFilm pf filmDirName outputDir fs = (Ok tt, fs')
        /\ cleared p fs' /\ same_outside p fs fs')
  /\ (forall p : path,
        reach (cwd pf) (path_join_text s filmDirName) fs = Some p ->
        is_dir fs p = true ->
        final_segment (path_join_text s filmDirName) = Some dot ->
        deleteFilm pf filmDirName outputDir fs
        = (Throw (FileSystemError
                    (js "Failed to delete film: Failed to remove directory: EINVAL")
                    filmDirName (js "delete")), fs))
  /\ ((forall p : path,
          reach (cwd pf) (path_join_text s filmDirName) fs = Some p ->
          is_dir fs p = false) ->
      deleteFilm pf filmDirName outputDir fs = (Ok tt, fs)).
Proof.
  intros Hload Hbase.
  destruct (removeDirectory_effect pf (path_join_text s filmDirName) fs)
    as (Hname & Hdot & Hnone).
  unfold deleteFilm, try_rethrow, bind, read, ret.
  rewrite Hload, Hbase. cbn [join_arg].
  split; [|split].
  - intros p seg Hp Hd Hf H1 H2.
    destruct (Hname p seg Hp Hd Hf H1 H2) as (fs' & Hrm & Hc & Hs).
    rewrite Hp, directoryExists_is_dir, Hd, Hrm. by exists fs'.
  - intros p Hp Hd Hf.
    by rewrite Hp, directoryExists_is_dir, Hd, (Hdot p Hp Hd Hf).
  - intros Hno. destruct (reach (cwd pf) (path_join_text s filmDirName) fs)
      as [p|]; [|done].
    by rewrite directoryExists_is_dir, (Hno p eq_refl).
Qed.

Lemma within_child_inv (dir : path) (x y : jsstring) :
  within (child dir x) (child dir y) = true -> x = y.
Proof.
  unfold within, child. intros H%bool_decide_eq_true.
  destruct H as [k Hk]. rewrite <- app_assoc in Hk.
  apply app_inv_head in Hk. by injection Hk.
Qed.

Lemma within_grandchild_inv (dir : path) (x y z : jsstring) :
  within (child dir x) (child (child dir y) z) = true -> x = y.
Proof.
  unfold within, child. intros H%bool_decide_eq_true.
  destruct H as [k Hk]. rewrite <- !app_assoc in Hk.
  apply app_inv_head in Hk. by injection Hk.
Qed.

Lemma within_child_ne (dir : path) (x y : jsstring) :
  x <> y -> within (child dir y) (child dir x) = false.
Proof.
  intros Hne. destruct (within (child dir y) (child dir x)) eqn:E; [|done].
  apply within_child_inv in E. congruence.
Qed.

Lemma within_grandchild_ne (dir : path) (x y z : jsstring) :
  x <> y -> within (child dir y) (child (child dir x) z) = false.
Proof.
  intros Hne. destruct (within (child dir y) (child (child dir x) z)) eqn:E; [|done].
  apply within_grandchild_inv in E. congruence.
Qed.

Lemma within_parent (dir : path) (x : jsstring) : within (child dir x) dir = false.
Proof.
  unfold within. apply bool_decide_eq_false. apply ConfigMoreFacts.child_not_prefix.
Qed.

Lemma same_outside_is_dir (dir : path) (fs fs' : FS) (p : path) :
  same_outside dir fs fs' -> within dir p = false -> is_dir fs' p = is_dir fs p.
Proof.
  intros H Hp. unfold is_dir, lookup_node. destruct p; [done|]. by rewrite H.
Qed.

(** A walk without [..] that ends outside [dir] stays a walk when only
    what lies in [dir] changes. *)
Lemma follow_outside (dir : path) (fs fs' : FS) (here : path)
    (segments : list jsstring) (p : path) :
  same_outside dir fs fs' ->
  Forall (fun seg => seg <> dotdot) segments ->
  follow fs here segments = Some p ->
  within dir p = false ->
  follow fs' here segments = Some p.
Proof.
  intros Hsame H. revert here.
  induction H as [|seg rest Hseg Hrest IH]; intros here; cbn; [done|].
  destruct (is_dir fs here) eqn:Hd; [|done]. intros Hf Hw.
  rewrite (same_outside_is_dir dir fs fs' here Hsame), Hd; [by apply IH|].
  apply bool_decide_eq_false. intros Hpre.
  apply bool_decide_eq_false in Hw. apply Hw.
  apply PathFacts.follow_lexical in Hf as ->.
  etrans; [exact Hpre|]. etrans; [by apply PathFacts.push_segment_prefix|].
  by apply PathFacts.fold_push_prefix.
Qed.

Lemma reach_outside (dir : path) (cwd : path) (s : jsstring) (fs fs' : FS)
    (p : path) :
  same_outside dir fs fs' ->
  Forall (fun seg => seg <> dotdot) (split_on slash s) ->
  reach cwd s fs = Some p ->
  within dir p = false ->
  reach cwd s fs' = Some p.
Proof.
  intros Hsame Hseg. unfold reach. destruct s; [done|].
  by apply follow_outside.
Qed.

Lemma within_below (dir : path) (x y : jsstring) :
  within (child dir x) (child (child dir x) y) = true.
Proof.
  unfold within. apply bool_decide_eq_true. unfold child. by apply prefix_app_r.
Qed.

(** The base directory behind a listing. *)
Lemma fs_path_inv (pf : Platform) (v : JSValue) (fs : FS) (base : path) :
  fs_path pf v fs = Some base ->
  exists s : jsstring,
    v = JStr s /\ s <> [] /\ reach (cwd pf) s fs = Some base
    /\ base = path_resolve (cwd pf) s.
Proof.
  unfold fs_path. destruct v as [| | | |s| |]; try done.
  intros H. destruct (PathFacts.reach_resolve _ _ _ _ H) as [Hs ->].
  by exists s.
Qed.

(** *** Sizes *)



(** The downloads touch nothing but the two image files. *)
Lemma downloadFilmImages_outside (pf : Platform) (film : Film) (filmDir : path)
    (fs : FS) (r : result unit) (fs' : FS) :
  downloadFilmImages pf film filmDir fs = (r, fs') ->
  forall p : path,
    p <> child filmDir (js "poster.jpg") ->
    p <> child filmDir (js "backdrop.jpg") ->
    fs' !! p = fs !! p.
Proof.
  unfold downloadFilmImages, bind. intros H p H1 H2.
  destruct (downloadOne pf (posterPath film) _ _ _ _ fs) as [r1 fs1] eqn:E1.
  apply downloadOne_effect in E1.
  assert (Hfs1 : fs1 !! p = fs !! p).
  { destruct E1 as [->|[d ->]]; [done|]. by rewrite lookup_insert_ne. }
  destruct r1 as [[]|e].
  - apply downloadOne_effect in H. rewrite <- Hfs1.
    destruct H as [->|[d ->]]; [done|]. by rewrite lookup_insert_ne.
  - by injection H as _ <-.
Qed.

End StorageMoreFacts.

Module StorageExtras.
Import Types ConfigManager StorageService FileHelpers.
Import JsStringFacts FsFacts FsMoreFacts ConfigManagerFacts StorageServiceFacts.
Import SaveFacts TreeFacts StorageMoreFacts.

(** X22. A film that was saved is listed: after saveFilm returned,
    listSavedFilms for the same output directory holds the directory name
    of the film.  It takes a file system that is a tree, an output
    directory whose text is not empty and has no segment [..] (saveFilm
    resolves the text, listSavedFilms hands it to the kernel as it is, and
    the two agree on such a text), and a configuration that loads after the
    save. *)
Theorem saveFilm_listSavedFilms (pf : Platform) (film : Film)
    (outputDir : option jsstring) (fs fs' : FS) (dir : path)
    (config : ConfigFile) (text : jsstring) :
  tree fs ->
  loadConfig pf fs = Ok config ->
  baseOutputDir outputDir config = JStr text ->
  text <> [] ->
  Forall (fun seg => seg <> dotdot) (split_on slash text) ->
  saveFilm pf film outputDir fs = (Ok dir, fs') ->
  is_ok (loadConfig pf fs') = true ->
  exists names : list jsstring,
    listSavedFilms pf outputDir fs' = Ok names
    /\ createFilmDirectoryName (id film) (title film) ∈ names.
Proof.
  intros Ht Hload Htext Hne Hseg Hsave Hconfig.
  pose proof (saveFilm_tree pf film outputDir fs (Ok dir) fs' Ht Hsave) as Ht'.
  apply saveFilm_inv in Hsave as (config0 & s & Hload0 & Hbase & -> & Hdata & Hsame).
  rewrite Hload in Hload0. injection Hload0 as <-.
  rewrite Htext in Hbase. injection Hbase as <-. rename Htext into Hbase.
  assert (Hload' : loadConfig pf fs' = Ok config).
  { destruct Hsame as [E|[_ E]].
    - by rewrite (loadConfig_ext pf fs' fs E).
    - by rewrite (loadConfig_of_dir pf fs' E) in Hconfig. }
  set (base := path_resolve (cwd pf) text) in *.
  set (name := createFilmDirectoryName (id film) (title film)) in *.
  rewrite (path_join_plain base name) in Hdata
    by apply createFilmDirectoryName_plain.
  assert (Hdir : fs' !! child base name = Some Dir).
  { apply is_dir_child. apply (Ht' _ (js "data.json")). by eexists. }
  assert (Hbasedir : is_dir fs' base = true).
  { apply (Ht' base name). by eexists. }
  eexists. split; [by apply listSavedFilms_ok|].
  rewrite Hbase. cbn [fs_path].
  rewrite (reach_tree (cwd pf) text fs' Ht' Hne Hseg Hbasedir).
  fold base. rewrite Hbasedir.
  rewrite list_elem_of_In, List.filter_In, <- list_elem_of_In. split.
  - apply entries_spec. by eexists.
  - apply isSavedFilm_spec. split; [done|by eexists].
Qed.

Lemma saveFilm_listSavedFilms_witness :
  exists names : list jsstring,
    listSavedFilms (Demo.platform Demo.offline) None
      (snd (saveFilm (Demo.platform Demo.offline) Demo.matrix None Demo.fresh))
    = Ok names
    /\ createFilmDirectoryName (id Demo.matrix) (title Demo.matrix) ∈ names.
Proof.
  apply (saveFilm_listSavedFilms (Demo.platform Demo.offline) Demo.matrix None
           Demo.fresh
           (snd (saveFilm (Demo.platform Demo.offline) Demo.matrix None Demo.fresh))
           Demo.matrix_dir
           (createDefaultConfig (Demo.platform Demo.offline)) (js "./films")).
  - apply tree_fresh.
  - vm_compute. reflexivity.
  - vm_compute. reflexivity.
  - discriminate.
  - vm_compute. repeat constructor; discriminate.
  - apply pair_of_fst_ok. vm_compute. reflexivity.
  - vm_compute. reflexivity.
Defined.

(** X23. A save, whatever its outcome, leaves every entry of the file
    system as it was, except entries named data.json, metadata.txt,
    poster.jpg or backdrop.jpg: no other file is changed or removed, the
    configuration and the other films included. *)
Theorem saveFilm_keeps_other_files (pf : Platform) (film : Film)
    (outputDir : option jsstring) (fs : FS) (p : path) (n : node) :
  fs !! p = Some n ->
  (forall (dir : path) (x : jsstring), x ∈ film_files -> p <> child dir x) ->
  snd (saveFilm pf film outputDir fs) !! p = Some n.
Proof.
  intros Hp Hother.
  destruct (saveFilm pf film outputDir fs) as [r fs'] eqn:Hsave. cbn [snd].
  apply saveFilm_effect in Hsave as [dir Hw].
  eapply writes_within_lookup; [exact Hw| |exact Hp].
  intros Hin. apply list_elem_of_fmap in Hin as (x & -> & Hx).
  by apply (Hother dir x).
Qed.

Lemma saveFilm_keeps_other_files_witness :
  snd (saveFilm (Demo.platform Demo.online) Demo.matrix None Demo.library)
  !! child (child Demo.home (js "films")) (js "readme.txt")
  = Some (File (js "my films")).
Proof.
  apply (saveFilm_keeps_other_files (Demo.platform Demo.online) Demo.matrix None
           Demo.library).
  - vm_compute. reflexivity.
  - intros dir x Hx. unfold film_files in Hx.
    repeat (apply elem_of_cons in Hx as [->|Hx];
            [apply child_last_ne; discriminate|]).
    by apply elem_of_nil in Hx.
Defined.

(** X24. deleteFilm hands the text that [path.join] makes of the output
    directory and the name to removeDirectory.  Where the kernel reaches a
    directory by that text and the text ends in a name, deleteFilm returns
    with nothing left at that directory or below it, and every path
    outside holds what it held; where the text ends in a dot, as the text
    of [./films] and [..] does, it throws a FileSystemError for the name
    and removes nothing; where the text leads to no directory it returns
    and changes nothing.  For a name that is one path segment the text
    leads to the entry of that name in the output directory; for the empty
    name it is the normalised text of the output directory itself. *)
Theorem deleteFilm_outcome (pf : Platform) (filmDirName : jsstring)
    (outputDir : option jsstring) (fs : FS) (config : ConfigFile) (s : jsstring) :
  loadConfig pf fs = Ok config ->
  baseOutputDir outputDir config = JStr s ->
  (forall (p : path) (seg : jsstring),
      reach (cwd pf) (path_join_text s filmDirName) fs = Some p ->
      is_dir fs p = true ->
      final_segment (path_join_text s filmDirName) = Some seg ->
      seg <> dot -> seg <> dotdot ->
      exists fs' : FS,
        deleteFilm pf filmDirName outputDir fs = (Ok tt, fs')
        /\ cleared p fs' /\ same_outside p fs fs')
  /\ (forall p : path,
        reach (cwd pf) (path_join_text s filmDirName) fs = Some p ->
        is_dir fs p = true ->
        final_segment (path_join_text s filmDirName) = Some dot ->
        exists message : jsstring,
          deleteFilm pf filmDirName outputDir fs
          = (Throw (FileSystemError message filmDirName (js "delete")), fs))
  /\ ((forall p : path,
          reach (cwd pf) (path_join_text s filmDirName) fs = Some p ->
          is_dir fs p = false) ->
      deleteFilm pf filmDirName outputDir fs = (Ok tt, fs))
  /\ (forall base : path,
        reach (cwd pf) s fs = Some base ->
        is_dir fs base = true ->
        plain_name filmDirName ->
        reach (cwd pf) (path_join_text s filmDirName) fs
        = Some (child base filmDirName)
        /\ final_segment (path_join_text s filmDirName) = Some filmDirName)
  /\ (s <> [] -> filmDirName = [] ->
      path_join_text s filmDirName = path_normalize s).
Proof.
  intros Hload Hbase.
  destruct (deleteFilm_effect pf filmDirName outputDir fs config s Hload Hbase)
    as (Hname & Hdot & Hnone).
  split; [exact Hname|]. split; [|split; [exact Hnone|split]].
  - intros p Hp Hd Hf. eexists. by apply (Hdot p).
  - intros base Hreach Hd Hplain. by apply PathFacts.reach_join_child.
  - intros Hs ->. by destruct s.
Qed.

Lemma deleteFilm_outcome_witness :
  (exists fs' : FS,
      deleteFilm (Demo.platform Demo.offline) (js "603-The-Matrix") None
        Demo.library
      = (Ok tt, fs')
      /\ cleared (child (child Demo.home (js "films")) (js "603-The-Matrix")) fs')
  /\ (exists fs' : FS,
         deleteFilm (Demo.platform Demo.offline) [] None Demo.library
         = (Ok tt, fs')
         /\ cleared (child Demo.home (js "films")) fs')
  /\ (exists message : jsstring,
         deleteFilm (Demo.platform Demo.offline) (js "..") None Demo.library
         = (Throw (FileSystemError message (js "..") (js "delete")), Demo.library)).
Proof.
  split; [|split].
  - destruct (proj1 (deleteFilm_outcome (Demo.platform Demo.offline)
                       (js "603-The-Matrix") None Demo.library
                       (createDefaultConfig (Demo.platform Demo.offline))
                       (js "./films") eq_refl eq_refl)
                (child (child Demo.home (js "films")) (js "603-The-Matrix"))
                (js "603-The-Matrix"))
      as (fs' & Hdelete & Hcleared & _).
    + vm_compute. reflexivity.
    + vm_compute. reflexivity.
    + vm_compute. reflexivity.
    + intros H. vm_compute in H. discriminate H.
    + intros H. vm_compute in H. discriminate H.
    + exists fs'. by split.
  - destruct (proj1 (deleteFilm_outcome (Demo.platform Demo.offline) [] None
                       Demo.library
                       (createDefaultConfig (Demo.platform Demo.offline))
                       (js "./films") eq_refl eq_refl)
                (child Demo.home (js "films")) (js "films"))
      as (fs' & Hdelete & Hcleared & _).
    + vm_compute. reflexivity.
    + vm_compute. reflexivity.
    + vm_compute. reflexivity.
    + intros H. vm_compute in H. discriminate H.
    + intros H. vm_compute in H. discriminate H.
    + exists fs'. by split.
  - apply (proj1 (proj2 (deleteFilm_outcome (Demo.platform Demo.offline)
                           (js "..") None Demo.library
                           (createDefaultConfig (Demo.platform Demo.offline))
                           (js "./films") eq_refl eq_refl))
             Demo.home).
    + vm_compute. reflexivity.
    + vm_compute. reflexivity.
    + vm_compute. reflexivity.
Defined.

(** X25. Deleting a listed film takes it, and nothing else, off the
    list: where the text of the output directory still leads to that
    directory afterwards, as a text without a segment [..] does,
    listSavedFilms holds the names it held except the deleted one (where it
    does not, the text led through the deleted directory and the list is
    empty); and getSavedFilm of the deleted name answers null.  It takes a
    name that is one path segment and a configuration file that does not
    lie inside the film directory. *)
Theorem deleteFilm_listSavedFilms (pf : Platform) (filmDirName : jsstring)
    (outputDir : option jsstring) (fs fs' : FS) (config : ConfigFile)
    (base : path) (names : list jsstring) :
  loadConfig pf fs = Ok config ->
  fs_path pf (baseOutputDir outputDir config) fs = Some base ->
  listSavedFilms pf outputDir fs = Ok names ->
  filmDirName ∈ names ->
  plain_name filmDirName ->
  within (child base filmDirName) (configPath pf) = false ->
  deleteFilm pf filmDirName outputDir fs = (Ok tt, fs') ->
  exists names' : list jsstring,
    listSavedFilms pf outputDir fs' = Ok names'
    /\ (forall x : jsstring,
          x ∈ names'
          <-> x ∈ names /\ x <> filmDirName
              /\ fs_path pf (baseOutputDir outputDir config) fs' = Some base)
    /\ (forall s : jsstring,
          baseOutputDir outputDir config = JStr s ->
          Forall (fun seg => seg <> dotdot) (split_on slash s) ->
          fs_path pf (baseOutputDir outputDir config) fs' = Some base)
    /\ getSavedFilm pf filmDirName outputDir fs' = Ok JNull.
Proof.
  intros Hload Hbase Hlist Hin Hplain Hconfig Hdelete.
  rewrite (listSavedFilms_ok pf outputDir fs config Hload), Hbase in Hlist.
  injection Hlist as <-.
  destruct (is_dir fs base) eqn:Hbasedir; [|by apply elem_of_nil in Hin].
  assert (Hlisted : forall x : jsstring,
             x ∈ List.filter (isSavedFilm base fs) (entries base fs)
             <-> fs !! child base x = Some Dir
                 /\ is_Some (fs !! child (child base x) (js "data.json"))).
  { intros x. rewrite list_elem_of_In, List.filter_In, <- list_elem_of_In.
    rewrite entries_spec, isSavedFilm_spec. split; [tauto|].
    intros [Hd Hj]. split; [by rewrite Hd|done]. }
  pose proof (fs_path_inv pf _ fs base Hbase) as (s & Hs & Hne & Hreach & Hres).
  destruct (PathFacts.reach_join_child (cwd pf) s filmDirName fs base
              Hreach Hbasedir Hplain) as [Hchild Hfinal].
  pose proof Hplain as (_ & Hndot & Hndotdot & _).
  destruct (deleteFilm_effect pf filmDirName outputDir fs config s Hload Hs)
    as (Hname & _ & _).
  destruct (Hname (child base filmDirName) filmDirName Hchild) as
    (fs0 & Hdelete0 & Hcleared & Hsame); try done.
  { apply is_dir_child. by apply Hlisted. }
  rewrite Hdelete in Hdelete0. injection Hdelete0 as <-.
  assert (Hload' : loadConfig pf fs' = Ok config).
  { rewrite <- Hload. apply loadConfig_ext. by apply Hsame. }
  assert (Hbasedir' : is_dir fs' base = true).
  { by rewrite (same_outside_is_dir _ fs fs' _ Hsame (within_parent _ _)). }
  eexists. split; [by apply listSavedFilms_ok|].
  split; [|split].
  - intros x. rewrite Hlisted.
    destruct (fs_path pf (baseOutputDir outputDir config) fs') as [base'|] eqn:Hbase'.
    2:{ split; [by intros ?%elem_of_nil|]. by intros (_ & _ & ?). }
    pose proof (fs_path_inv pf _ fs' base' Hbase') as (s' & Hs' & _ & _ & Hres').
    rewrite Hs in Hs'. injection Hs' as <-.
    assert (base' = base) as -> by congruence.
    rewrite Hbasedir'.
    rewrite list_elem_of_In, List.filter_In, <- list_elem_of_In.
    rewrite entries_spec, isSavedFilm_spec.
    destruct (decide (x = filmDirName)) as [->|Hx].
    + rewrite (Hcleared _ (within_refl _)). split; [|tauto].
      by intros [[? ?] _].
    + pose proof (within_child_ne base x filmDirName Hx) as H1.
      pose proof (within_grandchild_ne base x filmDirName
                    (js "data.json") Hx) as H2.
      rewrite (Hsame _ H1), (Hsame _ H2). split; [tauto|].
      intros [[Hd Hj] _]. split; [by rewrite Hd|done].
  - intros s0 Hs0 Hseg. rewrite Hs in Hs0. injection Hs0 as <-.
    rewrite Hs. cbn [fs_path].
    apply (reach_outside (child base filmDirName) _ _ fs fs' base Hsame Hseg Hreach).
    apply within_parent.
  - unfold getSavedFilm. rewrite Hload'. cbn [bind_result]. rewrite Hs.
    cbn [bind_result path_arg]. rewrite <- Hres.
    rewrite (path_join_plain _ _ Hplain).
    unfold fileExists. rewrite existsSync_child.
    rewrite (Hcleared _ (within_below _ _ _)).
    rewrite bool_decide_eq_false_2 by (by intros [? ?]). reflexivity.
Qed.

Lemma deleteFilm_listSavedFilms_witness :
  exists names' : list jsstring,
    listSavedFilms (Demo.platform Demo.offline) None
      (snd (deleteFilm (Demo.platform Demo.offline) (js "603-The-Matrix") None
              Demo.library))
    = Ok names'
    /\ (forall x : jsstring,
          x ∈ names'
          <-> x ∈ [js "603-The-Matrix"] /\ x <> js "603-The-Matrix"
              /\ fs_path (Demo.platform Demo.offline)
                   (baseOutputDir None
                      (createDefaultConfig (Demo.platform Demo.offline)))
                   (snd (deleteFilm (Demo.platform Demo.offline)
                           (js "603-The-Matrix") None Demo.library))
                 = Some (child Demo.home (js "films")))
    /\ (forall s : jsstring,
          baseOutputDir None (createDefaultConfig (Demo.platform Demo.offline))
          = JStr s ->
          Forall (fun seg => seg <> dotdot) (split_on slash s) ->
          fs_path (Demo.platform Demo.offline)
            (baseOutputDir None
               (createDefaultConfig (Demo.platform Demo.offline)))
            (snd (deleteFilm (Demo.platform Demo.offline)
                    (js "603-The-Matrix") None Demo.library))
          = Some (child Demo.home (js "films")))
    /\ getSavedFilm (Demo.platform Demo.offline) (js "603-The-Matrix") None
         (snd (deleteFilm (Demo.platform Demo.offline) (js "603-The-Matrix") None
                 Demo.library))
       = Ok JNull.
Proof.
  apply (deleteFilm_listSavedFilms (Demo.platform Demo.offline)
           (js "603-The-Matrix") None Demo.library
           (snd (deleteFilm (Demo.platform Demo.offline) (js "603-The-Matrix") None
                   Demo.library))
           (createDefaultConfig (Demo.platform Demo.offline))
           (child Demo.home (js "films"))).
  - vm_compute. reflexivity.
  - vm_compute. reflexivity.
  - vm_compute. reflexivity.
  - apply list_elem_of_here.
  - apply (createFilmDirectoryName_plain 603 (js "The Matrix")).
  - vm_compute. reflexivity.
  - apply pair_of_fst_ok. vm_compute. reflexivity.
Defined.

(** X26. The network decides nothing of a save but the two image files:
    with other answers from the network saveFilm returns the same directory
    or throws the same exception, and the two file systems it leaves hold
    the same at every path other than [poster.jpg] and [backdrop.jpg] of
    the film directory. *)
Theorem saveFilm_network_only_images (pf : Platform) (film : Film)
    (outputDir : option jsstring) (fs : FS) (net : jsstring -> http_response) :
  fst (saveFilm (with_network pf net) film outputDir fs)
  = fst (saveFilm pf film outputDir fs)
  /\ exists filmDir : path,
       (forall d : path, fst (saveFilm pf film outputDir fs) = Ok d -> d = filmDir)
       /\ forall p : path,
            p <> child filmDir (js "poster.jpg") ->
            p <> child filmDir (js "backdrop.jpg") ->
            snd (saveFilm (with_network pf net) film outputDir fs) !! p
            = snd (saveFilm pf film outputDir fs) !! p.
Proof.
  unfold saveFilm, try_rethrow, bind, read, ret.
  change (loadConfig (with_network pf net) fs) with (loadConfig pf fs).
  destruct (loadConfig pf fs) as [config|]; [|split; [done|by exists []]].
  change (resolveFilmDir (with_network pf net)) with (resolveFilmDir pf).
  destruct (resolveFilmDir pf _ _) as [filmDir|]; [|split; [done|by exists []]].
  destruct (ensureDirectoryExists filmDir fs) as [[[]|] fs1];
    [|split; [done|by exists []]].
  change (writeJsonFile (with_network pf net)) with (writeJsonFile pf).
  destruct (writeJsonFile pf _ _ fs1) as [[[]|] fs2];
    [|split; [done|by exists []]].
  change (generateMetadataText (with_network pf net)) with (generateMetadataText pf).
  destruct (writeTextFile _ _ fs2) as [[[]|] fs3]; [|split; [done|by exists []]].
  destruct (truthy (obj_get (user config) (js "downloadImages")));
    [|split; [done|exists filmDir; split; [by intros d [= <-]|done]]].
  pose proof (downloadFilmImages_alike pf net film filmDir fs3) as H.
  pose proof (downloadFilmImages_outside (with_network pf net) film filmDir fs3) as Hon.
  pose proof (downloadFilmImages_outside pf film filmDir fs3) as Hoff.
  destruct (downloadFilmImages (with_network pf net) film filmDir fs3) as [r fs4],
           (downloadFilmImages pf film filmDir fs3) as [r' fs4'].
  cbn [fst] in H. subst r'.
  specialize (Hon _ _ eq_refl). specialize (Hoff _ _ eq_refl).
  split; [by destruct r as [[]|]|].
  exists filmDir. split.
  - destruct r as [[]|]; [by intros d [= <-]|done].
  - intros p H1 H2. destruct r as [[]|]; cbn [snd];
      by rewrite (Hon p H1 H2), (Hoff p H1 H2).
Qed.



End StorageExtras.

(** ** The TMDB client *)

Module TMDBFacts.
Import TMDBClient.

Lemma obj_get_cons_eq (k : jsstring) (v : JSValue)
    (props : list (jsstring * JSValue)) :
  obj_get (obj ((k, v) :: props)) k = v.
Proof. unfold obj_get, obj. by rewrite list_to_map_cons, lookup_insert_eq. Qed.

Lemma obj_get_cons_ne (k k' : jsstring) (v : JSValue)
    (props : list (jsstring * JSValue)) :
  k <> k' -> obj_get (obj ((k, v) :: props)) k' = obj_get (obj props) k'.
Proof.
  intros H. unfold obj_get, obj. by rewrite list_to_map_cons, lookup_insert_ne.
Qed.

Ltac read_literal :=
  repeat (rewrite obj_get_cons_ne by ConfigManagerFacts.js_neq);
  rewrite obj_get_cons_eq.

Lemma Ok_inj {A} (a b : A) : Ok a = Ok b -> a = b.
Proof. by intros [= ->]. Qed.

Lemma truthy_or_else (v d : JSValue) :
  truthy d = true -> truthy (or_else v d) = true.
Proof. intros H. unfold or_else. by destruct (truthy v) eqn:E. Qed.

(** Reading a property throws nothing but a TypeError. *)
Lemma get_prop_throws (v : JSValue) (k : jsstring) (e : exn) :
  get_prop v k = Throw e -> e = NodeError (js "TypeError").
Proof. destruct v; cbn; congruence. Qed.

Ltac callback :=
  intros x e;
  repeat match goal with
  | |- context [get_prop x ?k] =>
      let E := fresh in
      destruct (get_prop x k) eqn:E; cbn [bind_result];
      [ | intros [= <-]; exact (get_prop_throws _ _ _ E) ]
  end;
  discriminate.

Lemma genre_of_throws : type_errors genre_of.
Proof. unfold genre_of. callback. Qed.

Lemma company_of_throws : type_errors company_of.
Proof. unfold company_of. callback. Qed.

Lemma country_of_throws : type_errors country_of.
Proof. unfold country_of. callback. Qed.

Lemma language_of_throws : type_errors language_of.
Proof. unfold language_of. callback. Qed.

Lemma map_items_throws (f : JSValue -> result JSValue) (items : list JSValue)
    (e : exn) :
  type_errors f -> map_items f items = Throw e -> e = NodeError (js "TypeError").
Proof.
  intros Hf. induction items as [|item rest IH]; cbn [map_items]; [discriminate|].
  destruct (f item) as [mapped|e'] eqn:E; cbn [bind_result].
  - destruct (map_items f rest) as [others|e'']; cbn [bind_result].
    + discriminate.
    + intros [= <-]. by apply IH.
  - intros [= <-]. by apply (Hf item).
Qed.

Lemma array_map_throws (f : JSValue -> result JSValue) (v : JSValue) (e : exn) :
  type_errors f -> array_map f v = Throw e -> e = NodeError (js "TypeError").
Proof.
  intros Hf. destruct v; cbn [array_map]; try by intros [= <-].
  destruct (map_items f _) as [mapped|e'] eqn:E; cbn [bind_result].
  - discriminate.
  - intros [= <-]. by apply (map_items_throws f items).
Qed.

Lemma array_map_array (f : JSValue -> result JSValue) (v mapped : JSValue) :
  array_map f v = Ok mapped ->
  exists items results,
    v = JArr items /\ mapped = JArr results /\ length results = length items.
Proof.
  destruct v; cbn [array_map]; try discriminate.
  destruct (map_items f items) as [results|e] eqn:E; cbn [bind_result];
    [|discriminate].
  intros [= <-]. exists items, results. repeat split.
  revert results E. induction items as [|item rest IH]; cbn [map_items].
  - by intros results [= <-].
  - intros results. destruct (f item); cbn [bind_result]; [|discriminate].
    destruct (map_items f rest) as [others|]; cbn [bind_result]; [|discriminate].
    intros [= <-]. cbn. f_equal. by apply IH.
Qed.

End TMDBFacts.

Module TMDBExtras.
Import TMDBClient TMDBFacts.

(** X28. A request that was
    rejected with an error of message [m] is reported as an [APIError] of
    status 500 for [movie/<id>] with the message
    [Failed to get movie details: m]; an answer whose [id] is falsy (missing,
    0, null, empty) as [Movie not found] with status 404, which the [catch]
    hands on unchanged.  Whatever else goes wrong, what [getMovieDetails]
    throws is an [APIError] for [movie/<id>] with status 404 or 500. *)
Theorem getMovieDetails_failures (movieInfo : answer) (id : Z) :
  (forall message : jsstring,
      movieInfo = Rejected message ->
      getMovieDetails movieInfo id
      = Throw (APIError (js "Failed to get movie details: " ++ message) 500
                 (endpoint id)))
  /\ (forall movie movie_id : JSValue,
         movieInfo = Fulfilled movie ->
         get_prop movie (js "id") = Ok movie_id ->
         truthy movie_id = false ->
         getMovieDetails movieInfo id
         = Throw (APIError (js "Movie not found") 404 (endpoint id)))
  /\ (forall e : exn,
         getMovieDetails movieInfo id = Throw e ->
         exists (message : jsstring) (status : Z),
           e = APIError message status (endpoint id)
           /\ (status = 404 \/ status = 500)%Z).
Proof.
  split; [|split].
  - by intros message ->.
  - intros movie movie_id -> Hid Hfalsy. unfold getMovieDetails.
    cbn [awaited bind_result]. rewrite Hid. cbn [bind_result].
    by rewrite Hfalsy.
  - intros e. unfold getMovieDetails.
    set (wrap := fun e' : exn => _).
    assert (Hwrap : forall e0, e0 = NodeError (js "TypeError") ->
              exists (message : jsstring) (status : Z),
                caught wrap e0 = APIError message status (endpoint id)
                /\ (status = 404 \/ status = 500)%Z).
    { intros e0 ->. cbn. eexists _, _. split; [reflexivity|by right]. }
    destruct movieInfo as [movie|message]; cbn [awaited bind_result].
    2: { cbn. intros [= <-]. eexists _, _. split; [reflexivity|by right]. }
    destruct (get_prop movie (js "id")) as [movie_id|e0] eqn:Hid;
      cbn [bind_result].
    2: { cbn [rethrow]. intros [= <-]. apply Hwrap.
         by apply (get_prop_throws movie (js "id")). }
    destruct (truthy movie_id); cbn [negb].
    2: { cbn. intros [= <-]. eexists _, _. split; [reflexivity|by left]. }
    assert (Hread : forall k, exists v, get_prop movie k = Ok v).
    { intros k. destruct movie; try discriminate; cbn; by eexists. }
    repeat match goal with
    | |- context [get_prop movie ?k] =>
        let v := fresh "v" in let E := fresh "E" in
        destruct (Hread k) as [v E]; rewrite E; cbn [bind_result]; clear E
    | |- context [array_map ?f ?v] =>
        let r := fresh "r" in let e1 := fresh "e" in let E := fresh "E" in
        destruct (array_map f v) as [r|e1] eqn:E; cbn [bind_result];
        [ clear E
        | cbn [rethrow]; intros [= <-]; apply Hwrap;
          first [ exact (array_map_throws _ _ _ genre_of_throws E)
                | exact (array_map_throws _ _ _ company_of_throws E)
                | exact (array_map_throws _ _ _ country_of_throws E)
                | exact (array_map_throws _ _ _ language_of_throws E) ] ]
    end.
    discriminate.
Qed.

Lemma getMovieDetails_failures_witness :
  getMovieDetails (Rejected (js "Request failed with status code 401")) 603
  = Throw (APIError
             (js "Failed to get movie details: Request failed with status code 401")
             500 (js "movie/603"))
  /\ getMovieDetails (Fulfilled Demo.tmdb_nothing) 603
     = Throw (APIError (js "Movie not found") 404 (js "movie/603")).
Proof.
  split.
  - exact (proj1 (getMovieDetails_failures
                    (Rejected (js "Request failed with status code 401")) 603)
             _ eq_refl).
  - exact (proj1 (proj2 (getMovieDetails_failures
                           (Fulfilled Demo.tmdb_nothing) 603))
             Demo.tmdb_nothing JUndefined eq_refl eq_refl eq_refl).
Defined.

(** X29. A film that
    [getMovieDetails] returns has a truthy [id], the one of the answer; its
    [title], [originalTitle], [overview], [releaseDate], [status] and
    [originalLanguage] are never missing or empty, whatever the answer left
    out; and its [genres], [productionCompanies], [productionCountries] and
    [spokenLanguages] are arrays with one entry for each entry of the
    answer's list. *)
Theorem getMovieDetails_defaults (movieInfo : answer) (id : Z)
    (film : JSValue) :
  getMovieDetails movieInfo id = Ok film ->
  exists (movie : JSValue) (props : object),
    movieInfo = Fulfilled movie
    /\ film = JObj props
    /\ get_prop movie (js "id") = Ok (obj_get props (js "id"))
    /\ truthy (obj_get props (js "id")) = true
    /\ Forall (fun k => truthy (obj_get props k) = true)
         [ js "title"; js "originalTitle"; js "overview"; js "releaseDate";
           js "status"; js "originalLanguage" ]
    /\ Forall (fun '(k, k') =>
                 exists items results,
                   lists_of movie k' = JArr items
                   /\ obj_get props k = JArr results
                   /\ length results = length items)
         [ (js "genres", js "genres");
           (js "productionCompanies", js "production_companies");
           (js "productionCountries", js "production_countries");
           (js "spokenLanguages", js "spoken_languages") ].
Proof.
  unfold getMovieDetails. set (wrap := fun e' : exn => _).
  destruct movieInfo as [movie|message]; cbn [awaited bind_result];
    [|discriminate].
  destruct (get_prop movie (js "id")) as [movie_id|e0] eqn:Hid;
    cbn [bind_result]; [|discriminate].
  destruct (truthy movie_id) eqn:Htruthy; cbn [negb]; [|discriminate].
  assert (Hread : forall k, exists v, get_prop movie k = Ok v).
  { intros k. destruct movie; try discriminate; cbn; by eexists. }
  destruct (Hread (js "title")) as [title ->].
  destruct (Hread (js "original_title")) as [original_title ->].
  destruct (Hread (js "overview")) as [overview ->].
  destruct (Hread (js "release_date")) as [release_date ->].
  destruct (Hread (js "poster_path")) as [poster_path ->].
  destruct (Hread (js "backdrop_path")) as [backdrop_path ->].
  destruct (Hread (js "genres")) as [genres G1]. rewrite G1.
  cbn [bind_result].
  destruct (array_map genre_of _) as [genres'|] eqn:Hgenres;
    cbn [bind_result]; [|discriminate].
  destruct (Hread (js "runtime")) as [runtime ->].
  destruct (Hread (js "vote_average")) as [vote_average ->].
  destruct (Hread (js "vote_count")) as [vote_count ->].
  destruct (Hread (js "popularity")) as [popularity ->].
  destruct (Hread (js "status")) as [status ->].
  destruct (Hread (js "tagline")) as [tagline ->].
  destruct (Hread (js "budget")) as [budget ->].
  destruct (Hread (js "revenue")) as [revenue ->].
  destruct (Hread (js "production_companies")) as [companies G2]. rewrite G2.
  cbn [bind_result].
  destruct (array_map company_of _) as [companies'|] eqn:Hcompanies;
    cbn [bind_result]; [|discriminate].
  destruct (Hread (js "production_countries")) as [countries G3]. rewrite G3.
  cbn [bind_result].
  destruct (array_map country_of _) as [countries'|] eqn:Hcountries;
    cbn [bind_result]; [|discriminate].
  destruct (Hread (js "spoken_languages")) as [languages G4]. rewrite G4.
  cbn [bind_result].
  destruct (array_map language_of _) as [languages'|] eqn:Hlanguages;
    cbn [bind_result]; [|discriminate].
  destruct (Hread (js "adult")) as [adult ->].
  destruct (Hread (js "video")) as [video ->].
  destruct (Hread (js "original_language")) as [original_language ->].
  destruct (Hread (js "imdb_id")) as [imdb_id ->].
  destruct (Hread (js "homepage")) as [homepage ->].
  cbn [bind_result rethrow]. intros Hfilm. apply Ok_inj in Hfilm. subst film.
  eexists movie, _.
  split; [reflexivity|]. split; [reflexivity|].
  split; [by read_literal|]. split; [by read_literal|].
  split.
  - repeat apply Forall_cons_2; try apply Forall_nil_2; read_literal;
      by apply truthy_or_else.
  - destruct (array_map_array _ _ _ Hgenres) as (i1 & r1 & E1 & -> & L1).
    destruct (array_map_array _ _ _ Hcompanies) as (i2 & r2 & E2 & -> & L2).
    destruct (array_map_array _ _ _ Hcountries) as (i3 & r3 & E3 & -> & L3).
    destruct (array_map_array _ _ _ Hlanguages) as (i4 & r4 & E4 & -> & L4).
    repeat apply Forall_cons_2; try apply Forall_nil_2.
    + exists i1, r1. unfold lists_of. rewrite G1.
      split; [done|]. split; [by read_literal|done].
    + exists i2, r2. unfold lists_of. rewrite G2.
      split; [done|]. split; [by read_literal|done].
    + exists i3, r3. unfold lists_of. rewrite G3.
      split; [done|]. split; [by read_literal|done].
    + exists i4, r4. unfold lists_of. rewrite G4.
      split; [done|]. split; [by read_literal|done].
Qed.

Lemma getMovieDetails_defaults_witness :
  exists props : object,
    getMovieDetails (Fulfilled Demo.tmdb_matrix) 603 = Ok (JObj props)
    /\ obj_get props (js "id") = JNum 603
    /\ truthy (obj_get props (js "overview")) = true
    /\ exists results, obj_get props (js "genres") = JArr results
                       /\ length results = 1%nat.
Proof.
  destruct (getMovieDetails (Fulfilled Demo.tmdb_matrix) 603) as [film|e] eqn:E.
  2: { vm_compute in E. discriminate E. }
  destruct (getMovieDetails_defaults _ _ film E)
    as (movie & props & [= <-] & -> & Hid & _ & Hnamed & Hlists).
  exists props. split; [reflexivity|].
  split; [by injection Hid as <-|].
  split.
  { by apply (proj1 (Forall_forall _ _) Hnamed (js "overview")),
      list_elem_of_In; vm_compute; tauto. }
  apply Forall_cons_1 in Hlists as [(items & results & H1 & H2 & H3) _].
  exists results. split; [done|]. rewrite H3.
  vm_compute in H1. by injection H1 as <-.
Defined.

End TMDBExtras.

(** ** The configure command *)

Module ConfigureFacts.
Import Types ConfigManager ConfigureCommand ConfigManagerFacts ConfigMoreFacts.

(** What the three validators accept. *)
Lemma validateApiKey_accepts (apiKey : jsstring) :
  validateApiKey apiKey = Ok tt
  <-> trim apiKey <> [] /\ (10 <= length apiKey)%nat.
Proof.
  unfold validateApiKey.
  destruct (bool_decide (apiKey = [])) eqn:E1; cbn [orb].
  { apply bool_decide_eq_true_1 in E1 as ->. split; [done|]. by intros [H _]. }
  destruct (length (trim apiKey) =? 0)%nat eqn:E2.
  { apply Nat.eqb_eq in E2. split; [done|].
    intros [H _]. by destruct (trim apiKey). }
  apply Nat.eqb_neq in E2.
  destruct (length apiKey <? 10)%nat eqn:E3.
  - apply Nat.ltb_lt in E3. split; [done|]. intros [_ H]. lia.
  - apply Nat.ltb_ge in E3. split; [|done]. intros _. split; [|done].
    intros E. by rewrite E in E2.
Qed.

Lemma validateOutputDir_accepts (outputDir : jsstring) :
  validateOutputDir outputDir = Ok tt <-> trim outputDir <> [].
Proof.
  unfold validateOutputDir.
  destruct (bool_decide (outputDir = [])) eqn:E1; cbn [orb].
  { apply bool_decide_eq_true_1 in E1 as ->. split; [done|]. by intros H. }
  destruct (length (trim outputDir) =? 0)%nat eqn:E2.
  - apply Nat.eqb_eq in E2. split; [done|]. intros H. by destruct (trim outputDir).
  - apply Nat.eqb_neq in E2. split; [|done]. intros _ E. by rewrite E in E2.
Qed.

Lemma validateImageQuality_accepts (imageQuality : jsstring) :
  validateImageQuality imageQuality = Ok tt
  <-> includes ImageQuality (JStr imageQuality) = true.
Proof.
  unfold validateImageQuality.
  change [js "low"; js "medium"; js "high"] with ImageQuality.
  destruct (includes ImageQuality (JStr imageQuality)); cbn [negb]; by split.
Qed.

(** The constructor of [ConfigManager] creates directories at most, and
    none inside the configuration directory. *)
Lemma getConfigDirectory_effect (pf : Platform) (fs : FS) (r : result path)
    (fs' : FS) :
  getConfigDirectory pf fs = (r, fs') ->
  forall x : jsstring,
    fs' !! child (configDir pf) x = fs !! child (configDir pf) x.
Proof.
  unfold getConfigDirectory, bind, try_rethrow, update, ret, mkdirSync_recursive.
  destruct (existsSync (configDir pf) fs); cbn [negb].
  { by intros [= _ <-]. }
  destruct (mkdirs fs [] (configDir pf)) as [fs1|e] eqn:M; intros [= _ <-];
    [|done].
  intros x. eapply mkdirs_outside; [exact M|]. apply child_not_prefix.
Qed.

End ConfigureFacts.

Module ConfigureExtras.
Import Types ConfigManager ConfigureCommand ConfigManagerFacts ConfigMoreFacts.
Import ConfigureFacts.

(** X30. What [configure] has
    validated and saved is what the program reads afterwards: when the
    saves of [execute] complete, [getApiKey] gives the key that was
    entered, [isConfigured] answers true, and [loadConfig] returns a
    configuration whose [tmdbApiKey], [defaultOutputDir] and
    [imageQuality] are the three values entered, every other setting as it
    was.  The three validators accept no value that [loadConfig] would
    replace.  It takes a configuration that loaded before and JSON
    functions that give the two written objects back from their text. *)
Theorem configure_read_back (pf : Platform)
    (apiKey outputDir imageQuality : jsstring) (fs fs' : FS)
    (config : ConfigFile) :
  loadConfig pf fs = Ok config ->
  execute_save pf apiKey outputDir imageQuality fs = (Ok tt, fs') ->
  JSON_parse pf
    (JSON_stringify pf
       (JObj (obj [ (js "apiKey", JStr apiKey);
                    (js "encrypted", JBool false);
                    (js "lastUsed", JStr (now_iso pf)) ])))
  = Some (JObj (obj [ (js "apiKey", JStr apiKey);
                      (js "encrypted", JBool false);
                      (js "lastUsed", JStr (now_iso pf)) ])) ->
  JSON_parse pf
    (JSON_stringify pf
       (js_of_config
          {| user := spread (spread ∅ (JObj (user config)))
                       (JObj (obj [ (js "tmdbApiKey", JStr apiKey);
                                    (js "defaultOutputDir", JStr outputDir);
                                    (js "imageQuality", JStr imageQuality) ]));
             app := app config;
             lastUpdated := JStr (now_iso pf) |}))
  = Some (js_of_config
            {| user := spread (spread ∅ (JObj (user config)))
                         (JObj (obj [ (js "tmdbApiKey", JStr apiKey);
                                      (js "defaultOutputDir", JStr outputDir);
                                      (js "imageQuality", JStr imageQuality) ]));
               app := app config;
               lastUpdated := JStr (now_iso pf) |}) ->
  getApiKey pf fs' = JStr apiKey
  /\ isConfigured pf fs' = Ok true
  /\ exists config' : ConfigFile,
       loadConfig pf fs' = Ok config'
       /\ obj_get (user config') (js "tmdbApiKey") = JStr apiKey
       /\ obj_get (user config') (js "defaultOutputDir") = JStr outputDir
       /\ obj_get (user config') (js "imageQuality") = JStr imageQuality
       /\ forall k : jsstring,
            k <> js "tmdbApiKey" -> k <> js "defaultOutputDir" ->
            k <> js "imageQuality" ->
            obj_get (user config') k = obj_get (user config) k.
Proof.
  intros Hload Hrun Hjson1 Hjson2.
  unfold execute_save, bind, read in Hrun.
  destruct (validateApiKey apiKey) as [[]|] eqn:V1; [|done].
  destruct (validateOutputDir outputDir) as [[]|] eqn:V2; [|done].
  destruct (validateImageQuality imageQuality) as [[]|] eqn:V3; [|done].
  apply validateApiKey_accepts in V1 as [Htrim Hlen].
  apply validateImageQuality_accepts in V3.
  assert (Hkey : apiKey <> []) by (intros ->; by apply Htrim).
  destruct (getConfigDirectory pf fs) as [[dir|] fs0] eqn:Hnew0; [|done].
  pose proof (getConfigDirectory_effect pf fs _ fs0 Hnew0 (js "config.json"))
    as Hsame.
  rewrite (loadConfig_ext pf fs fs0) in Hload by (symmetry; exact Hsame).
  clear Hnew0 Hsame. revert Hload Hrun. generalize fs0. clear fs.
  intros fs Hload Hrun.
  destruct (saveCredentials pf apiKey fs) as [[[]|] fs1] eqn:Hsave; [|done].
  destruct (saves_apart pf fs) as (Hconfig & _ & _).
  destruct (saves_apart pf fs1) as (_ & _ & Hcredentials).
  specialize (Hconfig apiKey). specialize (Hcredentials
    (obj [ (js "tmdbApiKey", JStr apiKey);
           (js "defaultOutputDir", JStr outputDir);
           (js "imageQuality", JStr imageQuality) ])).
  rewrite Hsave in Hconfig. rewrite Hrun in Hcredentials. cbn [snd] in *.
  rewrite Hload in Hconfig.
  pose proof (getApiKey_saved pf apiKey fs fs1 Hsave Hjson1 Hkey) as Hget.
  rewrite Hget in Hcredentials.
  split; [exact Hcredentials|]. split.
  { unfold isConfigured. rewrite Hcredentials. cbn [truthy].
    rewrite bool_decide_eq_false_2 by done. cbn [negb]. f_equal.
    apply Nat.ltb_lt. destruct (trim apiKey); [done|cbn; lia]. }
  destruct (updateUserConfig_reads pf _ fs1 fs' config Hconfig Hrun Hjson2)
    as (config' & Hload' & _ & Hold & Hnew).
  exists config'. split; [exact Hload'|].
  split; [|split; [|split]].
  - apply Hnew; [by rewrite lookup_obj_cons, bool_decide_eq_true_2| |done|done].
    intros _. cbn [truthy]. by rewrite bool_decide_eq_false_2.
  - apply Hnew; [|done|done|done].
    rewrite lookup_obj_cons, bool_decide_eq_false_2 by ConfigManagerFacts.js_neq.
    by rewrite lookup_obj_cons, bool_decide_eq_true_2.
  - apply Hnew; [|done|done|done].
    rewrite lookup_obj_cons, bool_decide_eq_false_2 by ConfigManagerFacts.js_neq.
    rewrite lookup_obj_cons, bool_decide_eq_false_2 by ConfigManagerFacts.js_neq.
    by rewrite lookup_obj_cons, bool_decide_eq_true_2.
  - intros k N1 N2 N3. apply Hold.
    rewrite !lookup_obj_cons, !bool_decide_eq_false_2 by done. done.
Qed.

Lemma configure_read_back_witness :
  getApiKey Demo.writer
    (snd (execute_save Demo.writer Demo.new_key (js "/srv/films") (js "high")
            Demo.fresh))
  = JStr Demo.new_key
  /\ isConfigured Demo.writer
       (snd (execute_save Demo.writer Demo.new_key (js "/srv/films") (js "high")
               Demo.fresh))
     = Ok true.
Proof.
  destruct (configure_read_back Demo.writer Demo.new_key (js "/srv/films")
              (js "high") Demo.fresh
              (snd (execute_save Demo.writer Demo.new_key (js "/srv/films")
                      (js "high") Demo.fresh))
              (createDefaultConfig Demo.writer))
    as (Hget & Hconfigured & _).
  - vm_compute. reflexivity.
  - apply FsMoreFacts.pair_of_fst_ok. vm_compute. reflexivity.
  - vm_compute. reflexivity.
  - vm_compute. reflexivity.
  - split; [exact Hget|exact Hconfigured].
Defined.

End ConfigureExtras.
